(** * interactive_converter.py: annotation normalisation, quality filtering,
      file matching, box expansion and polygon lines; format detection,
      the cropper and its prompts

    A shallow embedding of the computational core of
    [src/interactive_converter.py] and the properties its specification
    states about it.

    Conventions of the embedding.
    - Python [int] is [Z]; Python [float] is the primitive binary64 [float].
    - Python [str] is [string] (a byte string; case folding and white space
      are those of ASCII).
    - A Python [dict] used as a map is a [gmap]; a [set] is a [gset];
      a decoded JSON document is a [json] value.
    - A raised exception is the [Raise] branch of [result]; code that
      catches it is written out where the source has a [try].
    - The file system, the image library, the XML and JSON decoders and the
      builtin conversions from text are the fields of a [World]. *)

From Stdlib Require Import ZArith String Ascii List Bool Lia.
From Stdlib Require Import Floats.PrimFloat Floats.FloatOps Floats.SpecFloat.
From Stdlib Require Import Floats.FloatAxioms.
From stdpp Require Import gmap strings list pretty.

Local Open Scope string_scope.
Local Open Scope list_scope.
Local Open Scope Z_scope.

(** ** Exceptions *)

Inductive py_exn : Set :=
  | ValueError | OverflowError | TypeError | KeyError | IndexError
  | AttributeError | OSError.

Inductive result (A : Type) : Type :=
  | Ok (a : A)
  | Raise (e : py_exn).
Arguments Ok {A} a.
Arguments Raise {A} e.

#[global] Instance result_ret : MRet result := @Ok.
#[global] Instance result_bind : MBind result :=
  λ A B k r, match r with Ok a => k a | Raise e => Raise e end.

#[global] Instance result_fmap : FMap result :=
  λ A B f r, match r with Ok a => Ok (f a) | Raise e => Raise e end.

(** ** Floating point: the builtins [float(int)], [int(float)], [round(float)] *)

Module PyFloat.

(** Conversion of an [int] operand in mixed arithmetic: correctly rounded,
    [OverflowError] when the integer is too large for a double. *)
Definition of_int (z : Z) : result float :=
  let f := SF2Prim (binary_normalize prec emax z 0 false) in
  if is_finite f then Ok f else Raise OverflowError.

(** [f * z] and [z * f] with [z : int]. *)
Definition mul_int (f : float) (z : Z) : result float :=
  g ← of_int z; Ok (PrimFloat.mul f g).

(** [int(f)]: truncation toward zero. *)
Definition to_int (f : float) : result Z :=
  match Prim2SF f with
  | S754_nan => Raise ValueError
  | S754_infinity _ => Raise OverflowError
  | S754_zero _ => Ok 0
  | S754_finite s m e =>
      let a := if 0 <=? e then Z.pos m * 2 ^ e
               else Z.pos m / 2 ^ (- e) in
      Ok (if s then - a else a)
  end.

(** [round(f)] with one argument: nearest integer, ties to even. *)
Definition round (f : float) : result Z :=
  match Prim2SF f with
  | S754_nan => Raise ValueError
  | S754_infinity _ => Raise OverflowError
  | S754_zero _ => Ok 0
  | S754_finite s m e =>
      let a :=
        if 0 <=? e then Z.pos m * 2 ^ e
        else
          let d := 2 ^ (- e) in
          let q := Z.pos m / d in
          let r := Z.pos m mod d in
          match 2 * r ?= d with
          | Lt => q
          | Gt => q + 1
          | Eq => if Z.even q then q else q + 1
          end in
      Ok (if s then - a else a)
  end.

(** [f // 2] for a float [f]: the floor of the exact half, as a float;
    a zero keeps its sign, an infinity and a NaN give a NaN. *)
Definition floordiv2 (f : float) : float :=
  match Prim2SF f with
  | S754_nan | S754_infinity _ => PrimFloat.nan
  | S754_zero _ => f
  | S754_finite s m e =>
      let v := if s then Z.neg m else Z.pos m in
      let q := if 1 <=? e then v * 2 ^ (e - 1) else v / 2 ^ (1 - e) in
      SF2Prim (binary_normalize prec emax q 0 false)
  end.

End PyFloat.

(** ** Strings: the [str] and [os.path] operations the program uses *)

Module PyStr.

Definition is_upper (c : ascii) : bool :=
  let n := nat_of_ascii c in (65 <=? n)%nat && (n <=? 90)%nat.

Definition lower_char (c : ascii) : ascii :=
  if is_upper c then ascii_of_nat (nat_of_ascii c + 32) else c.

(** [s.lower()] *)
Fixpoint lower (s : string) : string :=
  match s with
  | EmptyString => EmptyString
  | String c s' => String (lower_char c) (lower s')
  end.

(** [s.endswith(suffix)] *)
Definition endswith (s suffix : string) : bool :=
  let n := String.length s in
  let m := String.length suffix in
  (m <=? n)%nat && String.eqb (substring (n - m) m s) suffix.

(** [s.endswith((a, b, ...))] *)
Definition endswith_any (s : string) (suffixes : list string) : bool :=
  existsb (endswith s) suffixes.

(** [s.rfind(c)] for a single character, [None] for [-1]. *)
Fixpoint rfind_from (i : nat) (c : ascii) (s : string) : option nat :=
  match s with
  | EmptyString => None
  | String d s' =>
      match rfind_from (S i) c s' with
      | Some j => Some j
      | None => if Ascii.eqb c d then Some i else None
      end
  end.
Definition rfind (c : ascii) (s : string) : option nat := rfind_from 0 c s.

(** [s[i:]] *)
Definition drop (i : nat) (s : string) : string :=
  substring i (String.length s - i) s.
(** [s[:i]] *)
Definition take (i : nat) (s : string) : string := substring 0 i s.

(** [os.path.basename(p)]: [p[p.rfind('/') + 1:]] *)
Definition basename (p : string) : string :=
  match rfind "/" p with
  | Some i => drop (S i) p
  | None => p
  end.

(** [os.path.splitext(p)] ([genericpath._splitext]): the extension starts
    at the last dot of the last path component, unless that component
    has only dots before it. *)
Definition splitext (p : string) : string * string :=
  let start := match rfind "/" p with Some i => S i | None => 0%nat end in
  match rfind "." p with
  | Some dot =>
      if (start <=? dot)%nat
         && existsb (λ i, negb (bool_decide (String.get i p = Some "."%char)))
                    (seq start (dot - start))
      then (take dot p, drop dot p)
      else (p, "")
  | None => (p, "")
  end.

Definition splitext_base (p : string) : string := fst (splitext p).

(** White space of [str.strip()] and [str.split()] in the ASCII range. *)
Definition is_space (c : ascii) : bool :=
  let n := nat_of_ascii c in
  ((9 <=? n)%nat && (n <=? 13)%nat) || ((28 <=? n)%nat && (n <=? 32)%nat).

(** [s.split()]: maximal runs of characters that are not white space.
    [cur] is the run being read, in reverse. *)
Fixpoint split_go (cur : list ascii) (s : string) : list string :=
  let flush (rest : list string) :=
    match cur with
    | [] => rest
    | _ => string_of_list_ascii (rev cur) :: rest
    end in
  match s with
  | EmptyString => flush []
  | String c s' =>
      if is_space c then flush (split_go [] s')
      else split_go (c :: cur) s'
  end.
Definition split (s : string) : list string := split_go [] s.

(** [x in l] for a list of strings. *)
Definition mem (x : string) (l : list string) : bool := bool_decide (x ∈ l).

End PyStr.

(** ** Decoded JSON documents *)

#[warnings="-register-all"]
Inductive json : Type :=
  | JNull
  | JBool (b : bool)
  | JInt (z : Z)
  | JFloat (f : float)
  | JStr (s : string)
  | JArr (l : list json)
  | JObj (kv : list (string * json)).

(** Induction on a decoded document, through its arrays and objects. *)
Section json_induction.
Variable P : json → Prop.
Hypothesis Hnull : P JNull.
Hypothesis Hbool : ∀ b, P (JBool b).
Hypothesis Hint : ∀ z, P (JInt z).
Hypothesis Hfloat : ∀ f, P (JFloat f).
Hypothesis Hstr : ∀ s, P (JStr s).
Hypothesis Harr : ∀ l, Forall P l → P (JArr l).
Hypothesis Hobj : ∀ kv, Forall (λ p, P p.2) kv → P (JObj kv).

Fixpoint json_induction (j : json) : P j :=
  match j with
  | JNull => Hnull
  | JBool b => Hbool b
  | JInt z => Hint z
  | JFloat f => Hfloat f
  | JStr s => Hstr s
  | JArr l =>
      Harr l ((fix go (l : list json) : Forall P l :=
                 match l with
                 | [] => List.Forall_nil P
                 | x :: l' => @List.Forall_cons _ P x l' (json_induction x) (go l')
                 end) l)
  | JObj kv =>
      Hobj kv ((fix go (kv : list (string * json)) : Forall (λ p, P p.2) kv :=
                  match kv with
                  | [] => List.Forall_nil (λ p, P p.2)
                  | p :: kv' =>
                      @List.Forall_cons _ (λ p, P p.2) p kv' (json_induction p.2) (go kv')
                  end) kv)
  end.
End json_induction.

Module Json.

(** Truth value of a decoded value ([if v:], [not v]). *)
Definition truthy (v : json) : bool :=
  match v with
  | JNull => false
  | JBool b => b
  | JInt z => negb (z =? 0)
  | JFloat f => negb (PrimFloat.eqb f PrimFloat.zero)
  | JStr s => negb (String.eqb s "")
  | JArr l => match l with [] => false | _ => true end
  | JObj kv => match kv with [] => false | _ => true end
  end.

(** Lookup in the entries of a decoded object (keys are distinct). *)
Fixpoint lookup (k : string) (kv : list (string * json)) : option json :=
  match kv with
  | [] => None
  | (k', v) :: kv' => if String.eqb k' k then Some v else lookup k kv'
  end.

(** [d.get(k, dflt)]: only a dict has [get]. *)
Definition get (k : string) (dflt : json) (d : json) : result json :=
  match d with
  | JObj kv => Ok (default dflt (lookup k kv))
  | _ => Raise AttributeError
  end.

(** [d[k]] with a string key. *)
Definition item (k : string) (d : json) : result json :=
  match d with
  | JObj kv =>
      match lookup k kv with Some v => Ok v | None => Raise KeyError end
  | _ => Raise TypeError
  end.

(** [k in d] with a string [k]: key of a dict, element of a list,
    substring of a string. *)
Definition contains_str (k : string) (d : json) : result bool :=
  match d with
  | JObj kv => Ok (bool_decide (is_Some (lookup k kv)))
  | JArr l => Ok (existsb (λ v, match v with
                                | JStr s => String.eqb s k
                                | _ => false
                                end) l)
  | JStr s => Ok (existsb (λ i, String.eqb (substring i (String.length k) s) k)
                          (seq 0 (S (String.length s))))
  | _ => Raise TypeError
  end.

(** [len(v)] *)
Definition len (v : json) : result nat :=
  match v with
  | JArr l => Ok (length l)
  | JObj kv => Ok (length kv)
  | JStr s => Ok (String.length s)
  | _ => Raise TypeError
  end.

(** [int(v)] on a decoded value; [int_of_text] is [int] on a string. *)
Definition to_int (int_of_text : string → option Z) (v : json) : result Z :=
  match v with
  | JInt z => Ok z
  | JBool b => Ok (if b then 1 else 0)
  | JFloat f => PyFloat.to_int f
  | JStr s => match int_of_text s with
              | Some z => Ok z
              | None => Raise ValueError
              end
  | _ => Raise TypeError
  end.

End Json.

Module JsonSeq.

(** The items a [for] loop (or [map], or unpacking) visits. *)
Definition iter (v : json) : result (list json) :=
  match v with
  | JArr l => Ok l
  | JObj kv => Ok (map (λ p, JStr (fst p)) kv)
  | JStr s => Ok (map (λ c, JStr (String c EmptyString)) (list_ascii_of_string s))
  | _ => Raise TypeError
  end.

(** [v[i]] with an integer index [i >= 0]. *)
Definition index (i : nat) (v : json) : result json :=
  match v with
  | JArr l => match l !! i with Some x => Ok x | None => Raise IndexError end
  | JStr s => match String.get i s with
              | Some c => Ok (JStr (String c EmptyString))
              | None => Raise IndexError
              end
  | JObj _ => Raise KeyError
  | _ => Raise TypeError
  end.

End JsonSeq.

(** ** Numbers: coordinates are [int] or, from hk files, [float] *)

Inductive num : Set :=
  | NInt (z : Z)
  | NFloat (f : float).

Module Num.

Definition to_float (a : num) : result float :=
  match a with
  | NInt z => PyFloat.of_int z
  | NFloat f => Ok f
  end.

Definition sub (a b : num) : result num :=
  match a, b with
  | NInt x, NInt y => Ok (NInt (x - y))
  | _, _ => fa ← to_float a; fb ← to_float b; Ok (NFloat (PrimFloat.sub fa fb))
  end.

Definition mul (a b : num) : result num :=
  match a, b with
  | NInt x, NInt y => Ok (NInt (x * y))
  | _, _ => fa ← to_float a; fb ← to_float b; Ok (NFloat (PrimFloat.mul fa fb))
  end.

Definition add (a b : num) : result num :=
  match a, b with
  | NInt x, NInt y => Ok (NInt (x + y))
  | _, _ => fa ← to_float a; fb ← to_float b; Ok (NFloat (PrimFloat.add fa fb))
  end.

(** [a // 2]: the quotient rounded toward minus infinity. *)
Definition floordiv2 (a : num) : num :=
  match a with
  | NInt x => NInt (x / 2)
  | NFloat f => NFloat (PyFloat.floordiv2 f)
  end.

(** Exact comparison of an [int] with a [float]; [None] for a NaN. *)
Definition compare_int_float (z : Z) (f : float) : option comparison :=
  match Prim2SF f with
  | S754_nan => None
  | S754_infinity s => Some (if s then Gt else Lt)
  | S754_zero _ => Some (z ?= 0)
  | S754_finite s m e =>
      let v := if s then Z.neg m else Z.pos m in
      Some (if 0 <=? e then z ?= v * 2 ^ e else z * 2 ^ (- e) ?= v)
  end.

(** [a < b] *)
Definition ltb (a b : num) : bool :=
  match a, b with
  | NInt x, NInt y => x <? y
  | NInt x, NFloat g =>
      match compare_int_float x g with Some Lt => true | _ => false end
  | NFloat f, NInt y =>
      match compare_int_float y f with Some Gt => true | _ => false end
  | NFloat f, NFloat g => PrimFloat.ltb f g
  end.

(** [min(a, b)] and [max(a, b)]: the first argument wins a tie. *)
Definition min (a b : num) : num := if ltb b a then b else a.
Definition max (a b : num) : num := if ltb a b then b else a.

(** A decoded JSON number ([bool] is a subclass of [int]). *)
Definition of_json (v : json) : result num :=
  match v with
  | JInt z => Ok (NInt z)
  | JBool b => Ok (NInt (if b then 1 else 0))
  | JFloat f => Ok (NFloat f)
  | _ => Raise TypeError
  end.

End Num.

(** ** Data model *)

Record BBox : Set := mkBBox { box_x : num; box_y : num; box_w : num; box_h : num }.

Record UnifiedImage : Set := mkImage
  { img_file_name : string; img_id : Z; img_width : Z; img_height : Z }.

Record UnifiedCategory : Set := mkCategory { cat_id : Z; cat_name : string }.

Record UnifiedAnnotation : Set := mkAnnotation
  { ann_id : Z; ann_image_id : Z; ann_category_id : Z;
    ann_bbox : BBox; ann_area : num }.

(** What a format parser extracts from one entry: [{'category', 'bbox'}]. *)
Record RawBox : Set := mkRawBox { raw_category : string; raw_bbox : BBox }.

Definition int_box (x y w h : Z) : BBox :=
  mkBBox (NInt x) (NInt y) (NInt w) (NInt h).

(** The attributes of an [AnnotationConverter] instance. *)
Record AnnotationConverter : Type := mkConverter
  { categories : list UnifiedCategory;
    images : list UnifiedImage;
    annotations : list UnifiedAnnotation;
    cat2id : gmap string Z;
    img2id : gmap string Z;
    img_count : Z;
    cat_count : Z;
    ann_count : Z }.

(** [reset] (and [__init__]) *)
Definition reset : AnnotationConverter :=
  mkConverter [] [] [] ∅ ∅ 0 0 0.

Inductive FormatType : Set := yolo | voc | coco_single | labelme | hk.

#[global] Instance FormatType_eq_dec : EqDecision FormatType.
Proof. solve_decision. Defined.

(** The text of the four corners of a VOC [bndbox]: for each tag the [data]
    of the first child of the first element of that name, when there is one. *)
Record VocBndbox : Set := mkVocBndbox
  { voc_xmin : option string; voc_ymin : option string;
    voc_xmax : option string; voc_ymax : option string }.

(** An [object] element of a VOC document, as the parser reads it. *)
Record VocObject : Set := mkVocObject
  { voc_name : option string; voc_bndbox : option VocBndbox }.

(** ** The world outside the program *)

Record World : Type := mkWorld
  { (** [os.listdir(dir)], of a directory that exists *)
    listdir : string → list string;
    (** [Image.open(os.path.join(dir, name)).size] *)
    image_size : string → string → result (Z * Z);
    (** the lines of the text file [os.path.join(dir, name)] *)
    read_lines : string → string → result (list string);
    (** [parse(os.path.join(dir, name)).getElementsByTagName('object')] *)
    read_xml_objects : string → string → result (list VocObject);
    (** [json.load] of the file [os.path.join(dir, name)] *)
    read_json : string → string → result json;
    (** [json.loads(text)] *)
    loads_json : string → result json;
    (** [int(text)], [None] for [ValueError] *)
    int_of_text : string → option Z;
    (** [float(text)], [None] for [ValueError] *)
    float_of_text : string → option float;
    (** the text of a decoded value inside an f-string *)
    text_of_json : json → string }.

Definition py_int (W : World) (s : string) : result Z :=
  match int_of_text W s with Some z => Ok z | None => Raise ValueError end.

Definition py_float (W : World) (s : string) : result float :=
  match float_of_text W s with Some f => Ok f | None => Raise ValueError end.

(** A label read from a JSON document. The three JSON formats write labels
    as strings, and the store is keyed by [string]: a label of another type
    is outside the embedding and yields [TypeError]. *)
Definition label_of_json (v : json) : result string :=
  match v with
  | JStr s => Ok s
  | _ => Raise TypeError
  end.

(** ** hk: the deepest tag of a nested annotation *)

(** The loop of [find_deepest_tag] over the results of the recursive calls on
    the children: the tags that are true, in order; the first exception
    leaves the loop. *)
Fixpoint collect_tags (results : list (result json)) : result (list json) :=
  match results with
  | [] => Ok []
  | Raise e :: _ => Raise e
  | Ok tag :: rest =>
      match collect_tags rest with
      | Ok tags => Ok (if Json.truthy tag then tag :: tags else tags)
      | Raise e => Raise e
      end
  end.

(** [find_deepest_tag(item)], the local function of
    [_get_deepest_category_name]. The inner [scan] is
    [item.get('children', [])], written as a traversal of the entries so
    that the recursive calls are on sub-terms of [item]. *)
Fixpoint find_deepest_tag (item : json) : result json :=
  match item with
  | JObj kv =>
      let tag_name := default (JStr "") (Json.lookup "tagName" kv) in
      (fix scan (entries : list (string * json)) : result json :=
         match entries with
         | [] => Ok tag_name
         | (k, children) :: entries' =>
             if String.eqb k "children" then
               match children with
               | JArr [] => Ok tag_name
               | JArr l =>
                   match collect_tags (map find_deepest_tag l) with
                   | Ok (tag :: _) => Ok tag
                   | Ok [] => Ok tag_name
                   | Raise e => Raise e
                   end
               | JObj (_ :: _) => Raise AttributeError
               | JStr (String _ _) => Raise AttributeError
               | _ => if Json.truthy children then Raise TypeError
                      else Ok tag_name
               end
             else scan entries'
         end) kv
  | _ => Raise AttributeError
  end.

Definition _get_deepest_category_name (annotation_item : json) : result json :=
  find_deepest_tag annotation_item.

(** The same function as the body of the source reads: [children] is looked
    up first and then examined. *)
Definition find_deepest_tag_body (item : json) : result json :=
  children ← Json.get "children" (JArr []) item;
  if negb (Json.truthy children) then Json.get "tagName" (JStr "") item
  else
    match children with
    | JArr l =>
        deepest_tags ← collect_tags (map find_deepest_tag l);
        match deepest_tags with
        | tag :: _ => Ok tag
        | [] => Json.get "tagName" (JStr "") item
        end
    | JObj _ | JStr _ => Raise AttributeError
    | _ => Raise TypeError
    end.

(** ** AnnotationStore: registration of categories and annotations *)

(** [if category_name not in self.cat2id: ...] — the block every parser
    runs before it appends an annotation. *)
Definition ensure_category (category_name : string) (st : AnnotationConverter)
  : AnnotationConverter :=
  match cat2id st !! category_name with
  | Some _ => st
  | None =>
      mkConverter
        (categories st ++ [mkCategory (cat_count st) category_name])
        (images st) (annotations st)
        (<[category_name := cat_count st]> (cat2id st))
        (img2id st) (img_count st) (cat_count st + 1) (ann_count st)
  end.

(** [self.annotations.append({...}); self.ann_count += 1] *)
Definition push_annotation (img : Z) (category_name : string) (bbox : BBox)
    (area : num) (st : AnnotationConverter) : AnnotationConverter :=
  mkConverter (categories st) (images st)
    (annotations st
       ++ [mkAnnotation (ann_count st) img (cat2id st !!! category_name) bbox area])
    (cat2id st) (img2id st) (img_count st) (cat_count st) (ann_count st + 1).

(** The tail of every parser's loop body: register the category, then
    append the annotation with [area = w * h]. The product of two numbers
    of the store raises only for an integer beyond the range of a double
    next to a float. *)
Definition add_annotation (img : Z) (b : RawBox) (st : AnnotationConverter)
  : AnnotationConverter :=
  match Num.mul (box_w (raw_bbox b)) (box_h (raw_bbox b)) with
  | Ok area =>
      push_annotation img (raw_category b) (raw_bbox b) area
        (ensure_category (raw_category b) st)
  | Raise _ => ensure_category (raw_category b) st
  end.

(** [self.images.append({...}); self.img_count += 1] *)
Definition push_image (name : string) (size : Z * Z) (st : AnnotationConverter)
  : AnnotationConverter :=
  mkConverter (categories st)
    (images st ++ [mkImage name (img_count st) (fst size) (snd size)])
    (annotations st) (cat2id st) (img2id st)
    (img_count st + 1) (cat_count st) (ann_count st).

(** ** FormatParsers: what one entry of an annotation file yields *)

(** [class_mapping[class_id]] if present, else [f"class_{class_id}"]. *)
Definition yolo_category (class_mapping : option (gmap Z string)) (class_id : Z)
  : string :=
  match class_mapping with
  | Some m =>
      match m !! class_id with
      | Some name => name
      | None => "class_" +:+ pretty class_id
      end
  | None => "class_" +:+ pretty class_id
  end.

(** The [try] block of the YOLO loop up to the category name (lines 442-461
    and 1007-1026). [parts] has five tokens. *)
Definition yolo_box (W : World) (img_w img_h : Z)
    (class_mapping : option (gmap Z string)) (parts : list string)
  : result RawBox :=
  match parts with
  | [p0; p1; p2; p3; p4] =>
      class_id ← py_int W p0;
      x_center ← py_float W p1;
      y_center ← py_float W p2;
      w ← py_float W p3;
      h ← py_float W p4;
      x_center ← PyFloat.mul_int x_center img_w;
      y_center ← PyFloat.mul_int y_center img_h;
      w ← PyFloat.mul_int w img_w;
      h ← PyFloat.mul_int h img_h;
      x ← PyFloat.to_int (PrimFloat.sub x_center (PrimFloat.div w PrimFloat.two));
      y ← PyFloat.to_int (PrimFloat.sub y_center (PrimFloat.div h PrimFloat.two));
      w ← PyFloat.to_int w;
      h ← PyFloat.to_int h;
      Ok (mkRawBox (yolo_category class_mapping class_id) (int_box x y w h))
  | _ => Raise ValueError
  end.

(** One line of a YOLO file: [Ok None] is [continue], an exception is one
    that [except ValueError] lets through. A line of white space has no
    tokens, so the test on [line.strip()] is the first case of the test on
    [len(parts)]. *)
Definition yolo_line (W : World) (img_w img_h : Z)
    (class_mapping : option (gmap Z string)) (line : string)
  : result (option RawBox) :=
  let parts := PyStr.split line in
  if negb (length parts =? 5)%nat then Ok None
  else
    match yolo_box W img_w img_h class_mapping parts with
    | Ok b => Ok (Some b)
    | Raise ValueError => Ok None
    | Raise e => Raise e
    end.

(** [int(float(text))] of a VOC corner. *)
Definition voc_corner (W : World) (text : option string) : result Z :=
  match text with
  | Some s => f ← py_float W s; PyFloat.to_int f
  | None => Raise IndexError
  end.

(** The [try] block of the VOC loop up to [w] and [h]. *)
Definition voc_box (W : World) (obj : VocObject) : result RawBox :=
  match voc_name obj with
  | None => Raise IndexError
  | Some category_name =>
      match voc_bndbox obj with
      | None => Raise IndexError
      | Some bndbox =>
          xmin ← voc_corner W (voc_xmin bndbox);
          ymin ← voc_corner W (voc_ymin bndbox);
          xmax ← voc_corner W (voc_xmax bndbox);
          ymax ← voc_corner W (voc_ymax bndbox);
          Ok (mkRawBox category_name (int_box xmin ymin (xmax - xmin) (ymax - ymin)))
      end
  end.

(** [a, b = map(int, v)]: exactly two items, each accepted by [int]. *)
Definition int_pair (W : World) (v : json) : result (Z * Z) :=
  items ← JsonSeq.iter v;
  match items with
  | [a; b] =>
      a ← Json.to_int (int_of_text W) a;
      b ← Json.to_int (int_of_text W) b;
      Ok (a, b)
  | _ => Raise ValueError
  end.

(** One entry of a single-image COCO file: [Ok None] is [continue]. *)
Definition coco_box (W : World) (ann : json) : result (option RawBox) :=
  category_name ← Json.get "category_name" JNull ann;
  category_name ←
    (if negb (Json.truthy category_name) then
       category_id ← Json.get "category_id" (JInt 0) ann;
       Ok ("class_" +:+ text_of_json W category_id)
     else label_of_json category_name);
  bbox ← Json.get "bbox" (JArr []) ann;
  n ← Json.len bbox;
  if negb (n =? 4)%nat then Ok None
  else
    items ← JsonSeq.iter bbox;
    match items with
    | [x; y; w; h] =>
        x ← Json.to_int (int_of_text W) x;
        y ← Json.to_int (int_of_text W) y;
        w ← Json.to_int (int_of_text W) w;
        h ← Json.to_int (int_of_text W) h;
        Ok (Some (mkRawBox category_name (int_box x y w h)))
    | _ => Raise ValueError
    end.

(** One shape of a LabelMe file. *)
Definition labelme_box (W : World) (shape : json) : result (option RawBox) :=
  category_name ← Json.get "label" JNull shape;
  if negb (Json.truthy category_name) then Ok None
  else
    category_name ← label_of_json category_name;
    points ← Json.get "points" (JArr []) shape;
    n ← Json.len points;
    if negb (n =? 2)%nat then Ok None
    else
      p0 ← JsonSeq.index 0 points;
      '(x1, y1) ← int_pair W p0;
      p1 ← JsonSeq.index 1 points;
      '(x2, y2) ← int_pair W p1;
      let x_min := Z.min x1 x2 in
      let x_max := Z.max x1 x2 in
      let y_min := Z.min y1 y2 in
      let y_max := Z.max y1 y2 in
      Ok (Some (mkRawBox category_name
                  (int_box x_min y_min (x_max - x_min) (y_max - y_min)))).

(** [coords[i]['x'], coords[i]['y']] as numbers. *)
Definition hk_point (coords : json) (i : nat) : result (num * num) :=
  p ← JsonSeq.index i coords;
  x ← Json.item "x" p;
  y ← Json.item "y" p;
  x ← Num.of_json x;
  y ← Num.of_json y;
  Ok (x, y).

(** One entry of the [list] of an hk file. *)
Definition hk_box (W : World) (ann : json) : result (option RawBox) :=
  category_name ← _get_deepest_category_name ann;
  if negb (Json.truthy category_name) then Ok None
  else
    category_name ← label_of_json category_name;
    tag_info ← Json.get "tagInfo" (JStr "") ann;
    if negb (Json.truthy tag_info) then Ok None
    else
      tag_text ← (match tag_info with JStr s => Ok s | _ => Raise TypeError end);
      tag_data ← loads_json W tag_text;
      match tag_data with
      | JArr (coord_info :: _) =>
          coords ← Json.get "coord" (JArr []) coord_info;
          n ← Json.len coords;
          if negb (n =? 2)%nat then Ok None
          else
            '(x1, y1) ← hk_point coords 0;
            '(x2, y2) ← hk_point coords 1;
            let x_min := Num.min x1 x2 in
            let x_max := Num.max x1 x2 in
            let y_min := Num.min y1 y2 in
            let y_max := Num.max y1 y2 in
            w ← Num.sub x_max x_min;
            h ← Num.sub y_max y_min;
            Ok (Some (mkRawBox category_name (mkBBox x_min y_min w h)))
      | _ => Ok None
      end.

(** ** FormatParsers: one annotation file into the store *)

(** The loop of [_process_yolo_file] over the lines already read. The state
    reached so far stays when an exception leaves the loop. *)
Fixpoint yolo_lines (W : World) (img : Z) (img_w img_h : Z)
    (class_mapping : option (gmap Z string)) (lines : list string)
    (st : AnnotationConverter) : AnnotationConverter * result unit :=
  match lines with
  | [] => (st, Ok ())
  | line :: rest =>
      match yolo_line W img_w img_h class_mapping line with
      | Ok None => yolo_lines W img img_w img_h class_mapping rest st
      | Ok (Some b) =>
          yolo_lines W img img_w img_h class_mapping rest (add_annotation img b st)
      | Raise e => (st, Raise e)
      end
  end.

Definition _process_yolo_file (W : World) (ann_dir ann_file : string) (img : Z)
    (img_w img_h : Z) (class_mapping : option (gmap Z string))
    (st : AnnotationConverter) : AnnotationConverter * result unit :=
  match read_lines W ann_dir ann_file with
  | Ok lines => yolo_lines W img img_w img_h class_mapping lines st
  | Raise e => (st, Raise e)
  end.

(** The loop of the other four parsers: an entry whose [try] block raises
    is reported and skipped. *)
Definition add_entries {A} (img : Z) (extract : A → result (option RawBox))
    (entries : list A) (st : AnnotationConverter) : AnnotationConverter :=
  fold_left (λ st entry,
             match extract entry with
             | Ok (Some b) => add_annotation img b st
             | _ => st
             end) entries st.

Definition _process_voc_file (W : World) (ann_dir ann_file : string) (img : Z)
    (st : AnnotationConverter) : AnnotationConverter :=
  match read_xml_objects W ann_dir ann_file with
  | Ok objects => add_entries img (λ obj, Some <$> voc_box W obj) objects st
  | Raise _ => st
  end.

(** [data.get(key, [])] of the decoded file, as the list the loop visits. *)
Definition json_entries (W : World) (ann_dir ann_file key : string)
  : result (list json) :=
  data ← read_json W ann_dir ann_file;
  entries ← Json.get key (JArr []) data;
  JsonSeq.iter entries.

Definition _process_coco_single_file (W : World) (ann_dir ann_file : string)
    (img : Z) (st : AnnotationConverter) : AnnotationConverter :=
  match json_entries W ann_dir ann_file "annotations" with
  | Ok entries => add_entries img (coco_box W) entries st
  | Raise _ => st
  end.

Definition _process_labelme_file (W : World) (ann_dir ann_file : string)
    (img : Z) (st : AnnotationConverter) : AnnotationConverter :=
  match json_entries W ann_dir ann_file "shapes" with
  | Ok entries => add_entries img (labelme_box W) entries st
  | Raise _ => st
  end.

Definition _process_hk_file (W : World) (ann_dir ann_file : string)
    (img : Z) (st : AnnotationConverter) : AnnotationConverter :=
  match json_entries W ann_dir ann_file "list" with
  | Ok entries => add_entries img (hk_box W) entries st
  | Raise _ => st
  end.

(** [_process_file_pair]: the image first, then its annotations. *)
Definition _process_file_pair (W : World) (annotation_path image_path : string)
    (ann_file img_file : string) (format_type : FormatType)
    (class_mapping : option (gmap Z string)) (st : AnnotationConverter)
  : AnnotationConverter * result unit :=
  match image_size W image_path img_file with
  | Raise e => (st, Raise e)
  | Ok (img_w, img_h) =>
      let current_img_id := img_count st in
      let st := push_image img_file (img_w, img_h) st in
      match format_type with
      | yolo =>
          _process_yolo_file W annotation_path ann_file current_img_id
            img_w img_h class_mapping st
      | voc => (_process_voc_file W annotation_path ann_file current_img_id st, Ok ())
      | coco_single =>
          (_process_coco_single_file W annotation_path ann_file current_img_id st, Ok ())
      | labelme =>
          (_process_labelme_file W annotation_path ann_file current_img_id st, Ok ())
      | hk => (_process_hk_file W annotation_path ann_file current_img_id st, Ok ())
      end
  end.

(** ** QualityFilter *)

Record SmallBox : Set := mkSmallBox
  { sb_id : Z; sb_image_id : Z; sb_category_id : Z; sb_area : num; sb_bbox : BBox }.

(** [bbox[2] * bbox[3]] *)
Definition bbox_area (ann : UnifiedAnnotation) : result num :=
  Num.mul (box_w (ann_bbox ann)) (box_h (ann_bbox ann)).

(** The first loop of [_check_and_filter_small_boxes]. *)
Fixpoint collect_small_boxes (area_threshold : Z) (anns : list UnifiedAnnotation)
  : result (list SmallBox) :=
  match anns with
  | [] => Ok []
  | ann :: rest =>
      area ← bbox_area ann;
      small_boxes ← collect_small_boxes area_threshold rest;
      Ok (if Num.ltb area (NInt area_threshold)
          then mkSmallBox (ann_id ann) (ann_image_id ann) (ann_category_id ann)
                 area (ann_bbox ann) :: small_boxes
          else small_boxes)
  end.

(** [image_ann_count[ann['image_id']] += 1] on a [defaultdict(int)] *)
Definition count_annotation (image_ann_count : gmap Z Z) (ann : UnifiedAnnotation)
  : gmap Z Z :=
  <[ann_image_id ann := default 0 (image_ann_count !! ann_image_id ann) + 1]>
    image_ann_count.

Definition set_img_id (new_id : Z) (img : UnifiedImage) : UnifiedImage :=
  mkImage (img_file_name img) new_id (img_width img) (img_height img).

Definition set_ann_ids (new_id new_image_id : Z) (ann : UnifiedAnnotation)
  : UnifiedAnnotation :=
  mkAnnotation new_id new_image_id (ann_category_id ann) (ann_bbox ann) (ann_area ann).

(** The state of the loop over [self.images]:
    [valid_images], [removed_images], [image_id_map]. *)
Definition image_loop_step (image_ann_count : gmap Z Z)
    (acc : list UnifiedImage * list string * gmap Z Z) (img : UnifiedImage)
  : list UnifiedImage * list string * gmap Z Z :=
  let '(valid_images, removed_images, image_id_map) := acc in
  match image_ann_count !! img_id img with
  | Some _ =>
      let new_id := Z.of_nat (length valid_images) + 1 in
      (valid_images ++ [set_img_id new_id img], removed_images,
       <[img_id img := new_id]> image_id_map)
  | None => (valid_images, removed_images ++ [img_file_name img], image_id_map)
  end.

(** The loop over [valid_annotations] that builds [updated_annotations]. *)
Definition annotation_loop_step (image_id_map : gmap Z Z)
    (updated_annotations : list UnifiedAnnotation) (ann : UnifiedAnnotation)
  : list UnifiedAnnotation :=
  match image_id_map !! ann_image_id ann with
  | Some new_image_id =>
      updated_annotations
        ++ [set_ann_ids (Z.of_nat (length updated_annotations) + 1) new_image_id ann]
  | None => updated_annotations
  end.

Definition _remove_small_boxes (small_boxes : list SmallBox) (area_threshold : Z)
    (st : AnnotationConverter) : AnnotationConverter :=
  let remove_ann_ids : gset Z := list_to_set (map sb_id small_boxes) in
  let valid_annotations :=
    filter (λ ann, ann_id ann ∉ remove_ann_ids) (annotations st) in
  let image_ann_count := fold_left count_annotation valid_annotations ∅ in
  let '(valid_images, removed_images, image_id_map) :=
    fold_left (image_loop_step image_ann_count) (images st) ([], [], ∅) in
  let updated_annotations :=
    fold_left (annotation_loop_step image_id_map) valid_annotations [] in
  mkConverter (categories st) valid_images updated_annotations
    (cat2id st) (img2id st) (img_count st) (cat_count st) (ann_count st).

(** [_check_and_filter_small_boxes]; the printed statistics are left out. *)
Definition _check_and_filter_small_boxes (area_threshold : Z)
    (st : AnnotationConverter) : result AnnotationConverter :=
  match annotations st with
  | [] => Ok st
  | _ =>
      small_boxes ← collect_small_boxes area_threshold (annotations st);
      match small_boxes with
      | [] => Ok st
      | _ => Ok (_remove_small_boxes small_boxes area_threshold st)
      end
  end.

(** ** FileMatcher *)

Definition image_extensions : list string := [".jpg"; ".jpeg"; ".png"; ".bmp"].

Record MatchResult : Set := mkMatch
  { matched_pairs : list (string * string);
    unmatched_annotations : list string;
    unmatched_images : list string }.

(** [l.remove(x)]: the first occurrence goes, [ValueError] when there is none. *)
Fixpoint list_remove (x : string) (l : list string) : result (list string) :=
  match l with
  | [] => Raise ValueError
  | y :: l' =>
      if String.eqb y x then Ok l'
      else l'' ← list_remove x l'; Ok (y :: l'')
  end.

(** Truth value of a name that may be [None]. *)
Definition truthy_name (name : option string) : bool :=
  match name with
  | Some s => negb (String.eqb s "")
  | None => false
  end.

(** [for ext in [...]: if base_name + ext in image_files: ...; break] *)
Definition find_by_base_name (base_name : string) (image_files : list string)
  : option string :=
  find (λ img_name, PyStr.mem img_name image_files)
       (map (λ ext, base_name +:+ ext) image_extensions).

(** [for img_file in image_files:
       if os.path.splitext(img_file)[0].lower() == base_name.lower(): ...; break] *)
Definition find_ignoring_case (base_name : string) (image_files : list string)
  : option string :=
  find (λ img_file, String.eqb (PyStr.lower (PyStr.splitext_base img_file))
                               (PyStr.lower base_name))
       image_files.

(** The image a single-image COCO file names. A [file_name] that is not a
    string is equal to no name of [image_files]. *)
Definition coco_image_name (W : World) (annotation_path ann_file : string)
    (image_files : list string) : result (option string) :=
  data ← read_json W annotation_path ann_file;
  has_image ← Json.contains_str "image" data;
  named ← (if has_image : bool
           then image ← Json.item "image" data; Json.contains_str "file_name" image
           else Ok false);
  if named : bool then
    image ← Json.item "image" data;
    file_name ← Json.item "file_name" image;
    Ok (match file_name with JStr s => Some s | _ => None end)
  else Ok (find_by_base_name (PyStr.splitext_base ann_file) image_files).

(** The image a LabelMe ([key = "imagePath"]) or hk ([key = "imgName"]) file
    names, with the fall back on the name of the annotation file. *)
Definition named_image (key : string) (W : World) (annotation_path ann_file : string)
    (image_files : list string) : result (option string) :=
  data ← read_json W annotation_path ann_file;
  image_path ← Json.get key (JStr "") data;
  img_name ←
    (if Json.truthy image_path then
       match image_path with
       | JStr p =>
           let img_filename := PyStr.basename p in
           if PyStr.mem img_filename image_files then Ok (Some img_filename)
           else Ok (find_ignoring_case (PyStr.splitext_base img_filename) image_files)
       | _ => Raise TypeError
       end
     else Ok None);
  if negb (truthy_name img_name)
  then Ok (find_ignoring_case (PyStr.splitext_base ann_file) image_files)
  else Ok img_name.

(** The branch of the loop for [yolo] and [voc]: nothing is caught. *)
Definition match_by_base_name (image_files : list string) (ann_file : string)
    (acc : MatchResult) : result MatchResult :=
  let matched_img := find_by_base_name (PyStr.splitext_base ann_file) image_files in
  match matched_img with
  | Some img =>
      if truthy_name matched_img then
        rest ← list_remove img (unmatched_images acc);
        Ok (mkMatch (matched_pairs acc ++ [(ann_file, img)])
              (unmatched_annotations acc) rest)
      else Ok (mkMatch (matched_pairs acc) (unmatched_annotations acc ++ [ann_file])
                 (unmatched_images acc))
  | None => Ok (mkMatch (matched_pairs acc) (unmatched_annotations acc ++ [ann_file])
                  (unmatched_images acc))
  end.

(** The branch of the loop for the three JSON formats: [img_name] is what
    the lookup inside the [try] gave; the pair is appended before
    [unmatched_images.remove], and the handler of the [try] appends the
    annotation file to [unmatched_annotations] whatever was raised. *)
Definition match_by_content (image_files : list string) (ann_file : string)
    (img_name : result (option string)) (acc : MatchResult) : MatchResult :=
  let unmatched :=
    mkMatch (matched_pairs acc) (unmatched_annotations acc ++ [ann_file])
      (unmatched_images acc) in
  match img_name with
  | Ok (Some img) =>
      if truthy_name (Some img) && PyStr.mem img image_files then
        let pairs := matched_pairs acc ++ [(ann_file, img)] in
        match list_remove img (unmatched_images acc) with
        | Ok rest => mkMatch pairs (unmatched_annotations acc) rest
        | Raise _ =>
            mkMatch pairs (unmatched_annotations acc ++ [ann_file])
              (unmatched_images acc)
        end
      else unmatched
  | Ok None => unmatched
  | Raise _ => unmatched
  end.

Definition is_image_file (f : string) : bool :=
  PyStr.endswith_any (PyStr.lower f) image_extensions.

Definition annotation_files (W : World) (annotation_path : string)
    (format_type : FormatType) : list string :=
  match format_type with
  | yolo =>
      filter (λ f, PyStr.endswith f ".txt" && negb (String.eqb f "classes.txt"))
             (listdir W annotation_path)
  | voc => filter (λ f, PyStr.endswith f ".xml") (listdir W annotation_path)
  | coco_single | labelme | hk =>
      filter (λ f, PyStr.endswith f ".json") (listdir W annotation_path)
  end.

Definition match_step (W : World) (annotation_path : string)
    (format_type : FormatType) (image_files : list string)
    (acc : result MatchResult) (ann_file : string) : result MatchResult :=
  acc ← acc;
  match format_type with
  | yolo | voc => match_by_base_name image_files ann_file acc
  | coco_single =>
      Ok (match_by_content image_files ann_file
            (coco_image_name W annotation_path ann_file image_files) acc)
  | labelme =>
      Ok (match_by_content image_files ann_file
            (named_image "imagePath" W annotation_path ann_file image_files) acc)
  | hk =>
      Ok (match_by_content image_files ann_file
            (named_image "imgName" W annotation_path ann_file image_files) acc)
  end.

Definition match_files (W : World) (annotation_path image_path : string)
    (format_type : FormatType) : result MatchResult :=
  let image_files := filter (λ f, is_image_file f) (listdir W image_path) in
  fold_left (match_step W annotation_path format_type image_files)
            (annotation_files W annotation_path format_type)
            (Ok (mkMatch [] [] image_files)).

(** ** The conversion pathway *)

Definition pair_step (W : World) (annotation_path image_path : string)
    (format_type : FormatType) (class_mapping : option (gmap Z string))
    (st : AnnotationConverter) (pair : string * string) : AnnotationConverter :=
  fst (_process_file_pair W annotation_path image_path (fst pair) (snd pair)
         format_type class_mapping st).

(** The body of the loop that adds the images without annotation. *)
Definition add_unmatched_image (W : World) (image_path : string)
    (st : AnnotationConverter) (img_file : string) : AnnotationConverter :=
  match image_size W image_path img_file with
  | Ok size => push_image img_file size st
  | Raise _ => st
  end.

(** The states a left fold goes through, the initial one excluded. *)
Fixpoint scan_left {A B} (f : A → B → A) (l : list B) (a : A) : list A :=
  match l with
  | [] => []
  | b :: l' => f a b :: scan_left f l' (f a b)
  end.

(** The store [convert_to_coco] hands to [_save_coco]. *)
Definition build_store (W : World) (annotation_path image_path : string)
    (format_type : FormatType) (class_mapping : option (gmap Z string))
    (include_unmatched_images : bool) (m : MatchResult) : AnnotationConverter :=
  let st := fold_left (pair_step W annotation_path image_path format_type class_mapping)
                      (matched_pairs m) reset in
  if include_unmatched_images
  then fold_left (add_unmatched_image W image_path) (unmatched_images m) st
  else st.

(** [convert_to_coco]: the returned flag and the store that is written.
    Creating the output directory and writing the file are left out. *)
Definition convert_to_coco (W : World) (annotation_path image_path : string)
    (format_type : FormatType) (class_mapping : option (gmap Z string))
    (include_unmatched_images : bool) (area_threshold : Z)
  : result (bool * AnnotationConverter) :=
  m ← match_files W annotation_path image_path format_type;
  match matched_pairs m with
  | [] => Ok (false, reset)
  | _ =>
      st ← _check_and_filter_small_boxes area_threshold
             (build_store W annotation_path image_path format_type class_mapping
                include_unmatched_images m);
      Ok (true, st)
  end.

(** Every state of the store during [convert_to_coco] before [_save_coco]:
    after [reset], after each file pair, after each image without
    annotation. *)
Definition build_stages (W : World) (annotation_path image_path : string)
    (format_type : FormatType) (class_mapping : option (gmap Z string))
    (include_unmatched_images : bool) (m : MatchResult)
  : list AnnotationConverter :=
  let step := pair_step W annotation_path image_path format_type class_mapping in
  let st := fold_left step (matched_pairs m) reset in
  reset :: scan_left step (matched_pairs m) reset
    ++ (if include_unmatched_images
        then scan_left (add_unmatched_image W image_path) (unmatched_images m) st
        else []).

(** ** ImageCropper: expansion of a box and clamping to the image *)

(** [int(v * expansion_ratio)] *)
Definition scale_length (v : num) (expansion_ratio : float) : result Z :=
  f ← Num.to_float v;
  PyFloat.to_int (PrimFloat.mul f expansion_ratio).

(** [_apply_expansion_and_bounds]; the arguments that only serve the
    printed warning are left out. The coordinates of a box are integers,
    or floats for an hk box: the arithmetic is that of [num]. *)
Definition _apply_expansion_and_bounds (bbox : BBox) (img_w img_h : Z)
    (expansion_ratio : float) : result BBox :=
  let '(mkBBox x y w h) := bbox in
  if PrimFloat.eqb expansion_ratio PrimFloat.one then Ok (mkBBox x y w h)
  else
    new_w ← scale_length w expansion_ratio;
    new_h ← scale_length h expansion_ratio;
    center_x ← Num.add x (Num.floordiv2 w);
    center_y ← Num.add y (Num.floordiv2 h);
    new_x ← Num.sub center_x (NInt (new_w / 2));
    new_y ← Num.sub center_y (NInt (new_h / 2));
    let new_x := if Num.ltb new_x (NInt 0) then NInt 0 else new_x in
    let new_y := if Num.ltb new_y (NInt 0) then NInt 0 else new_y in
    right ← Num.add new_x (NInt new_w);
    new_w ← (if Num.ltb (NInt img_w) right
             then Num.sub (NInt img_w) new_x else Ok (NInt new_w));
    bottom ← Num.add new_y (NInt new_h);
    new_h ← (if Num.ltb (NInt img_h) bottom
             then Num.sub (NInt img_h) new_y else Ok (NInt new_h));
    Ok (mkBBox new_x new_y new_w new_h).

(** ** PolygonRasterizer: one line of a polygon file *)

(** [list(map(float, parts[1:]))] *)
Fixpoint py_floats (W : World) (texts : list string) : result (list float) :=
  match texts with
  | [] => Ok []
  | t :: rest => f ← py_float W t; fs ← py_floats W rest; Ok (f :: fs)
  end.

(** [min(max(v, 0), dim - 1)] *)
Definition clamp (v dim : Z) : Z := Z.min (Z.max v 0) (dim - 1).

(** [int(round(c * dim))] *)
Definition denormalize (c : float) (dim : Z) : result Z :=
  f ← PyFloat.mul_int c dim;
  PyFloat.round f.

(** The loop [for i in range(0, len(coords), 2)] of [_parse_polygon_line]. *)
Fixpoint polygon_points (coords : list float) (width height : Z)
  : result (list (Z * Z)) :=
  match coords with
  | [] => Ok []
  | [_] => Raise IndexError
  | cx :: cy :: rest =>
      x ← denormalize cx width;
      y ← denormalize cy height;
      pts ← polygon_points rest width height;
      Ok ((clamp x width, clamp y height) :: pts)
  end.

(** [_parse_polygon_line]: [Ok None] is the pair [(None, None)]; an
    exception is one raised outside the [try]. [line.strip().split()] has
    the tokens of [line.split()]. *)
Definition _parse_polygon_line (W : World) (line : string) (width height : Z)
  : result (option (Z * list (Z * Z))) :=
  let parts := PyStr.split line in
  if (length parts <? 7)%nat || Nat.even (length parts) then Ok None
  else
    match parts with
    | [] => Ok None
    | p0 :: rest =>
        match (cls ← py_int W p0; coords ← py_floats W rest; Ok (cls, coords)) with
        | Raise _ => Ok None
        | Ok (cls, coords) =>
            pts ← polygon_points coords width height;
            if (length pts <? 3)%nat then Ok None else Ok (Some (cls, pts))
        end
    end.

(** What the loop of [_txt_to_mask] does with one line: [continue], or
    [draw.polygon(pts, fill=gray)]. *)
Inductive line_verdict : Set :=
  | Rejected
  | Filled (gray : Z) (pts : list (Z * Z)).

Definition mask_line (W : World) (line : string) (width height max_cls : Z)
  : result line_verdict :=
  parsed ← _parse_polygon_line W line width height;
  match parsed with
  | None => Ok Rejected
  | Some (cls, pts) =>
      if (cls <? 0) || (max_cls <? cls) then Ok Rejected
      else Ok (Filled (cls + 1) pts)
  end.

(** The polygons [_txt_to_mask] paints, in order; [None] when an exception
    reaches its handler and the function returns [False] without a mask. *)
Fixpoint mask_polygons (W : World) (lines : list string) (width height max_cls : Z)
  : option (list (Z * list (Z * Z))) :=
  match lines with
  | [] => Some []
  | line :: rest =>
      match mask_line W line width height max_cls with
      | Raise _ => None
      | Ok v =>
          match mask_polygons W rest width height max_cls with
          | None => None
          | Some polys =>
              Some (match v with
                    | Rejected => polys
                    | Filled gray pts => (gray, pts) :: polys
                    end)
          end
      end
  end.

Definition _txt_to_mask (W : World) (dir name : string) (width height max_cls : Z)
  : option (list (Z * list (Z * Z))) :=
  match read_lines W dir name with
  | Ok lines => mask_polygons W lines width height max_cls
  | Raise _ => None
  end.

(** ** A world for the worked examples

    [int] and [float] on plain decimal literals (an optional sign, digits,
    and for [float] an optional fraction), on which they agree with the
    builtins; the examples use no other text. A literal of at most fifteen
    digits is the quotient of two integers that are doubles, so the
    division rounds it correctly. *)

Module Decimal.

Definition digit (c : ascii) : option Z :=
  let n := nat_of_ascii c in
  if (48 <=? n)%nat && (n <=? 57)%nat then Some (Z.of_nat n - 48) else None.

(** The value of a run of digits after the digits read so far. *)
Fixpoint digits (acc : Z) (s : string) : option Z :=
  match s with
  | EmptyString => Some acc
  | String c s' =>
      match digit c with
      | Some d => digits (10 * acc + d) s'
      | None => None
      end
  end.

Definition unsigned (s : string) : option Z :=
  match s with
  | EmptyString => None
  | _ => digits 0 s
  end.

Definition int_of_text (s : string) : option Z :=
  match s with
  | String "-" s' => Z.opp <$> unsigned s'
  | String "+" s' => unsigned s'
  | _ => unsigned s
  end.

Definition unsigned_float (s : string) : option float :=
  let '(whole, fraction) :=
    match PyStr.rfind "." s with
    | Some i => (PyStr.take i s, PyStr.drop (S i) s)
    | None => (s, "")
    end in
  match unsigned whole, digits 0 fraction with
  | Some a, Some b =>
      let k := Z.of_nat (String.length fraction) in
      let m := a * 10 ^ k + b in
      if (m <? 2 ^ 53) && (k <=? 15) then
        match PyFloat.of_int m, PyFloat.of_int (10 ^ k) with
        | Ok fm, Ok fk => Some (PrimFloat.div fm fk)
        | _, _ => None
        end
      else None
  | _, _ => None
  end.

Definition float_of_text (s : string) : option float :=
  match s with
  | String "-" s' => PrimFloat.opp <$> unsigned_float s'
  | String "+" s' => unsigned_float s'
  | _ => unsigned_float s
  end.

(** [str] of a decoded value, for the values the examples format. *)
Definition text_of_json (v : json) : string :=
  match v with
  | JInt z => pretty z
  | JStr s => s
  | JBool true => "True"
  | JBool false => "False"
  | _ => "None"
  end.

End Decimal.

(** A world with the given directory listings, image sizes, text files and
    JSON files; nothing else can be read. *)
Definition example_world
    (dirs : list (string * list string))
    (sizes : list (string * (Z * Z)))
    (texts : list (string * list string))
    (jsons : list (string * json)) : World :=
  let assoc {A} (k : string) (l : list (string * A)) : option A :=
    snd <$> find (λ p, String.eqb (fst p) k) l in
  mkWorld
    (λ dir, default [] (assoc dir dirs))
    (λ _ name, match assoc name sizes with Some s => Ok s | None => Raise OSError end)
    (λ _ name, match assoc name texts with Some s => Ok s | None => Raise OSError end)
    (λ _ _, Raise OSError)
    (λ _ name, match assoc name jsons with Some s => Ok s | None => Raise OSError end)
    (λ _, Raise ValueError)
    Decimal.int_of_text
    Decimal.float_of_text
    Decimal.text_of_json.

(** ** The properties, in the terms of the specification *)

(** The identifiers [first], [first + 1], ... of [n] items. *)
Fixpoint ids_from (first : Z) (n : nat) : list Z :=
  match n with
  | O => []
  | S n' => first :: ids_from (first + 1) n'
  end.

(** An annotation is small when its area is strictly below the threshold. *)
Definition is_small (area_threshold : Z) (ann : UnifiedAnnotation) : bool :=
  match bbox_area ann with
  | Ok area => Num.ltb area (NInt area_threshold)
  | Raise _ => false
  end.

(** Step 2: the annotations left once the small ones are removed (the
    removal goes by identifier). *)
Definition kept_annotations (area_threshold : Z) (st : AnnotationConverter)
  : list UnifiedAnnotation :=
  filter (λ ann, ann_id ann
                 ∉ map ann_id (filter (λ a, is_small area_threshold a) (annotations st)))
         (annotations st).

(** Step 3: the images that still have an annotation. *)
Definition surviving_images (area_threshold : Z) (st : AnnotationConverter)
  : list UnifiedImage :=
  filter (λ img, img_id img ∈ map ann_image_id (kept_annotations area_threshold st))
         (images st).

(** The annotations that remain: kept, and attached to an image of the store. *)
Definition surviving_annotations (area_threshold : Z) (st : AnnotationConverter)
  : list UnifiedAnnotation :=
  filter (λ ann, ann_image_id ann ∈ map img_id (images st))
         (kept_annotations area_threshold st).

(** Step 4: the old-to-new identifier map. The image at position [i]
    (from 0) of the surviving images gets [i + 1]; should two surviving
    images share an old identifier, the later one is the one the map knows. *)
Fixpoint new_image_id_from (first : Z) (imgs : list UnifiedImage) (old : Z)
  : option Z :=
  match imgs with
  | [] => None
  | img :: rest =>
      match new_image_id_from (first + 1) rest old with
      | Some new => Some new
      | None => if img_id img =? old then Some first else None
      end
  end.

Definition new_image_id (imgs : list UnifiedImage) (old : Z) : option Z :=
  new_image_id_from 1 imgs old.

(** Invariant I1: every annotation is attached to an image of the store. *)
Definition referential_integrity (st : AnnotationConverter) : Prop :=
  ∀ ann, ann ∈ annotations st → ann_image_id ann ∈ map img_id (images st).

(** Invariant I2 on the categories and [cat2id]. *)
Record category_invariant (st : AnnotationConverter) : Prop :=
  { cat_names_distinct : NoDup (map cat_name (categories st));
    cat_ids_dense : map cat_id (categories st) = ids_from 0 (length (categories st));
    cat2id_agrees : ∀ name id,
        cat2id st !! name = Some id ↔ mkCategory id name ∈ categories st;
    cat_count_is_length : cat_count st = Z.of_nat (length (categories st)) }.

(** The deepest tag in the words of the specification: of the children, in
    order, the first whose own deepest tag is not empty gives the tag; a
    node without children, or none of whose children gives a tag, gives its
    own [tagName]. The same traversal of the entries as in
    [find_deepest_tag] finds the children. *)
Fixpoint deepest_tag_spec (item : json) : json :=
  match item with
  | JObj kv =>
      let own := default (JStr "") (Json.lookup "tagName" kv) in
      (fix scan (entries : list (string * json)) : json :=
         match entries with
         | [] => own
         | (k, children) :: entries' =>
             if String.eqb k "children" then
               match children with
               | JArr l =>
                   default own
                     (find Json.truthy (map deepest_tag_spec l))
               | _ => own
               end
             else scan entries'
         end) kv
  | _ => JStr ""
  end.

(** A node of an hk annotation tree [{tagName, children}]: an object whose
    [children], when present, is an array of nodes, or an empty value such
    as [null]. *)
Fixpoint hk_node (item : json) : bool :=
  match item with
  | JObj kv =>
      (fix scan (entries : list (string * json)) : bool :=
         match entries with
         | [] => true
         | (k, children) :: entries' =>
             if String.eqb k "children" then
               match children with
               | JArr l => forallb hk_node l
               | _ => negb (Json.truthy children)
               end
             else scan entries'
         end) kv
  | _ => false
  end.

(** The number of coordinate pairs on a polygon line with the given tokens. *)
Definition point_count (parts : list string) : nat := (length parts - 1) / 2.

(** Steps 4 and 5 as list functions: the images numbered from [first], and
    the annotations whose image is in the map numbered from [first] with
    their [image_id] rewritten. *)
Fixpoint number_images (first : Z) (imgs : list UnifiedImage) : list UnifiedImage :=
  match imgs with
  | [] => []
  | img :: rest => set_img_id first img :: number_images (first + 1) rest
  end.

Fixpoint number_annotations (first : Z) (image_id_map : gmap Z Z)
    (anns : list UnifiedAnnotation) : list UnifiedAnnotation :=
  match anns with
  | [] => []
  | ann :: rest =>
      match image_id_map !! ann_image_id ann with
      | Some new => set_ann_ids first new ann
                    :: number_annotations (first + 1) image_id_map rest
      | None => number_annotations first image_id_map rest
      end
  end.

(** The identifiers the store mints before filtering: images and
    annotations are numbered 0, 1, ... in the order of their lists, and the
    counters are the lengths of the lists. *)
Record dense_identifiers (st : AnnotationConverter) : Prop :=
  { img_ids_dense : map img_id (images st) = ids_from 0 (length (images st));
    img_count_is_length : img_count st = Z.of_nat (length (images st));
    ann_ids_dense : map ann_id (annotations st) = ids_from 0 (length (annotations st));
    ann_count_is_length : ann_count st = Z.of_nat (length (annotations st)) }.

(** What a parser may do to the store while it reads the annotations of the
    image [img]: append annotations of that image, append categories. *)
Record grows_for (img : Z) (st st' : AnnotationConverter) : Prop :=
  { grows_images : images st' = images st;
    grows_annotations :
      ∃ new, annotations st' = annotations st ++ new
             ∧ ∀ ann, ann ∈ new → ann_image_id ann = img;
    grows_categories : categories st `prefix_of` categories st';
    grows_invariant : category_invariant st → category_invariant st';
    grows_dense : dense_identifiers st → dense_identifiers st' }.

(** [cat2id] as a bijection between the names and the identifiers
    [0 .. N-1] of the category list. *)
Record category_bijection (st : AnnotationConverter) : Prop :=
  { cat2id_range : ∀ name id,
      cat2id st !! name = Some id → 0 ≤ id < Z.of_nat (length (categories st));
    cat2id_injective : ∀ name1 name2 id,
      cat2id st !! name1 = Some id → cat2id st !! name2 = Some id → name1 = name2;
    cat2id_surjective : ∀ id,
      0 ≤ id < Z.of_nat (length (categories st)) →
      ∃ name, cat2id st !! name = Some id;
    cat2id_names : ∀ name,
      is_Some (cat2id st !! name) ↔ name ∈ map cat_name (categories st) }.

(** What the loop of [match_files] keeps true whatever the format, the
    names of the image directory being distinct: the unmatched images are
    the image files that are in no pair, in the order of the directory. *)
Definition matcher_invariant (image_files : list string) (acc : MatchResult) : Prop :=
  unmatched_images acc
  = filter (λ f, f ∉ map snd (matched_pairs acc)) image_files
  ∧ ∀ pair, pair ∈ matched_pairs acc → pair.2 ∈ image_files.

(** ** Stores for the worked examples *)

Definition example_annotation (id image : Z) (w h : Z) : UnifiedAnnotation :=
  mkAnnotation id image 0 (int_box 0 0 w h) (NInt (w * h)).

(** Two annotated images and one without annotation; the only annotation
    of the first image has area 16. *)
Definition example_store : AnnotationConverter :=
  mkConverter
    [mkCategory 0 "class_0"]
    [mkImage "a.jpg" 0 100 200; mkImage "b.jpg" 1 100 200; mkImage "c.jpg" 2 100 200]
    [example_annotation 0 0 4 4; example_annotation 1 1 10 10;
     example_annotation 2 1 20 20]
    {["class_0" := 0]} ∅ 3 1 3.

(** No small annotation: one annotated image and one without annotation. *)
Definition unfiltered_store : AnnotationConverter :=
  mkConverter
    [mkCategory 0 "class_0"]
    [mkImage "a.jpg" 0 100 200; mkImage "c.jpg" 1 100 200]
    [example_annotation 0 0 10 10]
    {["class_0" := 0]} ∅ 2 1 1.

(** A world with one YOLO file of two boxes, the second of area 4, and two
    images, one of them without annotation file. *)
Definition yolo_world : World :=
  example_world
    [("ann", ["a.txt"; "classes.txt"]); ("img", ["a.jpg"; "c.jpg"; "notes.md"])]
    [("a.jpg", (100, 200)); ("c.jpg", (50, 50))]
    [("a.txt", ["0 0.5 0.5 0.2 0.4"; "1 0.5 0.5 0.02 0.01"])]
    [].

(** The scenario of the specification: the line [0 0.5 0.5 0.2 0.4]. *)
Definition yolo_scenario_world : World :=
  example_world [] [] [("a.txt", ["0 0.5 0.5 0.2 0.4"])] [].

(** The store after the scenario's file is read for image 0, of 100 x 200. *)
Definition yolo_scenario_store : AnnotationConverter :=
  (_process_yolo_file yolo_scenario_world "ann" "a.txt" 0 100 200 None reset).1.

(** [z] is the integer part of [f]: toward zero, [|z| <= |f| < |z| + 1],
    in exact arithmetic on the mantissa and exponent of [f]. *)
Definition integer_part (f : float) (z : Z) : Prop :=
  match Prim2SF f with
  | S754_zero _ => z = 0
  | S754_finite s m e =>
      let a := if s then - z else z in
      if 0 <=? e then a = Z.pos m * 2 ^ e
      else a * 2 ^ (- e) ≤ Z.pos m < (a + 1) * 2 ^ (- e)
  | _ => False
  end.

(** [z] is an integer nearest to [f]: [|f - z| <= 1/2] in exact arithmetic. *)
Definition nearest_integer (f : float) (z : Z) : Prop :=
  match Prim2SF f with
  | S754_zero _ => z = 0
  | S754_finite s m e =>
      let a := if s then - z else z in
      if 0 <=? e then a = Z.pos m * 2 ^ e
      else Z.abs (2 * (Z.pos m - a * 2 ^ (- e))) ≤ 2 ^ (- e)
  | _ => False
  end.

(** The reasons for which a polygon line with the tokens [parts] is
    rejected. *)
Definition token_fails (W : World) (parts : list string) : Prop :=
  ∃ p0 rest, parts = p0 :: rest
             ∧ (int_of_text W p0 = None
                ∨ ∃ t, t ∈ rest ∧ float_of_text W t = None).

Definition class_out_of_range (W : World) (parts : list string) (max_cls : Z) : Prop :=
  ∃ p0 rest cls, parts = p0 :: rest ∧ int_of_text W p0 = Some cls
                 ∧ (cls < 0 ∨ max_cls < cls).

(** The tokens after the class id do not pair up. *)
Definition unpaired_coordinate (parts : list string) : Prop :=
  Nat.even (length parts) = true.

(** A world that reads [nan] as the builtin [float] does. *)
Definition nan_world : World :=
  mkWorld (listdir yolo_world) (image_size yolo_world) (read_lines yolo_world)
    (read_xml_objects yolo_world) (read_json yolo_world) (loads_json yolo_world)
    Decimal.int_of_text
    (λ s, if String.eqb s "nan" then Some PrimFloat.nan else Decimal.float_of_text s)
    Decimal.text_of_json.

(** An hk entry whose first child has an empty tag, and a tree three deep. *)
Definition hk_leaf (tag : string) : json := JObj [("tagName", JStr tag)].

Definition hk_branch (tag : string) (children : list json) : json :=
  JObj [("tagName", JStr tag); ("tagInfo", JStr ""); ("children", JArr children)].

Definition hk_example : json :=
  hk_branch "vehicle"
    [hk_branch "car" [hk_leaf "sedan"; hk_leaf "coupe"]; hk_leaf "truck"].

(** Two single-image files that name the same image, in each of the three
    JSON formats. *)
Definition shared_image_file : json :=
  JObj [("image", JObj [("file_name", JStr "x.jpg")]);
        ("imagePath", JStr "photos/x.jpg");
        ("imgName", JStr "x.jpg")].

Definition shared_image_world : World :=
  example_world
    [("ann", ["a.json"; "b.json"]); ("img", ["x.jpg"; "y.png"])]
    [("x.jpg", (10, 10)); ("y.png", (10, 10))]
    []
    [("a.json", shared_image_file); ("b.json", shared_image_file)].

(** * The rest of the program *)

(** ** FormatDetector *)

(** What [detect_format] reads beside the listing and the JSON files of the
    [World]: whether a path exists, the first line of a text file, and for
    an XML file that parses, which tag names have an element. *)
Record Probe : Type := mkProbe
  { (** [os.path.exists(path)] *)
    path_exists : string → bool;
    (** [open(os.path.join(dir, name)).readline()] *)
    first_line : string → string → result string;
    (** [bool(parse(os.path.join(dir, name)).getElementsByTagName(tag))] *)
    xml_tags : string → string → result (string → bool) }.

(** The dictionary [format_scores]. *)
Record FormatScores : Set := mkScores
  { score_yolo : nat; score_voc : nat; score_coco_single : nat;
    score_labelme : nat; score_hk : nat }.

(** [_is_float(value)] *)
Definition _is_float (W : World) (value : string) : bool :=
  match float_of_text W value with Some _ => true | None => false end.

(** The test on a sampled [.txt] file: a first line of five tokens that are
    all floats. An empty line has no token. *)
Definition yolo_sample (W : World) (P : Probe) (dir name : string) : bool :=
  match first_line P dir name with
  | Ok line =>
      let parts := PyStr.split line in
      (length parts =? 5)%nat && forallb (_is_float W) parts
  | Raise _ => false
  end.

(** The test on a sampled [.xml] file. *)
Definition voc_sample (P : Probe) (dir name : string) : bool :=
  match xml_tags P dir name with
  | Ok has => has "annotation" && has "object" && has "bndbox"
  | Raise _ => false
  end.

(** [isinstance(v, list)] *)
Definition is_list (v : json) : bool :=
  match v with JArr _ => true | _ => false end.

(** [k in data and isinstance(data[k], list)] *)
Definition has_list (k : string) (data : json) : result bool :=
  present ← Json.contains_str k data;
  if present : bool then v ← Json.item k data; Ok (is_list v) else Ok false.

(** [any('tagInfo' in item and 'tagName' in item for item in items)] *)
Fixpoint any_hk_item (items : list json) : result bool :=
  match items with
  | [] => Ok false
  | item :: rest =>
      a ← Json.contains_str "tagInfo" item;
      b ← (if a : bool then Json.contains_str "tagName" item else Ok false);
      if b : bool then Ok true else any_hk_item rest
  end.

(** The score a sampled [.json] file adds to, if any. *)
Inductive json_kind : Set := KindLabelme | KindHk | KindCoco | KindNone.

Definition json_kind_of (data : json) : result json_kind :=
  shapes ← Json.contains_str "shapes" data;
  image_path ← (if shapes : bool then Json.contains_str "imagePath" data else Ok false);
  shapes_list ← (if image_path : bool
                 then v ← Json.item "shapes" data; Ok (is_list v) else Ok false);
  if shapes_list : bool then Ok KindLabelme
  else
    img_name ← Json.contains_str "imgName" data;
    list_list ← (if img_name : bool then has_list "list" data else Ok false);
    if list_list : bool then
      l ← Json.item "list" data;
      marked ← (if Json.truthy l
                then items ← JsonSeq.iter l; any_hk_item items else Ok false);
      Ok (if marked : bool then KindHk else KindNone)
    else
      annotations_list ← has_list "annotations" data;
      Ok (if annotations_list : bool then KindCoco else KindNone).

Definition json_sample (W : World) (dir name : string) : json_kind :=
  match read_json W dir name ≫= json_kind_of with
  | Ok k => k
  | Raise _ => KindNone
  end.

Definition is_yolo_txt (f : string) : bool :=
  PyStr.endswith f ".txt" && negb (String.eqb f "classes.txt").

(** The body of the loop over [sample_files]. *)
Definition sample_step (W : World) (P : Probe) (dir : string)
    (s : FormatScores) (filename : string) : FormatScores :=
  if is_yolo_txt filename then
    if yolo_sample W P dir filename
    then mkScores (S (score_yolo s)) (score_voc s) (score_coco_single s)
                  (score_labelme s) (score_hk s)
    else s
  else if PyStr.endswith filename ".xml" then
    if voc_sample P dir filename
    then mkScores (score_yolo s) (S (score_voc s)) (score_coco_single s)
                  (score_labelme s) (score_hk s)
    else s
  else if PyStr.endswith filename ".json" then
    match json_sample W dir filename with
    | KindLabelme =>
        mkScores (score_yolo s) (score_voc s) (score_coco_single s)
                 (S (score_labelme s)) (score_hk s)
    | KindHk =>
        mkScores (score_yolo s) (score_voc s) (score_coco_single s)
                 (score_labelme s) (S (score_hk s))
    | KindCoco =>
        mkScores (score_yolo s) (score_voc s) (S (score_coco_single s))
                 (score_labelme s) (score_hk s)
    | KindNone => s
    end
  else s.

(** [[f for f in files[:5] if not f.startswith('.')]] *)
Definition sample_files (files : list string) : list string :=
  filter (λ f, negb (String.prefix "." f)) (take 5 files).

(** [detect_format(input_path)], [None] for an undetected format. A path
    that exists is taken to be a directory that can be listed. *)
Definition detect_format (W : World) (P : Probe) (input_path : string)
  : option FormatType :=
  if negb (path_exists P input_path) then None
  else
    let files := listdir W input_path in
    match files with
    | [] => None
    | _ =>
        let txt_count := length (filter (λ f, is_yolo_txt f) files) in
        let xml_count := length (filter (λ f, PyStr.endswith f ".xml") files) in
        let json_count := length (filter (λ f, PyStr.endswith f ".json") files) in
        let has_classes_txt := PyStr.mem "classes.txt" files in
        let format_scores :=
          fold_left (sample_step W P input_path) (sample_files files)
                    (mkScores 0 0 0 0 0) in
        if (0 <? score_labelme format_scores)%nat then Some labelme
        else if (0 <? score_hk format_scores)%nat then Some hk
        else if (0 <? score_yolo format_scores)%nat
                || (has_classes_txt && (0 <? txt_count)%nat) then Some yolo
        else if (0 <? score_voc format_scores)%nat && (0 <? xml_count)%nat
        then Some voc
        else if (0 <? score_coco_single format_scores)%nat && (0 <? json_count)%nat
        then Some coco_single
        else None
    end.

(** ** The class names of a YOLO data set *)

(** [s.strip()] *)
Fixpoint lstrip (s : string) : string :=
  match s with
  | EmptyString => EmptyString
  | String c s' => if PyStr.is_space c then lstrip s' else s
  end.

Definition strip (s : string) : string :=
  String.rev (lstrip (String.rev (lstrip s))).

(** [[line.strip() for line in f if line.strip()]] *)
Definition class_names (lines : list string) : list string :=
  map strip (filter (λ line, negb (String.eqb (strip line) "")) lines).

(** [{i: name for i, name in enumerate(classes)}] *)
Fixpoint enumerate_from (first : Z) (classes : list string) : gmap Z string :=
  match classes with
  | [] => ∅
  | name :: rest => <[first := name]> (enumerate_from (first + 1) rest)
  end.

(** [_load_classes_file]; [confirm] is what the user types at the prompt. *)
Definition _load_classes_file (W : World) (dir name : string) (confirm : string)
  : option (gmap Z string) :=
  match read_lines W dir name with
  | Ok lines =>
      if String.eqb (strip (PyStr.lower confirm)) "n" then None
      else Some (enumerate_from 0 (class_names lines))
  | Raise _ => None
  end.

(** ** ImageCropper: the parsers *)

(** The loop of the four parsers that catch every exception of an entry.
    For the labels of the embedding, which are strings, the [try] block of
    an entry has in the cropper the text it has in the converter, up to
    the box, and the entry is read by the same function. A label that is a
    list or an object, which the cropper keeps until the crop is saved and
    the converter cannot register, is outside the embedding. *)
Definition collect_boxes {A} (extract : A → result (option RawBox))
    (entries : list A) : list RawBox :=
  omap (λ entry, match extract entry with
                 | Ok (Some b) => Some b
                 | _ => None
                 end) entries.

(** The loop of [_parse_yolo_annotations] over the lines already read: an
    exception that [except ValueError] lets through leaves the function,
    and the list with it. A file that opens is taken to decode to its end:
    an error of decoding in the middle of a file is outside the
    embedding. *)
Fixpoint yolo_records (W : World) (img_w img_h : Z)
    (class_mapping : option (gmap Z string)) (lines : list string)
  : result (list RawBox) :=
  match lines with
  | [] => Ok []
  | line :: rest =>
      match yolo_line W img_w img_h class_mapping line with
      | Ok None => yolo_records W img_w img_h class_mapping rest
      | Ok (Some b) =>
          bs ← yolo_records W img_w img_h class_mapping rest; Ok (b :: bs)
      | Raise e => Raise e
      end
  end.

Definition _parse_yolo_annotations (W : World) (ann_dir ann_file : string)
    (img_w img_h : Z) (class_mapping : option (gmap Z string))
  : result (list RawBox) :=
  lines ← read_lines W ann_dir ann_file;
  yolo_records W img_w img_h class_mapping lines.

Definition _parse_voc_annotations (W : World) (ann_dir ann_file : string)
  : list RawBox :=
  match read_xml_objects W ann_dir ann_file with
  | Ok objects => collect_boxes (λ obj, Some <$> voc_box W obj) objects
  | Raise _ => []
  end.

Definition _parse_coco_single_annotations (W : World) (ann_dir ann_file : string)
  : list RawBox :=
  match json_entries W ann_dir ann_file "annotations" with
  | Ok entries => collect_boxes (coco_box W) entries
  | Raise _ => []
  end.

Definition _parse_labelme_annotations (W : World) (ann_dir ann_file : string)
  : list RawBox :=
  match json_entries W ann_dir ann_file "shapes" with
  | Ok entries => collect_boxes (labelme_box W) entries
  | Raise _ => []
  end.

(** [_get_deepest_category_name_for_cropper] has the text of
    [_get_deepest_category_name], so that an entry is read by [hk_box]. *)
Definition _parse_hk_annotations (W : World) (ann_dir ann_file : string)
  : list RawBox :=
  match json_entries W ann_dir ann_file "list" with
  | Ok entries => collect_boxes (hk_box W) entries
  | Raise _ => []
  end.

(** The chain [if format_type == 'yolo': ... elif ...] of
    [_process_image_crop]: the boxes of one annotation file. *)
Definition parse_annotations (W : World) (annotation_path ann_file : string)
    (format_type : FormatType) (img_w img_h : Z)
    (class_mapping : option (gmap Z string)) : result (list RawBox) :=
  match format_type with
  | yolo => _parse_yolo_annotations W annotation_path ann_file img_w img_h class_mapping
  | voc => Ok (_parse_voc_annotations W annotation_path ann_file)
  | coco_single => Ok (_parse_coco_single_annotations W annotation_path ann_file)
  | labelme => Ok (_parse_labelme_annotations W annotation_path ann_file)
  | hk => Ok (_parse_hk_annotations W annotation_path ann_file)
  end.

(** ** ImageCropper: the counters *)

Record ImageCropper : Type := mkCropper
  { crop_count : Z; category_counts : gmap string Z }.

Section cropping.

(** The files written so far, and the [try] block of the loop of
    [_process_image_crop] up to [cropped_img.save]: for the image, the
    index and the box of the crop and the ratio, the box is expanded, the
    image cropped, the directory of the category made and the JPEG file
    saved; the block succeeds or raises. *)
Context {Files : Type}.
Variable save_crop :
  Files → string → nat → RawBox → float → Files * result unit.

(** The body of the loop over [enumerate(annotations)]: the two counters
    move together, after the file is saved. [category_counts] is a
    [defaultdict(int)]. *)
Definition crop_step (img_file : string) (expansion_ratio : float)
    (acc : Files * ImageCropper) (entry : nat * RawBox) : Files * ImageCropper :=
  let '(files, c) := acc in
  let '(i, ann) := entry in
  match save_crop files img_file i ann expansion_ratio with
  | (files', Ok _) =>
      (files',
       mkCropper (crop_count c + 1)
         (<[raw_category ann
            := default 0 (category_counts c !! raw_category ann) + 1]>
            (category_counts c)))
  | (files', Raise _) => (files', c)
  end.

(** [enumerate(l)] *)
Definition enumerate {A} (l : list A) : list (nat * A) := imap (λ i x, (i, x)) l.

(** [_process_image_crop]; what was written and counted stays when an
    exception leaves it. *)
Definition _process_image_crop (W : World) (annotation_path image_path : string)
    (ann_file img_file : string) (format_type : FormatType)
    (class_mapping : option (gmap Z string)) (expansion_ratio : float)
    (acc : Files * ImageCropper) : Files * ImageCropper * result unit :=
  match image_size W image_path img_file with
  | Raise e => (acc, Raise e)
  | Ok (img_w, img_h) =>
      match parse_annotations W annotation_path ann_file format_type img_w img_h
              class_mapping with
      | Raise e => (acc, Raise e)
      | Ok annotations =>
          (fold_left (crop_step img_file expansion_ratio) (enumerate annotations) acc,
           Ok ())
      end
  end.

(** [crop_images]: the returned flag, the files and the counters at the
    end; an exception of a file pair is reported and the loop goes on.
    Creating the output directory and the printed statistics are left
    out. *)
Definition crop_images (W : World) (annotation_path image_path : string)
    (format_type : FormatType) (class_mapping : option (gmap Z string))
    (expansion_ratio : float) (files : Files)
  : result (bool * (Files * ImageCropper)) :=
  m ← match_files W annotation_path image_path format_type;
  match matched_pairs m with
  | [] => Ok (false, (files, mkCropper 0 ∅))
  | pairs =>
      Ok (true,
          fold_left (λ acc pair,
                     (_process_image_crop W annotation_path image_path
                        (fst pair) (snd pair) format_type class_mapping
                        expansion_ratio acc).1)
                    pairs (files, mkCropper 0 ∅))
  end.

End cropping.

(** ** The prompt for the expansion ratio *)

(** [get_crop_parameters]: [inputs] are the lines the user types, one for
    each call of [input]; the answer comes with the lines not read. [None]
    when the lines run out before an answer is accepted: the [EOFError] of
    [input] leaves the function. *)
Fixpoint get_crop_parameters (W : World) (inputs : list string)
  : option (float * list string) :=
  match inputs with
  | [] => None
  | line :: rest =>
      let expansion_input := strip line in
      if String.eqb expansion_input "" then Some (PrimFloat.one, rest)
      else
        match float_of_text W expansion_input with
        | None => get_crop_parameters W rest
        | Some expansion_ratio =>
            if PrimFloat.leb expansion_ratio PrimFloat.zero
            then get_crop_parameters W rest
            else Some (expansion_ratio, rest)
        end
  end.

(** ** Properties of the rest of the program *)

(** Every annotation carries the area of its own box. *)
Definition areas_recorded (st : AnnotationConverter) : Prop :=
  ∀ ann, ann ∈ annotations st → bbox_area ann = Ok (ann_area ann).

(** Every annotation names a category of the list. *)
Definition category_references (st : AnnotationConverter) : Prop :=
  ∀ ann, ann ∈ annotations st → ann_category_id ann ∈ map cat_id (categories st).

(** [Image.open] succeeds on the file. *)
Definition opens (W : World) (image_path img_file : string) : bool :=
  match image_size W image_path img_file with Ok _ => true | Raise _ => false end.

(** A world that reads [inf] as the builtin [float] does. *)
Definition inf_world : World :=
  mkWorld (listdir yolo_world) (image_size yolo_world) (read_lines yolo_world)
    (read_xml_objects yolo_world) (read_json yolo_world) (loads_json yolo_world)
    Decimal.int_of_text
    (λ s, if String.eqb s "inf" then Some PrimFloat.infinity
          else Decimal.float_of_text s)
    Decimal.text_of_json.

(** A world whose [classes.txt] has a blank line between two names. *)
Definition classes_world : World :=
  example_world [("ann", ["a.txt"; "classes.txt"])] []
    [("classes.txt", ["person"; "   "; "  car "])] [].

#[global] Instance json_kind_eq_dec : EqDecision json_kind.
Proof. solve_decision. Defined.

(** The entry of [format_scores] for a format. *)
Definition score_of (format_type : FormatType) (s : FormatScores) : nat :=
  match format_type with
  | yolo => score_yolo s
  | voc => score_voc s
  | coco_single => score_coco_single s
  | labelme => score_labelme s
  | hk => score_hk s
  end.

(** The file [f] of the directory has the extension and the content that
    speak for the format. *)
Definition sample_evidence (W : World) (P : Probe) (dir : string)
    (format_type : FormatType) (f : string) : bool :=
  match format_type with
  | yolo => is_yolo_txt f && yolo_sample W P dir f
  | voc => PyStr.endswith f ".xml" && voc_sample P dir f
  | coco_single =>
      PyStr.endswith f ".json" && bool_decide (json_sample W dir f = KindCoco)
  | labelme =>
      PyStr.endswith f ".json" && bool_decide (json_sample W dir f = KindLabelme)
  | hk => PyStr.endswith f ".json" && bool_decide (json_sample W dir f = KindHk)
  end.

(** Format detection as a decision list over the sampled files: the first
    format, in the order LabelMe, hk, YOLO, VOC, single-image COCO, for
    which a sampled file speaks; for YOLO a [classes.txt] next to any other
    [.txt] file of the directory is enough. *)
Definition detect_format_decision (W : World) (P : Probe) (input_path : string)
  : option FormatType :=
  if negb (path_exists P input_path) then None
  else
    let files := listdir W input_path in
    let seen format_type :=
      existsb (sample_evidence W P input_path format_type) (sample_files files) in
    if seen labelme then Some labelme
    else if seen hk then Some hk
    else if seen yolo || (PyStr.mem "classes.txt" files && existsb is_yolo_txt files)
    then Some yolo
    else if seen voc then Some voc
    else if seen coco_single then Some coco_single
    else None.

(** A probe for the directories of the examples: every path exists, every
    text file starts with a YOLO line, no file is an XML document. *)
Definition example_probe : Probe :=
  mkProbe (λ _, true) (λ _ _, Ok "0 0.5 0.5 0.2 0.4") (λ _ _, Raise OSError).

(** The sum of the counts of the categories. *)
Definition counted (c : ImageCropper) : Z :=
  map_fold (λ _ n total, n + total) 0 (category_counts c).

(** The two counters agree: the total is the sum over the categories, and
    a category that is counted has at least one crop. *)
Definition counters_agree (c : ImageCropper) : Prop :=
  crop_count c = counted c
  ∧ ∀ category n, category_counts c !! category = Some n → 1 ≤ n.

(** The number of boxes the cropper parses from the matched pairs. *)
Definition parsed_box_count (W : World) (annotation_path image_path : string)
    (format_type : FormatType) (class_mapping : option (gmap Z string))
    (pairs : list (string * string)) : Z :=
  foldr (λ pair total,
         match image_size W image_path (snd pair) with
         | Ok (img_w, img_h) =>
             match parse_annotations W annotation_path (fst pair) format_type
                     img_w img_h class_mapping with
             | Ok annotations => Z.of_nat (length annotations) + total
             | Raise _ => total
             end
         | Raise _ => total
         end) 0 pairs.

(** A darkroom that saves every crop but those of the category [class_1]. *)
Definition example_darkroom (files : list string) (img_file : string) (i : nat)
    (ann : RawBox) (expansion_ratio : float) : list string * result unit :=
  if String.eqb (raw_category ann) "class_1" then (files, Raise OSError)
  else (files ++ [raw_category ann +:+ "/" +:+ img_file], Ok ()).

(** A world with a LabelMe file that cannot be read next to one that can;
    both have the base name of an image. *)
Definition unreadable_world : World :=
  example_world
    [("ann", ["x.json"; "y.json"]); ("img", ["x.jpg"; "y.png"])]
    [("x.jpg", (10, 10)); ("y.png", (10, 10))]
    []
    [("x.json", shared_image_file)].

(** * Proofs *)

(** ** Results and folds *)

Lemma bind_Ok_inv {A B} (r : result A) (k : A → result B) (b : B) :
  r ≫= k = Ok b → ∃ a, r = Ok a ∧ k a = Ok b.
Proof. destruct r as [a|e]; simpl; [eauto | discriminate]. Qed.

Ltac inv_bind H :=
  let a := fresh "v" in
  let Ha := fresh "Hv" in
  apply bind_Ok_inv in H; destruct H as (a & Ha & H).

Lemma scan_left_last {A B} (f : A → B → A) (l : list B) (a : A) :
  last (a :: scan_left f l a) = Some (fold_left f l a).
Proof.
  revert a; induction l as [|b l IH]; intros a; [done|].
  simpl scan_left. rewrite last_cons_cons. rewrite IH. done.
Qed.

Lemma scan_left_invariant {A B} (P : A → Prop) (f : A → B → A) l a :
  P a → (∀ x b, P x → P (f x b)) → Forall P (scan_left f l a) ∧ P (fold_left f l a).
Proof.
  intros Ha Hstep. revert a Ha.
  induction l as [|b l IH]; intros a Ha; simpl; [by split|].
  destruct (IH (f a b)) as [H1 H2]; [by apply Hstep|].
  split; [constructor; [by apply Hstep | done] | done].
Qed.


Lemma ids_from_snoc first n :
  ids_from first (S n) = ids_from first n ++ [first + Z.of_nat n].
Proof.
  revert first; induction n as [|n IH]; intros first.
  - simpl. by rewrite Z.add_0_r.
  - change (ids_from first (S (S n))) with (first :: ids_from (first + 1) (S n)).
    rewrite IH. simpl. do 3 f_equal. lia.
Qed.

Lemma ids_from_lookup first n (i : nat) :
  (i < n)%nat → ids_from first n !! i = Some (first + Z.of_nat i).
Proof.
  revert first i; induction n as [|n IH]; intros first i Hi; [lia|].
  destruct i as [|i]; simpl.
  - f_equal; lia.
  - rewrite IH by lia. f_equal; lia.
Qed.

Lemma ids_from_elem first n z :
  z ∈ ids_from first n ↔ first ≤ z < first + Z.of_nat n.
Proof.
  revert first; induction n as [|n IH]; intros first; simpl.
  - rewrite elem_of_nil. lia.
  - rewrite elem_of_cons, IH. lia.
Qed.

Lemma ids_from_NoDup first n : NoDup (ids_from first n).
Proof.
  revert first; induction n as [|n IH]; intros first; simpl; constructor.
  - rewrite ids_from_elem. lia.
  - apply IH.
Qed.

(** ** QualityFilter *)

Lemma collect_small_boxes_ids t anns small :
  collect_small_boxes t anns = Ok small →
  map sb_id small = map ann_id (filter (λ a, is_small t a) anns)
  ∧ ∀ a, a ∈ anns → is_Some (match bbox_area a with Ok x => Some x | Raise _ => None end).
Proof.
  revert small; induction anns as [|a anns IH]; intros small H; simpl in H.
  - injection H as <-. split; [done|]. intros a Ha. by apply elem_of_nil in Ha.
  - inv_bind H. inv_bind H. injection H as <-.
    destruct (IH _ Hv0) as [IH1 IH2].
    split.
    + rewrite filter_cons.
      assert (Hs : is_small t a = Num.ltb v (NInt t))
        by (unfold is_small; by rewrite Hv).
      destruct (Num.ltb v (NInt t)); simpl.
      * rewrite decide_True by (by rewrite Hs). simpl. by rewrite IH1.
      * rewrite decide_False by (rewrite Hs; intros []). done.
    + intros b Hb. apply elem_of_cons in Hb as [->|Hb]; [rewrite Hv; eauto | by apply IH2].
Qed.

Lemma collect_small_boxes_total t anns :
  (∀ a, a ∈ anns → ∃ area, bbox_area a = Ok area) →
  ∃ small, collect_small_boxes t anns = Ok small.
Proof.
  induction anns as [|a anns IH]; intros H; simpl; [eauto|].
  destruct (H a) as [area Ha]; [by left|]. rewrite Ha. simpl.
  destruct IH as [small ->]; [intros b Hb; apply H; by right|].
  simpl. eauto.
Qed.

Lemma image_ann_count_dom anns (m : gmap Z Z) k :
  is_Some (fold_left count_annotation anns m !! k)
  ↔ is_Some (m !! k) ∨ k ∈ map ann_image_id anns.
Proof.
  revert m; induction anns as [|a anns IH]; intros m; simpl.
  - rewrite elem_of_nil. tauto.
  - rewrite IH, elem_of_cons. unfold count_annotation.
    destruct (decide (ann_image_id a = k)) as [->|Hne].
    + rewrite lookup_insert_eq. split; [eauto|]. intros _. left; eauto.
    + rewrite lookup_insert_ne by done. split; intros [?|?]; eauto.
      destruct H as [?|?]; [congruence|eauto].
Qed.


Lemma number_images_ids first imgs :
  map img_id (number_images first imgs) = ids_from first (length imgs).
Proof. revert first; induction imgs as [|x l IH]; intros first; simpl; [done|by rewrite IH]. Qed.

Lemma number_images_lookup first imgs (i : nat) img :
  imgs !! i = Some img →
  number_images first imgs !! i = Some (set_img_id (first + Z.of_nat i) img).
Proof.
  revert first i; induction imgs as [|x l IH]; intros first i H; [done|].
  destruct i as [|i]; simpl in *.
  - injection H as ->. by rewrite Z.add_0_r.
  - rewrite (IH _ _ H). do 2 f_equal. lia.
Qed.

(** The loop over the images: what it keeps, and the map it builds. *)
Lemma image_loop_spec (cnt : gmap Z Z) imgs vi ri (m : gmap Z Z) :
  let kept := filter (λ img, is_Some (cnt !! img_id img)) imgs in
  let out := fold_left (image_loop_step cnt) imgs (vi, ri, m) in
  out.1.1 = vi ++ number_images (Z.of_nat (length vi) + 1) kept
  ∧ ∀ old, out.2 !! old
           = match new_image_id_from (Z.of_nat (length vi) + 1) kept old with
             | Some new => Some new
             | None => m !! old
             end.
Proof.
  revert vi ri m; induction imgs as [|img imgs IH]; intros vi ri m; simpl.
  - split; [by rewrite app_nil_r | done].
  - rewrite filter_cons. destruct (cnt !! img_id img) as [c|] eqn:Hc.
    + rewrite decide_True by eauto.
      destruct (IH (vi ++ [set_img_id (Z.of_nat (length vi) + 1) img]) ri
                  (<[img_id img := Z.of_nat (length vi) + 1]> m)) as [IH1 IH2].
      rewrite length_app in IH1, IH2. simpl in IH1, IH2.
      replace (Z.of_nat (length vi + 1) + 1) with (Z.of_nat (length vi) + 1 + 1)
        in IH1, IH2 by lia.
      split.
      * rewrite IH1. simpl. by rewrite <- app_assoc.
      * intros old. rewrite IH2. simpl.
        destruct (new_image_id_from _ _ old); [done|].
        destruct (Z.eqb_spec (img_id img) old) as [->|Hne].
        -- by rewrite lookup_insert_eq.
        -- by rewrite lookup_insert_ne.
    + rewrite decide_False by (intros [? ?]; discriminate).
      apply IH.
Qed.

Lemma new_image_id_from_Some first imgs old new :
  new_image_id_from first imgs old = Some new →
  ∃ i img, imgs !! i = Some img ∧ img_id img = old ∧ new = first + Z.of_nat i.
Proof.
  revert first; induction imgs as [|x l IH]; intros first H; [done|].
  simpl in H. destruct (new_image_id_from (first + 1) l old) as [n|] eqn:Hn.
  - injection H as ->. destruct (IH _ Hn) as (i & img & ? & ? & ->).
    exists (S i), img. repeat split; [done..|lia].
  - destruct (Z.eqb_spec (img_id x) old); [|done]. injection H as <-.
    exists 0%nat, x. repeat split; [done|lia].
Qed.

Lemma new_image_id_from_is_Some first imgs old :
  is_Some (new_image_id_from first imgs old) ↔ old ∈ map img_id imgs.
Proof.
  revert first; induction imgs as [|x l IH]; intros first; simpl.
  - rewrite elem_of_nil. split; [intros [? ?]; done | done].
  - rewrite elem_of_cons, <- (IH (first + 1)).
    destruct (new_image_id_from (first + 1) l old); [split; eauto|].
    destruct (Z.eqb_spec (img_id x) old).
    + split; eauto.
    + split; [intros [? ?]; done | intros [?|[? ?]]; [congruence|done]].
Qed.

(** With distinct old identifiers the map sends each image to its position. *)
Lemma new_image_id_from_NoDup first imgs (i : nat) img :
  NoDup (map img_id imgs) → imgs !! i = Some img →
  new_image_id_from first imgs (img_id img) = Some (first + Z.of_nat i).
Proof.
  revert first i; induction imgs as [|x l IH]; intros first i Hnd Hi; [done|].
  simpl in Hnd. apply NoDup_cons in Hnd as [Hx Hnd].
  destruct i as [|i]; simpl in *.
  - injection Hi as ->.
    destruct (new_image_id_from (first + 1) l (img_id img)) eqn:Hn.
    + exfalso. apply Hx. apply (new_image_id_from_is_Some (first + 1)). eauto.
    + rewrite Z.eqb_refl. f_equal; lia.
  - rewrite (IH (first + 1) i Hnd Hi). f_equal; lia.
Qed.

Lemma map_is_fmap {A B} (f : A → B) (l : list A) : map f l = f <$> l.
Proof. done. Qed.

Lemma filter_ext_elem {A} (P Q : A → Prop)
    `{∀ x, Decision (P x)} `{∀ x, Decision (Q x)} (l : list A) :
  (∀ x, x ∈ l → (P x ↔ Q x)) → filter P l = filter Q l.
Proof.
  induction l as [|x l IH]; intros HPQ; [done|].
  rewrite !filter_cons.
  rewrite IH by (intros y Hy; apply HPQ; by right).
  pose proof (HPQ x (list_elem_of_here _ _)) as Hx.
  destruct (decide (P x)) as [HP|HP], (decide (Q x)) as [HQ|HQ]; tauto.
Qed.

Lemma filter_ext_elem_id {A} (P : A → Prop) `{∀ x, Decision (P x)} (l : list A) :
  (∀ x, x ∈ l → P x) → filter P l = l.
Proof.
  induction l as [|x l IH]; intros Hl; [done|].
  rewrite filter_cons_True by (apply Hl; by left).
  f_equal. apply IH. intros y Hy. apply Hl. by right.
Qed.

Lemma annotation_loop_spec (M : gmap Z Z) anns acc :
  fold_left (annotation_loop_step M) anns acc
  = acc ++ number_annotations (Z.of_nat (length acc) + 1) M anns.
Proof.
  revert acc; induction anns as [|a anns IH]; intros acc; simpl.
  - by rewrite app_nil_r.
  - unfold annotation_loop_step at 2.
    destruct (M !! ann_image_id a) as [new|]; [|apply IH].
    rewrite IH, length_app, <- app_assoc. simpl.
    do 3 f_equal. lia.
Qed.

Lemma number_annotations_ids first (M : gmap Z Z) anns :
  map ann_id (number_annotations first M anns)
  = ids_from first (length (filter (λ a, is_Some (M !! ann_image_id a)) anns)).
Proof.
  revert first; induction anns as [|a anns IH]; intros first; simpl; [done|].
  rewrite filter_cons. destruct (M !! ann_image_id a) as [new|] eqn:HM.
  - rewrite decide_True by eauto. simpl. by rewrite IH.
  - rewrite decide_False by (intros [? ?]; discriminate). apply IH.
Qed.

Lemma number_annotations_lookup first (M : gmap Z Z) anns (i : nat) a :
  filter (λ a, is_Some (M !! ann_image_id a)) anns !! i = Some a →
  ∃ new, M !! ann_image_id a = Some new
         ∧ number_annotations first M anns !! i
           = Some (set_ann_ids (first + Z.of_nat i) new a).
Proof.
  revert first i; induction anns as [|b anns IH]; intros first i; [done|].
  rewrite filter_cons. simpl. destruct (M !! ann_image_id b) as [new|] eqn:HM.
  - rewrite decide_True by eauto. destruct i as [|i]; simpl.
    + intros [= ->]. exists new. split; [done|]. by rewrite Z.add_0_r.
    + intros Hi. destruct (IH (first + 1) i Hi) as (n & Hn & Hl).
      exists n. split; [done|]. rewrite Hl. do 2 f_equal. lia.
  - rewrite decide_False by (intros [? ?]; discriminate). apply IH.
Qed.

(** The two lists [_remove_small_boxes] stores. *)
Lemma _remove_small_boxes_fields small t st :
  let valid :=
    filter (λ ann, ann_id ann ∉ (list_to_set (map sb_id small) : gset Z))
           (annotations st) in
  let out := fold_left (image_loop_step (fold_left count_annotation valid ∅))
                       (images st) ([], [], ∅) in
  images (_remove_small_boxes small t st) = out.1.1
  ∧ annotations (_remove_small_boxes small t st)
    = fold_left (annotation_loop_step out.2) valid []
  ∧ categories (_remove_small_boxes small t st) = categories st
  ∧ cat2id (_remove_small_boxes small t st) = cat2id st
  ∧ cat_count (_remove_small_boxes small t st) = cat_count st.
Proof.
  intros valid out. unfold _remove_small_boxes. fold valid. fold out.
  by destruct out as [[vi ri] m].
Qed.

(** What the filter stores once it has found the small boxes. *)
Lemma _remove_small_boxes_spec small t st :
  map sb_id small = map ann_id (filter (λ a, is_small t a) (annotations st)) →
  let imgs := surviving_images t st in
  let anns := surviving_annotations t st in
  let st' := _remove_small_boxes small t st in
  images st' = number_images 1 imgs
  ∧ (∃ M : gmap Z Z,
        (∀ old, M !! old = new_image_id imgs old)
        ∧ annotations st' = number_annotations 1 M (kept_annotations t st)
        ∧ filter (λ a, is_Some (M !! ann_image_id a)) (kept_annotations t st) = anns).
Proof.
  intros Hids imgs anns st'.
  destruct (_remove_small_boxes_fields small t st) as (Hi & Ha & _).
  fold st' in Hi, Ha.
  assert (Hvalid :
    filter (λ ann, ann_id ann ∉ (list_to_set (map sb_id small) : gset Z))
           (annotations st) = kept_annotations t st).
  { unfold kept_annotations. apply list_filter_iff. intros a.
    rewrite Hids, map_is_fmap, elem_of_list_to_set. done. }
  rewrite Hvalid in Hi, Ha.
  set (cnt := fold_left count_annotation (kept_annotations t st) ∅) in *.
  assert (Hcnt : ∀ k, is_Some (cnt !! k) ↔ k ∈ map ann_image_id (kept_annotations t st)).
  { intros k. unfold cnt. rewrite image_ann_count_dom, lookup_empty.
    split; [intros [[? ?]|?]; done | eauto]. }
  assert (Hkept : filter (λ img, is_Some (cnt !! img_id img)) (images st) = imgs).
  { unfold imgs, surviving_images. apply list_filter_iff. intros img. apply Hcnt. }
  destruct (image_loop_spec cnt (images st) [] [] ∅) as [H1 H2].
  rewrite Hkept in H1, H2. simpl in H1, H2.
  change (Z.of_nat 0 + 1) with 1 in H1, H2.
  split; [by rewrite Hi, H1|].
  eexists. split; [|split; [by rewrite Ha, annotation_loop_spec|]].
  - intros old. rewrite H2. unfold new_image_id.
    destruct (new_image_id_from 1 imgs old); [done|apply lookup_empty].
  - unfold anns, surviving_annotations. apply filter_ext_elem.
    intros a Ha'. rewrite H2.
    assert (Hsome : is_Some (new_image_id_from 1 imgs (ann_image_id a))
                    ↔ ann_image_id a ∈ map img_id (images st)).
    { rewrite new_image_id_from_is_Some. unfold imgs, surviving_images.
      rewrite !map_is_fmap, !list_elem_of_fmap. split.
      - intros (img & -> & Himg). apply list_elem_of_filter in Himg as [_ Himg].
        eauto.
      - intros (img & Heq & Himg). exists img. split; [done|].
        apply list_elem_of_filter. split; [|done].
        rewrite <- Heq, map_is_fmap. by apply list_elem_of_fmap_2. }
    rewrite <- Hsome.
    destruct (new_image_id_from 1 imgs (ann_image_id a)); [done|].
    rewrite lookup_empty. done.
Qed.

Lemma number_images_erase first imgs :
  map (set_img_id 0) (number_images first imgs) = map (set_img_id 0) imgs.
Proof. revert first; induction imgs as [|x l IH]; intros first; simpl; [done|by rewrite IH]. Qed.

Lemma number_images_elem first imgs img' :
  img' ∈ number_images first imgs →
  ∃ (i : nat) img, imgs !! i = Some img ∧ img' = set_img_id (first + Z.of_nat i) img.
Proof.
  revert first; induction imgs as [|x l IH]; intros first H; simpl in H.
  - by apply elem_of_nil in H.
  - apply elem_of_cons in H as [->|H].
    + exists 0%nat, x. split; [done|]. by rewrite Z.add_0_r.
    + destruct (IH _ H) as (i & img & Hi & ->). exists (S i), img.
      split; [done|]. f_equal. lia.
Qed.

Lemma NoDup_map_filter {A B} (f : A → B) (P : A → Prop) `{∀ x, Decision (P x)} l :
  NoDup (map f l) → NoDup (map f (filter P l)).
Proof.
  induction l as [|x l IH]; simpl; [done|].
  intros Hnd. apply NoDup_cons in Hnd as [Hx Hnd].
  rewrite filter_cons. destruct (decide (P x)); [|by apply IH].
  simpl. apply NoDup_cons. split; [|by apply IH].
  intros Hin. apply Hx. rewrite map_is_fmap in *.
  apply list_elem_of_fmap in Hin as (y & Hy & Hyl).
  apply list_elem_of_filter in Hyl as [_ Hyl].
  rewrite Hy. by apply list_elem_of_fmap_2.
Qed.

Lemma NoDup_map_inj_on {A B} (f : A → B) (l : list A) x y :
  NoDup (map f l) → x ∈ l → y ∈ l → f x = f y → x = y.
Proof.
  induction l as [|a l IH]; intros Hnd Hx Hy Hf; [by apply elem_of_nil in Hx|].
  simpl in Hnd. apply NoDup_cons in Hnd as [Ha Hnd].
  apply elem_of_cons in Hx as [->|Hx]; apply elem_of_cons in Hy as [->|Hy].
  - done.
  - exfalso. apply Ha. rewrite Hf, map_is_fmap. by apply list_elem_of_fmap_2.
  - exfalso. apply Ha. rewrite <- Hf, map_is_fmap. by apply list_elem_of_fmap_2.
  - by apply IH.
Qed.

Lemma kept_annotation_not_small t st ann :
  ann ∈ kept_annotations t st → ann ∈ annotations st ∧ is_small t ann = false.
Proof.
  unfold kept_annotations. rewrite list_elem_of_filter. intros [Hid Hin].
  split; [done|]. destruct (is_small t ann) eqn:Hs; [|done].
  exfalso. apply Hid. rewrite map_is_fmap. apply list_elem_of_fmap_2.
  apply list_elem_of_filter. split; [by rewrite Hs|done].
Qed.

(** With distinct identifiers the annotations kept are those that are not
    small, and in a store where every annotation has its image all of them
    survive. *)
Lemma kept_annotations_distinct_ids t st :
  NoDup (map ann_id (annotations st)) →
  kept_annotations t st = filter (λ a, is_small t a = false) (annotations st).
Proof.
  intros Hnd. unfold kept_annotations. apply filter_ext_elem. intros a Ha. split.
  - intros Hid. destruct (is_small t a) eqn:Hs; [|done].
    exfalso. apply Hid. rewrite map_is_fmap. apply list_elem_of_fmap_2.
    apply list_elem_of_filter. split; [by rewrite Hs|done].
  - intros Hs Hid. rewrite map_is_fmap in Hid.
    apply list_elem_of_fmap in Hid as (b & Heq & Hb).
    apply list_elem_of_filter in Hb as [Hsb Hb].
    assert (a = b) as -> by (by apply (NoDup_map_inj_on ann_id (annotations st))).
    rewrite Hs in Hsb. done.
Qed.

Lemma surviving_annotations_integrity t st :
  referential_integrity st →
  surviving_annotations t st = kept_annotations t st.
Proof.
  intros HI. unfold surviving_annotations. apply filter_ext_elem_id.
  intros a Ha. apply HI. by apply kept_annotation_not_small in Ha as [? _].
Qed.

(** When some annotation is small the filter goes through
    [_remove_small_boxes] with exactly the small annotations. *)
Lemma quality_filter_runs t st st' :
  _check_and_filter_small_boxes t st = Ok st' →
  (∃ ann, ann ∈ annotations st ∧ is_small t ann = true) →
  ∃ small, st' = _remove_small_boxes small t st
           ∧ map sb_id small = map ann_id (filter (λ a, is_small t a) (annotations st)).
Proof.
  intros Hrun (ann & Hin & Hsmall). unfold _check_and_filter_small_boxes in Hrun.
  destruct (annotations st) as [|a0 anns] eqn:Hanns; [by apply elem_of_nil in Hin|].
  inv_bind Hrun. rename v into small.
  destruct (collect_small_boxes_ids _ _ _ Hv) as [Hids _].
  assert (Hne : filter (λ a, is_small t a) (a0 :: anns) ≠ []).
  { intros Hnil. eapply (filter_nil_not_elem_of _ _ ann); [done| |done].
    cbv beta. by rewrite Hsmall. }
  destruct small as [|sb small].
  - exfalso. apply Hne. simpl in Hids. symmetry in Hids.
    by apply map_eq_nil in Hids.
  - injection Hrun as <-. eauto.
Qed.

Lemma filter_none {A} (P : A → Prop) `{∀ x, Decision (P x)} (l : list A) :
  (∀ x, x ∈ l → ¬ P x) → filter P l = [].
Proof.
  induction l as [|x l IH]; intros Hl; [done|].
  rewrite filter_cons_False by (apply Hl; by left).
  apply IH. intros y Hy. apply Hl. by right.
Qed.

(** C10: when no annotation has an area strictly below the threshold
    (in particular when there is no annotation at all), the quality check
    leaves the store exactly as it was built: images, annotations, their
    0-based identifiers and the images without annotation. *)
Theorem quality_check_without_small_boxes t st :
  (∀ ann, ann ∈ annotations st →
          ∃ area, bbox_area ann = Ok area ∧ Num.ltb area (NInt t) = false) →
  _check_and_filter_small_boxes t st = Ok st.
Proof.
  intros Hall. unfold _check_and_filter_small_boxes.
  destruct (annotations st) as [|a0 anns] eqn:Hanns; [done|].
  destruct (collect_small_boxes_total t (a0 :: anns)) as [small Hsmall].
  { intros a Ha. destruct (Hall a Ha) as (area & ? & _). eauto. }
  rewrite Hsmall. simpl.
  destruct (collect_small_boxes_ids _ _ _ Hsmall) as [Hids _].
  rewrite filter_none in Hids.
  - apply map_eq_nil in Hids. by subst small.
  - intros a Ha. destruct (Hall a Ha) as (area & Harea & Hlt).
    unfold is_small. rewrite Harea, Hlt. intros [].
Qed.

Lemma quality_check_without_small_boxes_witness :
  _check_and_filter_small_boxes 25 unfiltered_store = Ok unfiltered_store.
Proof.
  apply quality_check_without_small_boxes.
  intros ann Hin. apply list_elem_of_singleton in Hin. subst ann.
  exists (NInt 100). split; reflexivity.
Defined.

(** C2 (as amended): whenever at least one annotation is below the threshold,
    the filter leaves the surviving images with identifiers 1, 2, ... in
    their original order, and the surviving annotations with identifiers
    1, 2, ... in their original order, the [image_id] of each rewritten
    through the old-to-new map of the surviving images. *)
Theorem quality_filter_renumbers t st st' :
  _check_and_filter_small_boxes t st = Ok st' →
  (∃ ann, ann ∈ annotations st ∧ is_small t ann = true) →
  let imgs := surviving_images t st in
  let anns := surviving_annotations t st in
  map img_id (images st') = ids_from 1 (length imgs)
  ∧ (∀ (i : nat) img, imgs !! i = Some img →
        images st' !! i = Some (set_img_id (Z.of_nat i + 1) img))
  ∧ map ann_id (annotations st') = ids_from 1 (length anns)
  ∧ (∀ (i : nat) ann, anns !! i = Some ann →
        ∃ new, new_image_id imgs (ann_image_id ann) = Some new
               ∧ annotations st' !! i = Some (set_ann_ids (Z.of_nat i + 1) new ann))
  ∧ (NoDup (map ann_id (annotations st)) → referential_integrity st →
     anns = filter (λ ann, is_small t ann = false) (annotations st))
  ∧ (NoDup (map img_id (images st)) →
     ∀ (i : nat) img, imgs !! i = Some img →
        new_image_id imgs (img_id img) = Some (Z.of_nat i + 1)).
Proof.
  intros Hrun Hsmall imgs anns.
  destruct (quality_filter_runs _ _ _ Hrun Hsmall) as (small & -> & Hids).
  destruct (_remove_small_boxes_spec small t st Hids) as (Hi & M & HM & Ha & Hf).
  fold imgs in Hi, HM. fold anns in Hf.
  split; [|split; [|split; [|split; [|split]]]].
  - by rewrite Hi, number_images_ids.
  - intros i img Hl. rewrite Hi, (number_images_lookup 1 _ _ _ Hl).
    do 2 f_equal. lia.
  - by rewrite Ha, number_annotations_ids, Hf.
  - intros i ann Hl. rewrite <- Hf in Hl.
    destruct (number_annotations_lookup 1 M _ _ _ Hl) as (new & Hnew & Hl').
    exists new. split; [by rewrite <- HM|].
    rewrite Ha, Hl'. do 2 f_equal. lia.
  - intros Hnd HI. unfold anns.
    by rewrite surviving_annotations_integrity, kept_annotations_distinct_ids.
  - intros Hnd i img Hl. unfold new_image_id.
    rewrite (new_image_id_from_NoDup 1 imgs i img); [f_equal; lia| |done].
    unfold imgs, surviving_images. by apply NoDup_map_filter.
Qed.

Lemma quality_filter_renumbers_witness :
  map img_id (images (_remove_small_boxes
                        [mkSmallBox 0 0 0 (NInt 16) (int_box 0 0 4 4)] 25 example_store))
  = [1]
  ∧ map ann_id (annotations (_remove_small_boxes
                        [mkSmallBox 0 0 0 (NInt 16) (int_box 0 0 4 4)] 25 example_store))
  = [1; 2].
Proof.
  assert (Hrun : _check_and_filter_small_boxes 25 example_store
                 = Ok (_remove_small_boxes
                         [mkSmallBox 0 0 0 (NInt 16) (int_box 0 0 4 4)] 25 example_store))
    by reflexivity.
  assert (Hsmall : ∃ ann, ann ∈ annotations example_store ∧ is_small 25 ann = true).
  { exists (example_annotation 0 0 4 4). split; [left|reflexivity]. }
  destruct (quality_filter_renumbers 25 example_store _ Hrun Hsmall)
    as (Hi & _ & Ha & _).
  split; [exact Hi | exact Ha].
Defined.

(** The claim C2 as stated fails on a store without small annotation: the
    filter returns it with its 0-based identifiers. *)
Lemma quality_filter_keeps_zero_based_ids :
  ∃ st', _check_and_filter_small_boxes 25 unfiltered_store = Ok st'
         ∧ map img_id (images st') ≠ ids_from 1 (length (images st'))
         ∧ map ann_id (annotations st') ≠ ids_from 1 (length (annotations st')).
Proof. exists unfiltered_store. repeat split; discriminate. Qed.

(** C3 (as amended): whenever at least one annotation is below the
    threshold, the images the filter stores are, identifiers aside, exactly
    the images that keep an annotation, each of which has an annotation that
    is not small; an image that never had an annotation is not among them;
    and, identifiers of images being distinct, every stored image is the
    image of a stored annotation. *)
Theorem quality_filter_drops_unannotated_images t st st' :
  _check_and_filter_small_boxes t st = Ok st' →
  (∃ ann, ann ∈ annotations st ∧ is_small t ann = true) →
  map (set_img_id 0) (images st') = map (set_img_id 0) (surviving_images t st)
  ∧ (∀ img, img ∈ surviving_images t st →
        img ∈ images st
        ∧ ∃ ann, ann ∈ annotations st ∧ is_small t ann = false
                 ∧ ann_image_id ann = img_id img)
  ∧ (∀ img, img ∈ images st →
        (∀ ann, ann ∈ annotations st → ann_image_id ann ≠ img_id img) →
        img ∉ surviving_images t st)
  ∧ (NoDup (map img_id (images st)) →
     ∀ img', img' ∈ images st' →
        ∃ ann', ann' ∈ annotations st' ∧ ann_image_id ann' = img_id img').
Proof.
  intros Hrun Hsmall.
  destruct (quality_filter_runs _ _ _ Hrun Hsmall) as (small & -> & Hids).
  destruct (_remove_small_boxes_spec small t st Hids) as (Hi & M & HM & Ha & Hf).
  assert (Hsurv : ∀ img, img ∈ surviving_images t st →
            img ∈ images st
            ∧ ∃ ann, ann ∈ kept_annotations t st ∧ ann_image_id ann = img_id img).
  { intros img Himg. unfold surviving_images in Himg.
    apply list_elem_of_filter in Himg as [Hid Himg]. split; [done|].
    rewrite map_is_fmap in Hid. apply list_elem_of_fmap in Hid as (a & Heq & Hin).
    eauto. }
  split; [by rewrite Hi, number_images_erase|].
  split; [|split].
  - intros img Himg. destruct (Hsurv img Himg) as (Hin & a & Ha' & Heq).
    split; [done|]. apply kept_annotation_not_small in Ha' as [? ?]. eauto.
  - intros img _ Hnone Himg. destruct (Hsurv img Himg) as (_ & a & Ha' & Heq).
    apply kept_annotation_not_small in Ha' as [Hin _]. by apply (Hnone a).
  - intros Hnd img' Himg'. rewrite Hi in Himg'.
    apply number_images_elem in Himg' as (i & img & Hl & ->).
    destruct (Hsurv img (list_elem_of_lookup_2 _ _ _ Hl)) as (_ & a & Ha' & Heq).
    assert (Hnew : M !! ann_image_id a = Some (1 + Z.of_nat i)).
    { rewrite HM, Heq. unfold new_image_id.
      apply new_image_id_from_NoDup; [|done].
      unfold surviving_images. by apply NoDup_map_filter. }
    assert (Hin : a ∈ filter (λ a, is_Some (M !! ann_image_id a)) (kept_annotations t st)).
    { apply list_elem_of_filter. split; [by rewrite Hnew|done]. }
    apply list_elem_of_lookup_1 in Hin as [j Hj].
    destruct (number_annotations_lookup 1 M _ _ _ Hj) as (new & Hnew' & Hl').
    rewrite Hnew in Hnew'. injection Hnew' as <-.
    eexists. split; [rewrite Ha; eapply list_elem_of_lookup_2, Hl'|done].
Qed.

Lemma quality_filter_drops_unannotated_images_witness :
  map (set_img_id 0)
      (images (_remove_small_boxes
                 [mkSmallBox 0 0 0 (NInt 16) (int_box 0 0 4 4)] 25 example_store))
  = [mkImage "b.jpg" 0 100 200].
Proof.
  assert (Hrun : _check_and_filter_small_boxes 25 example_store
                 = Ok (_remove_small_boxes
                         [mkSmallBox 0 0 0 (NInt 16) (int_box 0 0 4 4)] 25 example_store))
    by reflexivity.
  assert (Hsmall : ∃ ann, ann ∈ annotations example_store ∧ is_small 25 ann = true).
  { exists (example_annotation 0 0 4 4). split; [left|reflexivity]. }
  destruct (quality_filter_drops_unannotated_images 25 example_store _ Hrun Hsmall)
    as (Hi & _).
  exact Hi.
Defined.

(** The claim C3 as stated fails on a store without small annotation: the
    image without annotation is still there after the filter. *)
Lemma quality_filter_keeps_unannotated_image :
  ∃ st' img, _check_and_filter_small_boxes 25 unfiltered_store = Ok st'
             ∧ img ∈ images st'
             ∧ ∀ ann, ann ∈ annotations st' → ann_image_id ann ≠ img_id img.
Proof.
  exists unfiltered_store, (mkImage "c.jpg" 1 100 200).
  split; [reflexivity|]. split; [right; left|].
  intros ann Hin. apply list_elem_of_singleton in Hin. by subst ann.
Qed.

(** ** AnnotationStore and the parsers: the two invariants *)

Lemma ensure_category_invariant name st :
  category_invariant st → category_invariant (ensure_category name st).
Proof.
  intros [Hnd Hids Hagree Hcount]. unfold ensure_category.
  destruct (cat2id st !! name) as [id|] eqn:Hname; [by constructor|].
  constructor; simpl.
  - rewrite map_app. simpl. apply NoDup_app. split; [done|]. split.
    + intros x Hx Hx'. apply list_elem_of_singleton in Hx'. subst x.
      rewrite map_is_fmap in Hx. apply list_elem_of_fmap in Hx as ([id n] & Heq & Hin).
      simpl in Heq. subst n. apply Hagree in Hin. congruence.
    + apply NoDup_singleton.
  - rewrite map_app, length_app. simpl. rewrite Nat.add_1_r, ids_from_snoc.
    rewrite Hids, Hcount. done.
  - intros n id. rewrite elem_of_app, list_elem_of_singleton.
    destruct (decide (name = n)) as [->|Hne].
    + rewrite lookup_insert_eq. split.
      * intros [= <-]. by right.
      * intros [Hin|[= -> ]]; [|done]. apply Hagree in Hin. congruence.
    + rewrite lookup_insert_ne by done. rewrite Hagree. split; [by left|].
      intros [?|[= ? ?]]; [done|congruence].
  - rewrite length_app. simpl. lia.
Qed.

Lemma ensure_category_prefix name st :
  categories st `prefix_of` categories (ensure_category name st).
Proof.
  unfold ensure_category. destruct (cat2id st !! name); simpl; [done|].
  by apply prefix_app_r.
Qed.

Lemma grows_for_refl img st : grows_for img st st.
Proof.
  constructor; [done| |done|done|done].
  exists []. split; [by rewrite app_nil_r|]. intros a Ha. by apply elem_of_nil in Ha.
Qed.

Lemma grows_for_trans img st1 st2 st3 :
  grows_for img st1 st2 → grows_for img st2 st3 → grows_for img st1 st3.
Proof.
  intros [Hi1 (n1 & Ha1 & Hn1) Hc1 Hv1 Hd1] [Hi2 (n2 & Ha2 & Hn2) Hc2 Hv2 Hd2].
  constructor.
  - congruence.
  - exists (n1 ++ n2). split; [by rewrite Ha2, Ha1, app_assoc|].
    intros a Ha. apply elem_of_app in Ha as [?|?]; auto.
  - by etrans.
  - auto.
  - auto.
Qed.

Lemma add_annotation_grows img b st : grows_for img st (add_annotation img b st).
Proof.
  unfold add_annotation.
  assert (He : grows_for img st (ensure_category (raw_category b) st)).
  { constructor.
    - unfold ensure_category. by destruct (cat2id st !! raw_category b).
    - exists []. split.
      + unfold ensure_category. rewrite app_nil_r.
        by destruct (cat2id st !! raw_category b).
      + intros a Ha. by apply elem_of_nil in Ha.
    - apply ensure_category_prefix.
    - apply ensure_category_invariant.
    - intros [? ? ? ?]. unfold ensure_category.
      by destruct (cat2id st !! raw_category b). }
  destruct (Num.mul _ _) as [area|]; [|done].
  eapply grows_for_trans; [exact He|].
  constructor; simpl; [done| |done| |].
  - eexists [_]. split; [done|]. intros a Ha.
    apply list_elem_of_singleton in Ha. by subst a.
  - intros [? ? ? ?]. by constructor.
  - intros [Hi Hic Ha Hac]. constructor; simpl; [done|done| |].
    + rewrite map_app, length_app. simpl. rewrite Nat.add_1_r, ids_from_snoc.
      by rewrite Ha, Hac.
    + rewrite length_app. simpl. lia.
Qed.

Lemma yolo_lines_grows W img img_w img_h cm lines st :
  grows_for img st (yolo_lines W img img_w img_h cm lines st).1.
Proof.
  revert st; induction lines as [|line lines IH]; intros st; simpl.
  - apply grows_for_refl.
  - destruct (yolo_line W img_w img_h cm line) as [[b|]|e]; simpl.
    + eapply grows_for_trans; [apply add_annotation_grows|apply IH].
    + apply IH.
    + apply grows_for_refl.
Qed.

Lemma add_entries_grows {A} img (extract : A → result (option RawBox)) entries st :
  grows_for img st (add_entries img extract entries st).
Proof.
  unfold add_entries. revert st; induction entries as [|e entries IH]; intros st; simpl.
  - apply grows_for_refl.
  - eapply grows_for_trans; [|apply IH].
    destruct (extract e) as [[b|]|]; [apply add_annotation_grows|apply grows_for_refl..].
Qed.

(** Each of the five parsers only appends annotations of its image and
    categories. *)
Lemma parser_grows W annotation_path ann_file img img_w img_h format_type cm st :
  grows_for img st
    match format_type with
    | yolo => (_process_yolo_file W annotation_path ann_file img img_w img_h cm st).1
    | voc => _process_voc_file W annotation_path ann_file img st
    | coco_single => _process_coco_single_file W annotation_path ann_file img st
    | labelme => _process_labelme_file W annotation_path ann_file img st
    | hk => _process_hk_file W annotation_path ann_file img st
    end.
Proof.
  destruct format_type.
  - unfold _process_yolo_file. destruct (read_lines _ _ _); simpl;
      [apply yolo_lines_grows|apply grows_for_refl].
  - unfold _process_voc_file. destruct (read_xml_objects _ _ _);
      [apply add_entries_grows|apply grows_for_refl].
  - unfold _process_coco_single_file. destruct (json_entries _ _ _ _);
      [apply add_entries_grows|apply grows_for_refl].
  - unfold _process_labelme_file. destruct (json_entries _ _ _ _);
      [apply add_entries_grows|apply grows_for_refl].
  - unfold _process_hk_file. destruct (json_entries _ _ _ _);
      [apply add_entries_grows|apply grows_for_refl].
Qed.

Lemma push_image_integrity name size st :
  referential_integrity st → referential_integrity (push_image name size st).
Proof.
  intros H a Ha. simpl in *. rewrite map_app, elem_of_app. left. by apply H.
Qed.

Lemma push_image_categories name size st :
  category_invariant st → category_invariant (push_image name size st).
Proof. intros [? ? ? ?]. by constructor. Qed.

Lemma push_image_dense name size st :
  dense_identifiers st → dense_identifiers (push_image name size st).
Proof.
  intros [Hi Hic Ha Hac]. constructor; simpl; [| |done|done].
  - rewrite map_app, length_app. simpl. rewrite Nat.add_1_r, ids_from_snoc.
    by rewrite Hi, Hic.
  - rewrite length_app. simpl. lia.
Qed.

Lemma grows_for_integrity img st st' :
  grows_for img st st' → img ∈ map img_id (images st) →
  referential_integrity st → referential_integrity st'.
Proof.
  intros [Hi (new & Ha & Hnew) _ _] Himg H a Hin.
  rewrite Hi. rewrite Ha in Hin. apply elem_of_app in Hin as [Hin|Hin].
  - by apply H.
  - by rewrite (Hnew a Hin).
Qed.

(** What [_process_file_pair] does to the store, whatever it returns. *)
Lemma _process_file_pair_spec W ap ip ann_file img_file format_type cm st :
  let st' := (_process_file_pair W ap ip ann_file img_file format_type cm st).1 in
  (referential_integrity st → referential_integrity st')
  ∧ (category_invariant st → category_invariant st')
  ∧ categories st `prefix_of` categories st'
  ∧ (dense_identifiers st → dense_identifiers st').
Proof.
  unfold _process_file_pair.
  destruct (image_size W ip img_file) as [[img_w img_h]|e]; simpl; [|done].
  set (st1 := push_image img_file (img_w, img_h) st).
  pose proof (parser_grows W ap ann_file (img_count st) img_w img_h format_type cm st1)
    as Hg.
  assert (Hin : img_count st ∈ map img_id (images st1)).
  { simpl. rewrite map_app, elem_of_app. right. simpl. left. }
  destruct format_type; simpl;
    (split; [intros HI; eapply grows_for_integrity;
               [exact Hg|exact Hin|by apply push_image_integrity]
            |split; [intros HC; apply (grows_invariant _ _ _ Hg);
                       by apply push_image_categories
                    |split; [apply (grows_categories _ _ _ Hg)
                            |intros HD; apply (grows_dense _ _ _ Hg);
                               by apply push_image_dense]]]).
Qed.

Lemma add_unmatched_image_spec W ip st img_file :
  let st' := add_unmatched_image W ip st img_file in
  (referential_integrity st → referential_integrity st')
  ∧ (category_invariant st → category_invariant st')
  ∧ categories st' = categories st
  ∧ (dense_identifiers st → dense_identifiers st').
Proof.
  unfold add_unmatched_image. destruct (image_size W ip img_file); simpl; [|done].
  split; [apply push_image_integrity|].
  split; [apply push_image_categories|]. split; [done|apply push_image_dense].
Qed.

Lemma reset_invariants :
  referential_integrity reset ∧ category_invariant reset ∧ dense_identifiers reset.
Proof.
  split; [|split].
  - intros a Ha. by apply elem_of_nil in Ha.
  - constructor; simpl; [constructor|done| |done].
    intros name id. rewrite lookup_empty, elem_of_nil. split; [done|intros []].
  - by constructor.
Qed.

(** Every state of the store before [_save_coco] satisfies the invariants
    that each step preserves. *)
Lemma build_stages_invariant (P : AnnotationConverter → Prop)
    W ap ip format_type cm include_unmatched m :
  P reset →
  (∀ st ann_file img_file,
      P st → P (_process_file_pair W ap ip ann_file img_file format_type cm st).1) →
  (∀ st img_file, P st → P (add_unmatched_image W ip st img_file)) →
  Forall P (build_stages W ap ip format_type cm include_unmatched m)
  ∧ P (build_store W ap ip format_type cm include_unmatched m).
Proof.
  intros H0 Hpair Himg. unfold build_stages, build_store.
  destruct (scan_left_invariant P (pair_step W ap ip format_type cm)
              (matched_pairs m) reset H0) as [H1 H2].
  { intros st [a i] Hst. by apply Hpair. }
  destruct (scan_left_invariant P (add_unmatched_image W ip)
              (unmatched_images m) _ H2 Himg) as [H3 H4].
  destruct include_unmatched.
  - split; [|done]. constructor; [done|]. by apply Forall_app.
  - split; [|done]. constructor; [done|]. rewrite app_nil_r. done.
Qed.

(** The last of these states is the store that goes to [_save_coco]. *)
Lemma build_stages_last W ap ip format_type cm include_unmatched m :
  last (build_stages W ap ip format_type cm include_unmatched m)
  = Some (build_store W ap ip format_type cm include_unmatched m).
Proof.
  unfold build_stages, build_store. rewrite app_comm_cons.
  set (step := pair_step W ap ip format_type cm).
  pose proof (scan_left_last step (matched_pairs m) reset) as Hlast.
  destruct include_unmatched; [|by rewrite app_nil_r].
  destruct (unmatched_images m) as [|img imgs]; [by rewrite app_nil_r|].
  simpl scan_left. rewrite last_app_cons.
  apply (scan_left_last (add_unmatched_image W ip) (img :: imgs)).
Qed.

(** X7: before the filter the identifiers are 0-based and dense, hence distinct:
    the stores the filter receives have no two images, and no two
    annotations, of the same identifier. *)
Lemma built_store_identifiers W ap ip format_type cm include_unmatched m :
  let st := build_store W ap ip format_type cm include_unmatched m in
  Forall dense_identifiers (build_stages W ap ip format_type cm include_unmatched m)
  ∧ dense_identifiers st
  ∧ NoDup (map img_id (images st)) ∧ NoDup (map ann_id (annotations st)).
Proof.
  intros st.
  assert (Hbuild :
    Forall dense_identifiers
           (build_stages W ap ip format_type cm include_unmatched m)
    ∧ dense_identifiers st).
  { apply build_stages_invariant.
    - apply reset_invariants.
    - intros st0 a i. apply _process_file_pair_spec.
    - intros st0 i. apply add_unmatched_image_spec. }
  destruct Hbuild as [Hstages Hstore]. split; [done|]. split; [done|].
  destruct Hstore as [Hi _ Ha _]. rewrite Hi, Ha. split; apply ids_from_NoDup.
Qed.

Lemma number_annotations_elem first (M : gmap Z Z) anns ann' :
  ann' ∈ number_annotations first M anns →
  ∃ ann new, ann ∈ anns ∧ M !! ann_image_id ann = Some new
             ∧ ann_image_id ann' = new.
Proof.
  revert first; induction anns as [|a anns IH]; intros first H; simpl in H.
  - by apply elem_of_nil in H.
  - destruct (M !! ann_image_id a) as [new|] eqn:HM.
    + apply elem_of_cons in H as [->|H].
      * exists a, new. split; [by left|done].
      * destruct (IH _ H) as (b & n & ? & ? & ?). exists b, n. split; [by right|done].
    + destruct (IH _ H) as (b & n & ? & ? & ?). exists b, n. split; [by right|done].
Qed.

(** The join step: whatever the store was, after [_remove_small_boxes]
    every annotation is attached to a stored image. *)
Lemma _remove_small_boxes_integrity small t st :
  map sb_id small = map ann_id (filter (λ a, is_small t a) (annotations st)) →
  referential_integrity (_remove_small_boxes small t st).
Proof.
  intros Hids.
  destruct (_remove_small_boxes_spec small t st Hids) as (Hi & M & HM & Ha & _).
  intros ann' Hin. rewrite Ha in Hin.
  apply number_annotations_elem in Hin as (a & new & _ & Hnew & ->).
  rewrite HM in Hnew. apply new_image_id_from_Some in Hnew as (i & img & Hl & _ & ->).
  rewrite Hi, map_is_fmap. apply list_elem_of_fmap.
  exists (set_img_id (1 + Z.of_nat i) img). split; [done|].
  eapply list_elem_of_lookup_2. by apply number_images_lookup.
Qed.

Lemma quality_filter_cases t st st' :
  _check_and_filter_small_boxes t st = Ok st' →
  st' = st
  ∨ ∃ small, st' = _remove_small_boxes small t st
             ∧ map sb_id small
               = map ann_id (filter (λ a, is_small t a) (annotations st)).
Proof.
  unfold _check_and_filter_small_boxes. intros H.
  destruct (annotations st) as [|a0 anns] eqn:Hanns; [injection H as <-; by left|].
  inv_bind H. destruct (collect_small_boxes_ids _ _ _ Hv) as [Hids _].
  destruct v as [|sb small]; injection H as <-; [by left|].
  right. eauto.
Qed.

Lemma quality_filter_integrity t st st' :
  _check_and_filter_small_boxes t st = Ok st' →
  referential_integrity st → referential_integrity st'.
Proof.
  intros H HI. apply quality_filter_cases in H as [->|(small & -> & Hids)]; [done|].
  by apply _remove_small_boxes_integrity.
Qed.

Lemma quality_filter_categories t st st' :
  _check_and_filter_small_boxes t st = Ok st' →
  category_invariant st → category_invariant st'.
Proof.
  intros H [? ? ? ?]. apply quality_filter_cases in H as [->|(small & -> & _)].
  - by constructor.
  - destruct (_remove_small_boxes_fields small t st) as (_ & _ & Hc & Hm & Hn).
    constructor; by rewrite ?Hc, ?Hm, ?Hn.
Qed.

Lemma convert_to_coco_store W ap ip format_type cm include_unmatched t flag st' :
  convert_to_coco W ap ip format_type cm include_unmatched t = Ok (flag, st') →
  st' = reset
  ∨ ∃ m, _check_and_filter_small_boxes t
           (build_store W ap ip format_type cm include_unmatched m) = Ok st'.
Proof.
  unfold convert_to_coco. intros H. inv_bind H. rename v into m.
  destruct (matched_pairs m); [injection H as <- <-; by left|].
  inv_bind H. injection H as <- <-. right. eauto.
Qed.

(** C5: at every stage of the conversion pathway — after [reset], after
    each file pair, after each image added without annotation, and after
    the quality filter with its renumbering — the [image_id] of every
    annotation is the [id] of an image of the store. *)
Theorem image_references_hold_at_every_stage
    W ap ip format_type cm include_unmatched t m :
  Forall referential_integrity
         (build_stages W ap ip format_type cm include_unmatched m)
  ∧ (∀ st', _check_and_filter_small_boxes t
              (build_store W ap ip format_type cm include_unmatched m) = Ok st' →
            referential_integrity st')
  ∧ (∀ flag st',
        convert_to_coco W ap ip format_type cm include_unmatched t = Ok (flag, st') →
        referential_integrity st').
Proof.
  assert (Hbuild : ∀ m',
    Forall referential_integrity
           (build_stages W ap ip format_type cm include_unmatched m')
    ∧ referential_integrity (build_store W ap ip format_type cm include_unmatched m')).
  { intros m'. apply build_stages_invariant.
    - apply reset_invariants.
    - intros st a i. apply _process_file_pair_spec.
    - intros st i. apply add_unmatched_image_spec. }
  split; [apply Hbuild|]. split.
  - intros st' Hrun. eapply quality_filter_integrity; [exact Hrun|apply Hbuild].
  - intros flag st' Hrun.
    apply convert_to_coco_store in Hrun as [->|[m' Hrun]];
      [apply reset_invariants|].
    eapply quality_filter_integrity; [exact Hrun|apply Hbuild].
Qed.

Lemma image_references_hold_at_every_stage_witness :
  ∃ st', convert_to_coco yolo_world "ann" "img" yolo None true 25 = Ok (true, st')
         ∧ images st' = [mkImage "a.jpg" 1 100 200]
         ∧ referential_integrity st'.
Proof.
  eexists. split; [vm_compute; reflexivity|]. split; [reflexivity|].
  eapply (proj2 (proj2 (image_references_hold_at_every_stage
                          yolo_world "ann" "img" yolo None true 25
                          (mkMatch [] [] [])))).
  vm_compute. reflexivity.
Defined.


(** With the invariant, [cat2id] is a bijection between the names of the
    category list and the identifiers [0 .. N-1]. *)
Lemma category_invariant_bijection st :
  category_invariant st → category_bijection st.
Proof.
  intros [Hnd Hids Hagree Hcount].
  assert (Hid : ∀ c, c ∈ categories st →
                     0 ≤ cat_id c < Z.of_nat (length (categories st))).
  { intros c Hc.
    assert (Hin : cat_id c ∈ map cat_id (categories st))
      by (rewrite map_is_fmap; by apply list_elem_of_fmap_2).
    rewrite Hids in Hin. apply ids_from_elem in Hin. lia. }
  constructor.
  - intros name id H. apply Hagree in H. apply (Hid _ H).
  - intros n1 n2 id H1 H2. apply Hagree in H1, H2.
    assert (Heq : mkCategory id n1 = mkCategory id n2).
    { apply (NoDup_map_inj_on cat_id (categories st)); [|done..].
      rewrite Hids. apply ids_from_NoDup. }
    by injection Heq.
  - intros id Hrange.
    assert (Hl : map cat_id (categories st) !! Z.to_nat id = Some id).
    { rewrite Hids, ids_from_lookup by lia. f_equal. lia. }
    rewrite map_is_fmap, list_lookup_fmap in Hl.
    destruct (categories st !! Z.to_nat id) as [[i n]|] eqn:Hc; [|done].
    simpl in Hl. injection Hl as ->. exists n. apply Hagree.
    by eapply list_elem_of_lookup_2.
  - intros name. rewrite map_is_fmap, list_elem_of_fmap. split.
    + intros [id H]. apply Hagree in H. by exists (mkCategory id name).
    + intros ([id n] & -> & Hin). exists id. by apply Hagree.
Qed.

(** C6: whatever files go through any of the five format parsers, at every
    stage of the conversion the category list has no two entries of the
    same name, its identifiers are 0 .. N-1 in the order of the list, and
    [cat2id] is a bijection between the names and those identifiers; a
    parser only appends to the category list, so that a name keeps the
    identifier it got when it was first seen. *)
Theorem categories_are_registered_once
    W ap ip format_type cm include_unmatched t m :
  Forall (λ st, category_invariant st ∧ category_bijection st)
         (build_stages W ap ip format_type cm include_unmatched m)
  ∧ (∀ st', _check_and_filter_small_boxes t
              (build_store W ap ip format_type cm include_unmatched m) = Ok st' →
            category_invariant st' ∧ category_bijection st')
  ∧ (∀ st ann_file img_file,
        category_invariant st →
        let st' :=
          (_process_file_pair W ap ip ann_file img_file format_type cm st).1 in
        category_invariant st' ∧ category_bijection st'
        ∧ categories st `prefix_of` categories st')
  ∧ (∀ st name,
        category_invariant st →
        cat2id st !! name = None →
        categories (ensure_category name st)
        = categories st ++ [mkCategory (Z.of_nat (length (categories st))) name]).
Proof.
  assert (Hbuild :
    Forall category_invariant
           (build_stages W ap ip format_type cm include_unmatched m)
    ∧ category_invariant (build_store W ap ip format_type cm include_unmatched m)).
  { apply build_stages_invariant.
    - apply reset_invariants.
    - intros st a i. apply _process_file_pair_spec.
    - intros st i. apply add_unmatched_image_spec. }
  destruct Hbuild as [Hstages Hstore].
  split; [|split; [|split]].
  - eapply Forall_impl; [exact Hstages|]. intros st Hst.
    split; [done|by apply category_invariant_bijection].
  - intros st' Hrun.
    assert (category_invariant st') by (by eapply quality_filter_categories).
    split; [done|by apply category_invariant_bijection].
  - intros st ann_file img_file Hst.
    destruct (_process_file_pair_spec W ap ip ann_file img_file format_type cm st)
      as (_ & Hc & Hp & _).
    split; [by apply Hc|]. split; [by apply category_invariant_bijection, Hc|done].
  - intros st name [_ _ _ Hcount] Hnone. unfold ensure_category.
    rewrite Hnone. simpl. by rewrite Hcount.
Qed.

Lemma categories_are_registered_once_witness :
  ∃ st', convert_to_coco yolo_world "ann" "img" yolo None true 25 = Ok (true, st')
         ∧ categories st' = [mkCategory 0 "class_0"; mkCategory 1 "class_1"]
         ∧ category_invariant st' ∧ category_bijection st'.
Proof.
  eexists. split; [vm_compute; reflexivity|]. split; [reflexivity|].
  eapply (proj1 (proj2 (categories_are_registered_once
                          yolo_world "ann" "img" yolo None true 25
                          (mkMatch [("a.txt", "a.jpg")] [] ["c.jpg"])))).
  vm_compute. reflexivity.
Defined.

(** ** Conversions of floats *)

Lemma to_int_integer_part f z : PyFloat.to_int f = Ok z → integer_part f z.
Proof.
  unfold PyFloat.to_int, integer_part.
  destruct (Prim2SF f) as [s| | |s m e]; try discriminate.
  - by intros [= <-].
  - intros [= <-]. cbv zeta. destruct (Z.leb_spec 0 e) as [He|He].
    + destruct s; lia.
    + assert (Hd : 0 < 2 ^ (- e)) by (apply Z.pow_pos_nonneg; lia).
      pose proof (Z.div_mod (Z.pos m) (2 ^ (- e)) ltac:(lia)) as Hdm.
      pose proof (Z.mod_pos_bound (Z.pos m) (2 ^ (- e)) Hd) as Hm.
      replace (if s then - (if s then - (Z.pos m / 2 ^ (- e)) else Z.pos m / 2 ^ (- e))
               else if s then - (Z.pos m / 2 ^ (- e)) else Z.pos m / 2 ^ (- e))
        with (Z.pos m / 2 ^ (- e)) by (destruct s; lia).
      nia.
Qed.

Lemma round_nearest_integer f z : PyFloat.round f = Ok z → nearest_integer f z.
Proof.
  unfold PyFloat.round, nearest_integer.
  destruct (Prim2SF f) as [s| | |s m e]; try discriminate.
  - by intros [= <-].
  - intros [= <-]. cbv zeta. destruct (Z.leb_spec 0 e) as [He|He].
    + destruct s; lia.
    + assert (Hd : 0 < 2 ^ (- e)) by (apply Z.pow_pos_nonneg; lia).
      pose proof (Z.div_mod (Z.pos m) (2 ^ (- e)) ltac:(lia)) as Hdm.
      pose proof (Z.mod_pos_bound (Z.pos m) (2 ^ (- e)) Hd) as Hm.
      set (d := 2 ^ (- e)) in *. set (q := Z.pos m / d) in *.
      set (r := Z.pos m mod d) in *.
      set (a := match 2 * r ?= d with
                | Eq => if Z.even q then q else q + 1
                | Lt => q
                | Gt => q + 1
                end).
      replace (if s then - (if s then - a else a) else if s then - a else a)
        with a by (destruct s; lia).
      unfold a. destruct (Z.compare_spec (2 * r) d) as [Heq|Hlt|Hgt].
      * destruct (Z.even q); nia.
      * nia.
      * nia.
Qed.

(** ** The YOLO scenario *)

(** C4 (the claim as stated fails): the line [0 0.5 0.5 0.2 0.4] on an
    image of 100 x 200 does not give the box [40, 30, 20, 80]. *)
Lemma yolo_scenario_box_is_not_40_30_20_80 :
  ¬ ∃ ann, annotations yolo_scenario_store = [ann]
           ∧ ann_bbox ann = int_box 40 30 20 80 ∧ ann_area ann = NInt 1600.
Proof.
  intros (ann & Hanns & Hbox & _).
  vm_compute in Hanns. injection Hanns as <-. vm_compute in Hbox. discriminate.
Qed.

(** C4 (as amended): the line [0 0.5 0.5 0.2 0.4] on an image of width 100
    and height 200 gives exactly one annotation, with box [40, 60, 20, 80]
    (the top is 0.5 * 200 - (0.4 * 200) / 2 = 60) and area 1600; each
    integer is the integer part of the denormalized value, as on the line
    [0 0.5 0.5 0.27 0.27] of a 10 x 10 image where 2.7 gives 2 and 3.65
    gives 3. *)
Theorem yolo_scenario_box :
  annotations yolo_scenario_store
  = [mkAnnotation 0 0 0 (int_box 40 60 20 80) (NInt 1600)]
  ∧ categories yolo_scenario_store = [mkCategory 0 "class_0"]
  ∧ yolo_line yolo_scenario_world 10 10 None "0 0.5 0.5 0.27 0.27"
    = Ok (Some (mkRawBox "class_0" (int_box 3 3 2 2)))
  ∧ (∀ W img_w img_h cm parts b,
        yolo_box W img_w img_h cm parts = Ok b →
        ∃ class_id xc yc w h fx fy fw fh x y iw ih,
          parts = [class_id; xc; yc; w; h]
          ∧ (py_float W xc ≫= λ v, PyFloat.mul_int v img_w) = Ok fx
          ∧ (py_float W yc ≫= λ v, PyFloat.mul_int v img_h) = Ok fy
          ∧ (py_float W w ≫= λ v, PyFloat.mul_int v img_w) = Ok fw
          ∧ (py_float W h ≫= λ v, PyFloat.mul_int v img_h) = Ok fh
          ∧ integer_part (PrimFloat.sub fx (PrimFloat.div fw PrimFloat.two)) x
          ∧ integer_part (PrimFloat.sub fy (PrimFloat.div fh PrimFloat.two)) y
          ∧ integer_part fw iw ∧ integer_part fh ih
          ∧ raw_bbox b = int_box x y iw ih).
Proof.
  split; [vm_compute; reflexivity|]. split; [vm_compute; reflexivity|].
  split; [vm_compute; reflexivity|].
  intros W img_w img_h cm parts b H. unfold yolo_box in H.
  destruct parts as [|p0 [|p1 [|p2 [|p3 [|p4 [|? ?]]]]]]; try discriminate.
  inv_bind H. inv_bind H. inv_bind H. inv_bind H. inv_bind H.
  inv_bind H. inv_bind H. inv_bind H. inv_bind H.
  inv_bind H. inv_bind H. inv_bind H. inv_bind H.
  injection H as <-.
  exists p0, p1, p2, p3, p4, v4, v5, v6, v7, v8, v9, v10, v11.
  rewrite Hv0, Hv1, Hv2, Hv3. simpl.
  repeat split; try done; by apply to_int_integer_part.
Qed.

Lemma yolo_scenario_box_witness :
  ∃ x y w h, raw_bbox (mkRawBox "class_0" (int_box 40 60 20 80)) = int_box x y w h
             ∧ integer_part 20 w ∧ integer_part 80 h.
Proof.
  destruct (proj2 (proj2 (proj2 yolo_scenario_box))
              yolo_scenario_world 100 200 None ["0"; "0.5"; "0.5"; "0.2"; "0.4"]
              (mkRawBox "class_0" (int_box 40 60 20 80)) eq_refl)
    as (c & xc & yc & w & h & fx & fy & fw & fh & x & y & iw & ih
        & Hp & Hx & Hy & Hw & Hh & Hix & Hiy & Hiw & Hih & Hb).
  injection Hp as <- <- <- <- <-.
  vm_compute in Hw. injection Hw as <-. vm_compute in Hh. injection Hh as <-.
  exists x, y, iw, ih. split; [exact Hb|]. split; [exact Hiw|exact Hih].
Defined.

(** ** ImageCropper *)

(** C8 (as amended): with a ratio equal to 1.0 the box comes back
    unchanged, whatever its coordinates. Otherwise, for a box of integers,
    width and height are multiplied by the ratio and truncated to integers,
    the centre is [x + w // 2], [y + h // 2] with the division that rounds
    toward minus infinity — the truncating one when the width and the
    height are not negative —, the new left and top are the centre minus
    half the new width and height, a negative left or top is pinned to 0
    without re-centring, and a width or height that passes the image
    bounds is shrunk to fit without shifting; ratio 2.0 on box
    [40, 30, 20, 80] in a 100 x 200 image gives width 40 and height 160
    with the top adjusted to 0. *)
Theorem expansion_and_bounds x y w h img_w img_h ratio :
  (∀ bbox, PrimFloat.eqb ratio PrimFloat.one = true →
           _apply_expansion_and_bounds bbox img_w img_h ratio = Ok bbox)
  ∧ (PrimFloat.eqb ratio PrimFloat.one = false →
     ∀ new_w new_h,
       scale_length (NInt w) ratio = Ok new_w →
       scale_length (NInt h) ratio = Ok new_h →
       let new_x := Z.max 0 (x + w / 2 - new_w / 2) in
       let new_y := Z.max 0 (y + h / 2 - new_h / 2) in
       _apply_expansion_and_bounds (int_box x y w h) img_w img_h ratio
       = Ok (int_box new_x new_y
               (Z.min new_w (img_w - new_x)) (Z.min new_h (img_h - new_y))))
  ∧ (∀ v n, scale_length (NInt v) ratio = Ok n →
            ∃ f, PyFloat.of_int v = Ok f ∧ integer_part (PrimFloat.mul f ratio) n)
  ∧ (0 ≤ w → w / 2 = w ÷ 2)
  ∧ (0 ≤ h → h / 2 = h ÷ 2)
  ∧ _apply_expansion_and_bounds (int_box 40 30 20 80) 100 200 2
    = Ok (int_box 30 0 40 160).
Proof.
  split; [|split; [|split; [|split; [|split]]]].
  - intros [bx by_ bw bh] Hone. unfold _apply_expansion_and_bounds. by rewrite Hone.
  - intros Hratio new_w new_h Hnw Hnh. unfold _apply_expansion_and_bounds, int_box.
    rewrite Hratio, Hnw, Hnh. simpl.
    destruct (Z.ltb_spec (x + w / 2 - new_w / 2) 0);
      destruct (Z.ltb_spec (y + h / 2 - new_h / 2) 0); simpl;
      repeat match goal with
             | |- context [?a <? ?b] => destruct (Z.ltb_spec a b); simpl
             end;
      unfold int_box; repeat f_equal; lia.
  - intros v n Hn. unfold scale_length in Hn. simpl in Hn.
    destruct (PyFloat.of_int v) as [f|] eqn:Hf; [|done]. simpl in Hn.
    exists f. split; [done|]. by apply to_int_integer_part.
  - intros Hw. by rewrite Z.quot_div_nonneg by lia.
  - intros Hh. by rewrite Z.quot_div_nonneg by lia.
  - vm_compute. reflexivity.
Qed.

Lemma expansion_and_bounds_witness :
  _apply_expansion_and_bounds (int_box 40 30 20 80) 100 200 2
  = Ok (int_box (Z.max 0 (40 + 20 / 2 - 40 / 2)) (Z.max 0 (30 + 80 / 2 - 160 / 2))
          (Z.min 40 (100 - Z.max 0 (40 + 20 / 2 - 40 / 2)))
          (Z.min 160 (200 - Z.max 0 (30 + 80 / 2 - 160 / 2)))).
Proof.
  apply (proj1 (proj2 (expansion_and_bounds 40 30 20 80 100 200 2))); reflexivity.
Defined.

(** The centre is not the truncating one: for a box of width and height -3,
    as a VOC file with [xmax < xmin] gives it, the code returns the left
    11, where truncating divisions give 12. *)
Lemma expansion_of_a_negative_size_floors :
  _apply_expansion_and_bounds (int_box 10 10 (-3) (-3)) 100 100 2
  = Ok (int_box 11 11 (-6) (-6))
  ∧ Z.max 0 (10 + (-3) ÷ 2 - (-6) ÷ 2) = 12
  ∧ _apply_expansion_and_bounds (int_box 10 10 (-3) (-3)) 100 100 2
    ≠ Ok (int_box (Z.max 0 (10 + (-3) ÷ 2 - (-6) ÷ 2))
            (Z.max 0 (10 + (-3) ÷ 2 - (-6) ÷ 2)) (-6) (-6)).
Proof. split; [|split]; vm_compute; [reflexivity..|discriminate]. Qed.

(** ** PolygonRasterizer *)

Lemma py_floats_Ok W texts coords :
  py_floats W texts = Ok coords →
  length coords = length texts
  ∧ ∀ t, t ∈ texts → is_Some (float_of_text W t).
Proof.
  revert coords; induction texts as [|t texts IH]; intros coords H; simpl in H.
  - injection H as <-. split; [done|]. intros t Ht. by apply elem_of_nil in Ht.
  - inv_bind H. inv_bind H. injection H as <-.
    destruct (IH _ Hv0) as [Hlen Hall]. split; [simpl; by rewrite Hlen|].
    intros t' Ht'. apply elem_of_cons in Ht' as [->|Ht']; [|by apply Hall].
    unfold py_float in Hv. destruct (float_of_text W t); [eauto|discriminate].
Qed.

Lemma py_floats_Raise W texts e :
  py_floats W texts = Raise e → ∃ t, t ∈ texts ∧ float_of_text W t = None.
Proof.
  induction texts as [|t texts IH]; intros H; simpl in H; [discriminate|].
  unfold py_float in H. destruct (float_of_text W t) as [f|] eqn:Hf.
  - simpl in H. destruct (py_floats W texts) as [fs|e'] eqn:Hfs; [discriminate|].
    destruct IH as (t' & Ht' & Hnone); [done|]. exists t'. split; [by right|done].
  - exists t. split; [by left|done].
Qed.

Lemma py_floats_total W texts :
  (∀ t, t ∈ texts → is_Some (float_of_text W t)) →
  ∃ coords, py_floats W texts = Ok coords.
Proof.
  intros Hall. destruct (py_floats W texts) as [coords|e] eqn:H; [eauto|].
  apply py_floats_Raise in H as (t & Ht & Hnone).
  destruct (Hall t Ht) as [f Hf]. congruence.
Qed.

Lemma clamp_range v dim : 1 ≤ dim → 0 ≤ clamp v dim ≤ dim - 1.
Proof. unfold clamp. lia. Qed.

(** The points of an accepted line: one for each pair of coordinates, each
    coordinate denormalized, rounded and clamped. *)
Lemma polygon_points_spec coords width height pts :
  polygon_points coords width height = Ok pts →
  length coords = (2 * length pts)%nat
  ∧ ∀ (i : nat) px py, pts !! i = Some (px, py) →
      ∃ cx cy rx ry,
        coords !! (2 * i)%nat = Some cx ∧ coords !! (2 * i + 1)%nat = Some cy
        ∧ denormalize cx width = Ok rx ∧ denormalize cy height = Ok ry
        ∧ px = clamp rx width ∧ py = clamp ry height.
Proof.
  revert pts. induction coords as [coords IH] using (induction_ltof1 _ (@length _)).
  unfold ltof in IH. intros pts H.
  destruct coords as [|cx [|cy rest]]; simpl in H.
  - injection H as <-. split; [done|]. intros i px py Hi. done.
  - discriminate.
  - inv_bind H. inv_bind H. inv_bind H. injection H as <-.
    destruct (IH rest ltac:(simpl; lia) _ Hv1) as [Hlen Hpts].
    split; [simpl; lia|].
    intros i px py Hi. destruct i as [|i]; simpl in Hi.
    + injection Hi as <- <-. exists cx, cy, v, v0. done.
    + destruct (Hpts i px py Hi) as (cx' & cy' & rx & ry & H1 & H2 & ?).
      exists cx', cy', rx, ry. split; [|split; [|done]].
      * replace (2 * S i)%nat with (S (S (2 * i))) by lia. done.
      * replace (2 * S i + 1)%nat with (S (S (2 * i + 1))) by lia. done.
Qed.

(** What [_parse_polygon_line] answers when both the count of the tokens
    and their parsing are in order. *)
Lemma _parse_polygon_line_parsed W line width height p0 rest cls coords :
  PyStr.split line = p0 :: rest →
  (length (p0 :: rest) <? 7)%nat = false →
  Nat.even (length (p0 :: rest)) = false →
  int_of_text W p0 = Some cls →
  py_floats W rest = Ok coords →
  _parse_polygon_line W line width height
  = pts ← polygon_points coords width height; Ok (Some (cls, pts)).
Proof.
  intros Hparts Hlen Heven Hcls Hcoords. unfold _parse_polygon_line.
  rewrite Hparts, Hlen, Heven. simpl. unfold py_int. rewrite Hcls. simpl.
  rewrite Hcoords. simpl.
  destruct (polygon_points coords width height) as [pts|e] eqn:Hpts; [|done].
  simpl. destruct (polygon_points_spec _ _ _ _ Hpts) as [Hl _].
  destruct (py_floats_Ok _ _ _ Hcoords) as [Hl' _].
  apply Nat.ltb_ge in Hlen. simpl in Hlen.
  destruct (Nat.ltb_spec (length pts) 3); [lia|done].
Qed.

(** C9 (as amended): a line that lets no exception out is rejected exactly
    when it has fewer than 3 coordinate points, or its coordinates do not
    pair up, or its class id is outside [0, max_cls], or a token fails
    numeric parsing; for an accepted line the fill value is the class id
    plus one, and each coordinate is denormalized by the width or height of
    the image, rounded to a nearest integer and clamped to [0, dim - 1]. *)
Theorem polygon_line_verdict W line width height max_cls verdict :
  1 ≤ width → 1 ≤ height →
  mask_line W line width height max_cls = Ok verdict →
  let parts := PyStr.split line in
  (verdict = Rejected
   ↔ (point_count parts < 3)%nat ∨ unpaired_coordinate parts
     ∨ class_out_of_range W parts max_cls ∨ token_fails W parts)
  ∧ (∀ gray pts, verdict = Filled gray pts →
       ∃ p0 rest cls coords,
         parts = p0 :: rest ∧ int_of_text W p0 = Some cls
         ∧ 0 ≤ cls ≤ max_cls ∧ gray = cls + 1
         ∧ py_floats W rest = Ok coords
         ∧ length pts = point_count parts
         ∧ ∀ (i : nat) px py, pts !! i = Some (px, py) →
             ∃ cx cy fx fy rx ry,
               coords !! (2 * i)%nat = Some cx ∧ coords !! (2 * i + 1)%nat = Some cy
               ∧ PyFloat.mul_int cx width = Ok fx ∧ PyFloat.mul_int cy height = Ok fy
               ∧ PyFloat.round fx = Ok rx ∧ PyFloat.round fy = Ok ry
               ∧ nearest_integer fx rx ∧ nearest_integer fy ry
               ∧ px = clamp rx width ∧ py = clamp ry height
               ∧ 0 ≤ px ≤ width - 1 ∧ 0 ≤ py ≤ height - 1).
Proof.
  intros Hwidth Hheight Hrun parts.
  assert (Hsplit : PyStr.split line = parts) by done. clearbody parts.
  assert (Hcount : (point_count parts < 3)%nat ↔ (length parts <? 7)%nat = true).
  { unfold point_count. rewrite Nat.ltb_lt.
    split; intros H.
    - destruct (Nat.lt_ge_cases (length parts) 7) as [|Hge]; [done|]. exfalso.
      assert (3 ≤ (length parts - 1) / 2)%nat; [|lia].
      apply Nat.div_le_lower_bound; lia.
    - apply Nat.Div0.div_lt_upper_bound. lia. }
  unfold mask_line in Hrun.
  destruct (length parts <? 7)%nat eqn:Hlen.
  { (* too few tokens *)
    unfold _parse_polygon_line in Hrun. cbv zeta in Hrun.
    rewrite Hsplit, Hlen in Hrun. simpl in Hrun. injection Hrun as <-.
    split; [split; [intros _; left; by apply Hcount|done]|discriminate]. }
  destruct (Nat.even (length parts)) eqn:Heven.
  { (* an unpaired coordinate *)
    unfold _parse_polygon_line in Hrun. cbv zeta in Hrun.
    rewrite Hsplit, Hlen, Heven in Hrun. simpl in Hrun. injection Hrun as <-.
    split; [split; [intros _; right; by left|done]|discriminate]. }
  destruct parts as [|p0 rest]; [done|].
  assert (Hnot_few : ¬ (point_count (p0 :: rest) < 3)%nat)
    by (rewrite Hcount; congruence).
  assert (Hnot_odd : ¬ unpaired_coordinate (p0 :: rest))
    by (unfold unpaired_coordinate; congruence).
  destruct (int_of_text W p0) as [cls|] eqn:Hcls; cycle 1.
  { (* the class id does not parse *)
    unfold _parse_polygon_line in Hrun. cbv zeta in Hrun.
    rewrite Hsplit, Hlen, Heven in Hrun.
    unfold py_int in Hrun. rewrite Hcls in Hrun. simpl in Hrun.
    injection Hrun as <-. split; [|discriminate].
    split; [|done]. intros _. right; right; right.
    exists p0, rest. split; [done|by left]. }
  destruct (py_floats W rest) as [coords|e] eqn:Hcoords; cycle 1.
  { (* a coordinate does not parse *)
    unfold _parse_polygon_line in Hrun. cbv zeta in Hrun.
    rewrite Hsplit, Hlen, Heven in Hrun.
    unfold py_int in Hrun. rewrite Hcls in Hrun. simpl in Hrun.
    rewrite Hcoords in Hrun. simpl in Hrun.
    injection Hrun as <-. split; [|discriminate].
    split; [|done]. intros _. right; right; right.
    exists p0, rest. split; [done|right]. by eapply py_floats_Raise. }
  rewrite (_parse_polygon_line_parsed W line width height p0 rest cls coords
             Hsplit Hlen Heven Hcls Hcoords) in Hrun.
  destruct (polygon_points coords width height) as [pts|e] eqn:Hpts; [|done].
  simpl in Hrun.
  assert (Hparse : ¬ token_fails W (p0 :: rest)).
  { intros (p0' & rest' & [= <- <-] & [Hnone|(t & Ht & Hnone)]); [congruence|].
    destruct (py_floats_Ok _ _ _ Hcoords) as [_ Hall].
    destruct (Hall t Ht). congruence. }
  destruct ((cls <? 0) || (max_cls <? cls)) eqn:Hrange; injection Hrun as <-.
  - (* the class id is out of range *)
    split; [|discriminate]. split; [|done]. intros _. right; right; left.
    exists p0, rest, cls. split; [done|]. split; [done|].
    apply orb_true_iff in Hrange as [H|H]; apply Z.ltb_lt in H; lia.
  - (* the polygon is filled *)
    apply orb_false_iff in Hrange as [H1 H2].
    apply Z.ltb_ge in H1, H2.
    split.
    + split; [discriminate|].
      intros [?|[?|[(p0' & rest' & cls' & [= <- <-] & Hc & Hr)|?]]]; try done.
      rewrite Hcls in Hc. injection Hc as <-. lia.
    + intros gray pts' [= <- <-].
      destruct (polygon_points_spec _ _ _ _ Hpts) as [Hl Hall].
      destruct (py_floats_Ok _ _ _ Hcoords) as [Hl' _].
      exists p0, rest, cls, coords. repeat split; try done; try lia.
      * unfold point_count. simpl length. rewrite Nat.sub_succ, Nat.sub_0_r, <- Hl', Hl.
        by rewrite Nat.mul_comm, Nat.div_mul.
      * intros i px py Hi.
        destruct (Hall i px py Hi) as (cx & cy & rx & ry & Hx & Hy & Hdx & Hdy & -> & ->).
        unfold denormalize in Hdx, Hdy. inv_bind Hdx. inv_bind Hdy.
        exists cx, cy, v, v0, rx, ry.
        repeat split; try done; try (by apply round_nearest_integer);
          by apply clamp_range.
Qed.

Lemma polygon_line_verdict_witness :
  ∃ cls, Decimal.int_of_text "0" = Some cls ∧ 0 ≤ cls ≤ 254 ∧ 1 = cls + 1.
Proof.
  destruct (proj2 (polygon_line_verdict yolo_world "0 0.1 0.1 0.5 0.1 0.515 1.5"
                     100 100 254 (Filled 1 [(10, 10); (50, 10); (52, 99)])
                     ltac:(lia) ltac:(lia) eq_refl)
              1 [(10, 10); (50, 10); (52, 99)] eq_refl)
    as (p0 & rest & cls & coords & Hparts & Hcls & Hrange & Hgray & _).
  vm_compute in Hparts. injection Hparts as <- <-.
  exists cls. split; [exact Hcls|]. split; [exact Hrange|exact Hgray].
Defined.

(** The claim C9 as stated fails on a line with three points and one more
    coordinate: every token parses, the class id is in range, and the line
    is rejected. *)
Lemma polygon_line_with_unpaired_coordinate_is_rejected :
  let line := "0 0.1 0.1 0.5 0.1 0.5 0.5 0.3" in
  let parts := PyStr.split line in
  mask_line yolo_world line 100 100 254 = Ok Rejected
  ∧ ¬ ((point_count parts < 3)%nat
       ∨ class_out_of_range yolo_world parts 254
       ∨ token_fails yolo_world parts).
Proof.
  split; [vm_compute; reflexivity|].
  intros [H|[H|H]].
  - vm_compute in H. lia.
  - destruct H as (p0 & rest & cls & Heq & Hcls & Hr).
    vm_compute in Heq. injection Heq as <- <-.
    vm_compute in Hcls. injection Hcls as <-. lia.
  - destruct H as (p0 & rest & Heq & H).
    vm_compute in Heq. injection Heq as <- <-.
    destruct H as [H|(t & Ht & H)]; [vm_compute in H; discriminate|].
    repeat (apply elem_of_cons in Ht as [->|Ht]; [vm_compute in H; discriminate|]).
    by apply elem_of_nil in Ht.
Qed.

(** A coordinate that parses to a NaN is not rejected with its line: the
    exception of [round] leaves [_parse_polygon_line] and the whole file
    gets no mask, though its other line alone gives one. *)
Lemma polygon_file_with_nan_has_no_mask :
  mask_polygons nan_world
    ["0 nan 0.1 0.5 0.1 0.5 0.5"; "0 0.1 0.1 0.5 0.1 0.5 0.5"] 100 100 254
  = None
  ∧ mask_polygons nan_world ["0 0.1 0.1 0.5 0.1 0.5 0.5"] 100 100 254
    = Some [(1, [(10, 10); (50, 10); (50, 50)])].
Proof. split; vm_compute; reflexivity. Qed.

(** ** hk: the deepest tag *)


Lemma collect_tags_map (f : json → result json) (g : json → json) l :
  Forall (λ c, f c = Ok (g c)) l →
  collect_tags (map f l) = Ok (List.filter Json.truthy (map g l)).
Proof.
  induction 1 as [|c l Hc _ IH]; simpl; [done|].
  rewrite Hc, IH. by destruct (Json.truthy (g c)).
Qed.

Lemma head_filter_find (vals : list json) (own : json) :
  match List.filter Json.truthy vals with
  | tag :: _ => tag
  | [] => own
  end = default own (find Json.truthy vals).
Proof.
  induction vals as [|v vals IH]; simpl; [done|].
  by destruct (Json.truthy v).
Qed.

(** [find_deepest_tag] is the function the source writes: [children] is
    looked up, then examined. *)
Lemma find_deepest_tag_unfold item :
  find_deepest_tag item = find_deepest_tag_body item.
Proof.
  destruct item as [| | | | | |kv]; try reflexivity.
  unfold find_deepest_tag_body. simpl.
  set (own := default (JStr "") (Json.lookup "tagName" kv)). clearbody own.
  induction kv as [|[k v] kv IH]; simpl; [done|].
  destruct (String.eqb k "children"); [|exact IH].
  destruct v as [|[]|z|f|[|c s]|[|c l]|[|p kv']]; simpl; try reflexivity.
  - by destruct (z =? 0).
  - by destruct (PrimFloat.eqb f PrimFloat.zero).
Qed.

Lemma deepest_tag_spec_unfold kv :
  deepest_tag_spec (JObj kv)
  = let own := default (JStr "") (Json.lookup "tagName" kv) in
    match Json.lookup "children" kv with
    | Some (JArr l) => default own (find Json.truthy (map deepest_tag_spec l))
    | _ => own
    end.
Proof.
  simpl. set (own := default (JStr "") (Json.lookup "tagName" kv)). clearbody own.
  induction kv as [|[k v] kv IH]; simpl; [done|].
  destruct (String.eqb k "children"); [|exact IH].
  by destruct v.
Qed.

Lemma hk_node_unfold kv :
  hk_node (JObj kv)
  = match Json.lookup "children" kv with
    | Some (JArr l) => forallb hk_node l
    | Some children => negb (Json.truthy children)
    | None => true
    end.
Proof.
  simpl. induction kv as [|[k v] kv IH]; simpl; [done|].
  destruct (String.eqb k "children"); [|exact IH].
  by destruct v.
Qed.

Lemma lookup_value_elem k kv v :
  Json.lookup k kv = Some v → ∃ p, p ∈ kv ∧ p.2 = v.
Proof.
  induction kv as [|[k' v'] kv IH]; simpl; [done|].
  destruct (String.eqb k' k).
  - intros [= ->]. exists (k', v). split; [by left|done].
  - intros H. destruct (IH H) as (p & Hp & Hv). exists p. split; [by right|done].
Qed.

(** On a node of an hk tree the function returns, and what it returns is
    the deepest tag of the specification. *)
Lemma find_deepest_tag_spec item :
  hk_node item = true → find_deepest_tag item = Ok (deepest_tag_spec item).
Proof.
  pose (Q := λ j, hk_node j = true → find_deepest_tag j = Ok (deepest_tag_spec j)).
  enough (HP : Q item ∧ match item with JArr l => Forall Q l | _ => True end)
    by apply HP.
  induction item as [| | | | |l IH|kv IH] using json_induction;
    try (split; [discriminate|done]).
  - split; [discriminate|]. eapply Forall_impl; [exact IH|]. by intros j [? _].
  - split; [|done]. intros Hnode.
    rewrite find_deepest_tag_unfold, deepest_tag_spec_unfold.
    rewrite hk_node_unfold in Hnode. unfold find_deepest_tag_body. simpl.
    destruct (Json.lookup "children" kv) as [children|] eqn:Hchildren; [|done].
    destruct children as [| | | | |l|]; simpl in Hnode |- *;
      try done; try (by rewrite Hnode).
    simpl.
    apply lookup_value_elem in Hchildren as (p & Hp & Hv).
    rewrite Forall_forall in IH. destruct (IH p Hp) as [_ Hl]. rewrite Hv in Hl.
    assert (Hall : Forall (λ c, find_deepest_tag c = Ok (deepest_tag_spec c)) l).
    { rewrite Forall_forall in Hl |- *. intros c Hc. apply Hl; [done|].
      rewrite forallb_forall in Hnode. apply Hnode. by apply list_elem_of_In. }
    rewrite (collect_tags_map _ _ _ Hall). simpl.
    destruct l as [|c l']; [done|]. cbn [Json.truthy negb].
    rewrite <- head_filter_find.
    by destruct (List.filter Json.truthy (map deepest_tag_spec (c :: l'))).
Qed.

(** C7: on every node [{tagName, children}] of an hk annotation tree the
    category name the code computes is the deepest tag of the
    specification: the children are descended depth-first and the first
    child branch that yields a non-empty tag gives the result; a node with
    no children, or none of whose branches yields a non-empty tag, gives
    its own [tagName]. *)
Theorem deepest_tag_resolution item :
  hk_node item = true →
  _get_deepest_category_name item = Ok (deepest_tag_spec item)
  ∧ (∀ kv, item = JObj kv →
       let own := default (JStr "") (Json.lookup "tagName" kv) in
       match Json.lookup "children" kv with
       | Some (JArr (first :: others)) =>
           (Json.truthy (deepest_tag_spec first) = true →
            deepest_tag_spec item = deepest_tag_spec first)
           ∧ (Json.truthy (deepest_tag_spec first) = false →
              deepest_tag_spec item = deepest_tag_spec (JObj [("tagName", own);
                                                             ("children", JArr others)]))
       | _ => deepest_tag_spec item = own
       end).
Proof.
  intros Hnode. split; [by apply find_deepest_tag_spec|].
  intros kv -> own. rewrite !deepest_tag_spec_unfold. fold own.
  destruct (Json.lookup "children" kv) as [[| | | | |[|c l]|]|]; try done.
  cbn [map find]. split; intros ->; [done|].
  simpl. done.
Qed.

Lemma deepest_tag_resolution_witness :
  _get_deepest_category_name hk_example = Ok (JStr "sedan").
Proof.
  exact (proj1 (deepest_tag_resolution hk_example eq_refl)).
Defined.

(** ** FileMatcher *)

(** C1 (the code departs from the claim): when two annotation files of a
    JSON format name the same image, [match_files] pairs the image with
    both — the pair is appended before [unmatched_images.remove] raises —
    and the second file is in [matched_pairs] and in
    [unmatched_annotations] at once. *)
Theorem shared_image_is_paired_twice :
  match_files shared_image_world "ann" "img" coco_single
  = Ok (mkMatch [("a.json", "x.jpg"); ("b.json", "x.jpg")] ["b.json"] ["y.png"])
  ∧ match_files shared_image_world "ann" "img" labelme
    = Ok (mkMatch [("a.json", "x.jpg"); ("b.json", "x.jpg")] ["b.json"] ["y.png"])
  ∧ match_files shared_image_world "ann" "img" hk
    = Ok (mkMatch [("a.json", "x.jpg"); ("b.json", "x.jpg")] ["b.json"] ["y.png"]).
Proof. repeat split; vm_compute; reflexivity. Qed.


Lemma list_remove_Ok x l l' :
  NoDup l → list_remove x l = Ok l' → x ∈ l ∧ l' = filter (λ y, y ≠ x) l.
Proof.
  revert l'; induction l as [|y l IH]; intros l' Hnd H; simpl in H; [done|].
  apply NoDup_cons in Hnd as [Hy Hnd].
  destruct (String.eqb_spec y x) as [->|Hne].
  - injection H as <-. split; [by left|].
    rewrite filter_cons_False by (by intros ?). symmetry.
    apply filter_ext_elem_id. intros z Hz ->. done.
  - inv_bind H. injection H as <-. destruct (IH _ Hnd Hv) as [Hin ->].
    split; [by right|]. by rewrite filter_cons_True.
Qed.

Lemma list_remove_Raise x l e : list_remove x l = Raise e → x ∉ l.
Proof.
  induction l as [|y l IH]; simpl; intros H; [by intros ?%elem_of_nil|].
  destruct (String.eqb_spec y x) as [->|Hne]; [discriminate|].
  destruct (list_remove x l) as [l'|e'] eqn:Hl; [discriminate|].
  intros [->|Hin]%elem_of_cons; [done|]. by eapply IH.
Qed.

Lemma not_in_pairs_snoc (pairs : list (string * string)) ann img f :
  f ∉ map snd (pairs ++ [(ann, img)]) ↔ f ≠ img ∧ f ∉ map snd pairs.
Proof.
  rewrite map_app, elem_of_app. simpl. rewrite list_elem_of_singleton. tauto.
Qed.

Lemma matcher_step_paired image_files acc ann img ua rest :
  NoDup image_files → matcher_invariant image_files acc →
  img ∈ image_files →
  list_remove img (unmatched_images acc) = Ok rest →
  matcher_invariant image_files (mkMatch (matched_pairs acc ++ [(ann, img)]) ua rest)
  ∧ img ∉ map snd (matched_pairs acc).
Proof.
  intros Hnd [Hui Hin] Himg Hremove.
  assert (Hnd' : NoDup (unmatched_images acc)) by (rewrite Hui; by apply NoDup_filter).
  destruct (list_remove_Ok _ _ _ Hnd' Hremove) as [Hmem ->].
  split; [split|]; simpl.
  - rewrite Hui, list_filter_filter. apply list_filter_iff. intros f.
    by rewrite not_in_pairs_snoc.
  - intros pair [Hp|Hp]%elem_of_app; [by apply Hin|].
    apply list_elem_of_singleton in Hp. by subst pair.
  - rewrite Hui in Hmem. by apply list_elem_of_filter in Hmem as [? _].
Qed.

Lemma matcher_step_repeated image_files acc ann img ua e :
  matcher_invariant image_files acc →
  img ∈ image_files →
  list_remove img (unmatched_images acc) = Raise e →
  matcher_invariant image_files
    (mkMatch (matched_pairs acc ++ [(ann, img)]) ua (unmatched_images acc))
  ∧ img ∈ map snd (matched_pairs acc).
Proof.
  intros [Hui Hin] Himg Hremove. apply list_remove_Raise in Hremove.
  assert (Hpaired : img ∈ map snd (matched_pairs acc)).
  { destruct (decide (img ∈ map snd (matched_pairs acc))) as [|Hno]; [done|].
    exfalso. apply Hremove. rewrite Hui. by apply list_elem_of_filter. }
  split; [split|done]; simpl.
  - rewrite Hui. apply list_filter_iff. intros f. rewrite not_in_pairs_snoc.
    split; [|tauto]. intros Hf. split; [|done]. by intros ->.
  - intros pair [Hp|Hp]%elem_of_app; [by apply Hin|].
    apply list_elem_of_singleton in Hp. by subst pair.
Qed.

Lemma find_by_base_name_elem base image_files img :
  find_by_base_name base image_files = Some img → img ∈ image_files.
Proof.
  unfold find_by_base_name. intros H. apply find_some in H as [_ H].
  unfold PyStr.mem in H. by apply bool_decide_eq_true in H.
Qed.

Lemma match_by_base_name_invariant image_files ann acc acc' :
  NoDup image_files → matcher_invariant image_files acc →
  NoDup (map snd (matched_pairs acc)) →
  match_by_base_name image_files ann acc = Ok acc' →
  matcher_invariant image_files acc' ∧ NoDup (map snd (matched_pairs acc')).
Proof.
  intros Hnd Hinv Hpairs. unfold match_by_base_name.
  destruct (find_by_base_name _ image_files) as [img|] eqn:Hfind;
    [|intros [= <-]; by split].
  destruct (truthy_name (Some img)); [|intros [= <-]; by split].
  intros H. inv_bind H. injection H as <-.
  destruct (matcher_step_paired image_files acc ann img (unmatched_annotations acc) v)
    as [Hinv' Hfresh]; [done|done|by eapply find_by_base_name_elem|done|].
  split; [done|]. simpl. rewrite map_app. apply NoDup_app. split; [done|].
  split; [|apply NoDup_singleton].
  intros f Hf Hf'. apply list_elem_of_singleton in Hf'. simpl in Hf'. by subst f.
Qed.

Lemma match_by_content_invariant image_files ann img_name acc :
  NoDup image_files → matcher_invariant image_files acc →
  matcher_invariant image_files (match_by_content image_files ann img_name acc).
Proof.
  intros Hnd Hinv. unfold match_by_content.
  destruct img_name as [[img|]|e]; try done.
  destruct (truthy_name (Some img) && PyStr.mem img image_files) eqn:Hcheck; [|done].
  apply andb_true_iff in Hcheck as [_ Hmem].
  unfold PyStr.mem in Hmem. apply bool_decide_eq_true in Hmem.
  destruct (list_remove img (unmatched_images acc)) as [rest|e] eqn:Hremove.
  - by eapply matcher_step_paired.
  - by eapply matcher_step_repeated.
Qed.

Lemma match_loop_invariant W ap format_type image_files anns acc m :
  NoDup image_files →
  (∃ acc0, acc = Ok acc0 ∧ matcher_invariant image_files acc0
           ∧ (format_type = yolo ∨ format_type = voc →
              NoDup (map snd (matched_pairs acc0)))) →
  fold_left (match_step W ap format_type image_files) anns acc = Ok m →
  matcher_invariant image_files m
  ∧ (format_type = yolo ∨ format_type = voc → NoDup (map snd (matched_pairs m))).
Proof.
  intros Hnd. revert acc. induction anns as [|ann anns IH]; intros acc Hacc H.
  - destruct Hacc as (acc0 & -> & ? & ?). simpl in H. injection H as <-. done.
  - simpl in H. destruct Hacc as (acc0 & -> & Hinv & Hpairs).
    destruct (match_step W ap format_type image_files (Ok acc0) ann) as [acc1|e] eqn:Hstep.
    + apply (IH (Ok acc1)); [|done]. exists acc1. split; [done|].
      unfold match_step in Hstep. simpl in Hstep.
      destruct format_type.
      * destruct (match_by_base_name_invariant _ _ _ _ Hnd Hinv (Hpairs (or_introl eq_refl)) Hstep).
        done.
      * destruct (match_by_base_name_invariant _ _ _ _ Hnd Hinv (Hpairs (or_intror eq_refl)) Hstep).
        done.
      * injection Hstep as <-. split; [by apply match_by_content_invariant|].
        by intros [|].
      * injection Hstep as <-. split; [by apply match_by_content_invariant|].
        by intros [|].
      * injection Hstep as <-. split; [by apply match_by_content_invariant|].
        by intros [|].
    + exfalso. clear -H. induction anns as [|a anns IH]; [done|]. simpl in H. by apply IH.
Qed.

(** X3: what [match_files] guarantees whenever it returns, the names of the
    image directory being distinct: an image file is unmatched exactly when
    it is in no pair, the image of every pair is an image file, and with
    [yolo] and [voc] no image is in two pairs. *)
Lemma match_files_accounts_for_images W ap ip format_type m :
  NoDup (listdir W ip) →
  match_files W ap ip format_type = Ok m →
  let image_files := filter (λ f, is_image_file f) (listdir W ip) in
  unmatched_images m = filter (λ f, f ∉ map snd (matched_pairs m)) image_files
  ∧ (∀ pair, pair ∈ matched_pairs m → pair.2 ∈ image_files)
  ∧ (format_type = yolo ∨ format_type = voc → NoDup (map snd (matched_pairs m))).
Proof.
  intros Hnd Hrun image_files. unfold match_files in Hrun. fold image_files in Hrun.
  assert (Hnd' : NoDup image_files) by (by apply NoDup_filter).
  assert (Hstart : matcher_invariant image_files (mkMatch [] [] image_files)).
  { split; simpl.
    - symmetry. apply filter_ext_elem_id. intros f _. by intros ?%elem_of_nil.
    - by intros pair ?%elem_of_nil. }
  edestruct (match_loop_invariant W ap format_type image_files) as [[? ?] ?];
    [exact Hnd'| |exact Hrun|done].
  eexists. split; [done|]. split; [done|]. intros _. simpl. constructor.
Qed.

(** ** The store between the parsers and the quality check *)

Lemma yolo_lines_preserves (P : AnnotationConverter → Prop)
    W img img_w img_h cm lines st :
  (∀ b st, P st → P (add_annotation img b st)) →
  P st → P (yolo_lines W img img_w img_h cm lines st).1.
Proof.
  intros Hadd. revert st; induction lines as [|line lines IH]; intros st Hst; simpl.
  - done.
  - destruct (yolo_line W img_w img_h cm line) as [[b|]|e]; simpl; auto.
Qed.

Lemma add_entries_preserves {A} (P : AnnotationConverter → Prop)
    img (extract : A → result (option RawBox)) entries st :
  (∀ b st, P st → P (add_annotation img b st)) →
  P st → P (add_entries img extract entries st).
Proof.
  intros Hadd. unfold add_entries.
  revert st; induction entries as [|e entries IH]; intros st Hst; simpl; [done|].
  apply IH. destruct (extract e) as [[b|]|]; auto.
Qed.

(** A property of the store that appending an image and registering an
    annotation keep is kept by a whole file pair, whatever the format. *)
Lemma _process_file_pair_preserves (P : AnnotationConverter → Prop)
    W ap ip ann_file img_file format_type cm st :
  (∀ img b st, P st → P (add_annotation img b st)) →
  (∀ name size st, P st → P (push_image name size st)) →
  P st → P (_process_file_pair W ap ip ann_file img_file format_type cm st).1.
Proof.
  intros Hadd Hpush Hst. unfold _process_file_pair.
  destruct (image_size W ip img_file) as [[img_w img_h]|e]; simpl; [|done].
  destruct format_type; simpl.
  - unfold _process_yolo_file. destruct (read_lines _ _ _); simpl;
      [apply yolo_lines_preserves|]; auto.
  - unfold _process_voc_file. destruct (read_xml_objects _ _ _);
      [apply add_entries_preserves|]; auto.
  - unfold _process_coco_single_file. destruct (json_entries _ _ _ _);
      [apply add_entries_preserves|]; auto.
  - unfold _process_labelme_file. destruct (json_entries _ _ _ _);
      [apply add_entries_preserves|]; auto.
  - unfold _process_hk_file. destruct (json_entries _ _ _ _);
      [apply add_entries_preserves|]; auto.
Qed.

Lemma build_store_preserves (P : AnnotationConverter → Prop)
    W ap ip format_type cm include_unmatched m :
  P reset →
  (∀ img b st, P st → P (add_annotation img b st)) →
  (∀ name size st, P st → P (push_image name size st)) →
  Forall P (build_stages W ap ip format_type cm include_unmatched m)
  ∧ P (build_store W ap ip format_type cm include_unmatched m).
Proof.
  intros H0 Hadd Hpush. apply build_stages_invariant; [done| |].
  - intros st a i Hst. by apply _process_file_pair_preserves.
  - intros st i Hst. unfold add_unmatched_image.
    destruct (image_size W ip i); auto.
Qed.

Lemma ensure_category_annotations name st :
  annotations (ensure_category name st) = annotations st.
Proof. unfold ensure_category. by destruct (cat2id st !! name). Qed.

Lemma add_annotation_areas img b st :
  areas_recorded st → areas_recorded (add_annotation img b st).
Proof.
  intros Hst. unfold add_annotation.
  destruct (Num.mul _ _) as [area|] eqn:Harea.
  - intros a Ha. simpl in Ha. rewrite ensure_category_annotations in Ha.
    apply elem_of_app in Ha as [Ha|Ha]; [by apply Hst|].
    apply list_elem_of_singleton in Ha. subst a. exact Harea.
  - intros a Ha. rewrite ensure_category_annotations in Ha. by apply Hst.
Qed.

(** What the renumbering keeps of an annotation. *)
Lemma number_annotations_origin first (M : gmap Z Z) anns ann' :
  ann' ∈ number_annotations first M anns →
  ∃ ann, ann ∈ anns ∧ ann_category_id ann' = ann_category_id ann
         ∧ ann_bbox ann' = ann_bbox ann ∧ ann_area ann' = ann_area ann.
Proof.
  revert first; induction anns as [|a anns IH]; intros first H; simpl in H.
  - by apply elem_of_nil in H.
  - destruct (M !! ann_image_id a) as [new|] eqn:HM.
    + apply elem_of_cons in H as [->|H].
      * exists a. split; [by left|done].
      * destruct (IH _ H) as (b & ? & ?). exists b. split; [by right|done].
    + destruct (IH _ H) as (b & ? & ?). exists b. split; [by right|done].
Qed.

(** Every annotation the filter leaves is one it kept, up to its
    identifiers. *)
Lemma quality_filter_origin t st st' ann' :
  _check_and_filter_small_boxes t st = Ok st' →
  ann' ∈ annotations st' →
  ∃ ann, ann ∈ annotations st ∧ is_small t ann = false
         ∧ (∃ area, bbox_area ann = Ok area)
         ∧ ann_category_id ann' = ann_category_id ann
         ∧ ann_bbox ann' = ann_bbox ann ∧ ann_area ann' = ann_area ann.
Proof.
  intros Hrun Hin.
  assert (Harea : ∀ a, a ∈ annotations st → ∃ area, bbox_area a = Ok area).
  { unfold _check_and_filter_small_boxes in Hrun.
    destruct (annotations st) as [|a0 anns] eqn:Hanns; [by intros a ?%elem_of_nil|].
    inv_bind Hrun. destruct (collect_small_boxes_ids _ _ _ Hv) as [_ Hall].
    intros a Ha. specialize (Hall a Ha).
    destruct (bbox_area a) as [area|]; [eauto|by destruct Hall]. }
  assert (Hcases := Hrun). apply quality_filter_cases in Hcases as [->|(small & -> & Hids)].
  - exists ann'. split; [done|]. split; [|by split; [apply Harea|]].
    unfold _check_and_filter_small_boxes in Hrun.
    destruct (annotations st) as [|a0 anns] eqn:Hanns; [by apply elem_of_nil in Hin|].
    inv_bind Hrun. destruct (collect_small_boxes_ids _ _ _ Hv) as [Hids _].
    destruct v as [|sb small].
    + symmetry in Hids. apply map_eq_nil in Hids.
      destruct (is_small t ann') eqn:Hs; [|done].
      assert (ann' ∈ filter (λ a, is_small t a) (a0 :: anns)) as Hf.
      { apply list_elem_of_filter. split; [by rewrite Hs|done]. }
      rewrite Hids in Hf. by apply elem_of_nil in Hf.
    + injection Hrun as Hst.
      assert (annotations (_remove_small_boxes (sb :: small) t st) = a0 :: anns)
        by (by rewrite Hst).
      (* the store is its own filtered image: go through the general case *)
      destruct (_remove_small_boxes_spec (sb :: small) t st ltac:(by rewrite Hanns))
        as (_ & M & _ & Ha & _).
      rewrite Hst, Hanns in Ha.
      assert (Hin' : ann' ∈ number_annotations 1 M (kept_annotations t st))
        by (by rewrite <- Ha).
      apply number_annotations_origin in Hin' as (a & Hk & _ & Hb & _).
      apply kept_annotation_not_small in Hk as [_ Hk].
      unfold is_small, bbox_area in Hk |- *. rewrite Hb. exact Hk.
  - destruct (_remove_small_boxes_spec small t st Hids) as (_ & M & _ & Ha & _).
    rewrite Ha in Hin. apply number_annotations_origin in Hin as (a & Hk & ? & ? & ?).
    apply kept_annotation_not_small in Hk as [Hk1 Hk2].
    exists a. repeat split; auto.
Qed.

Lemma quality_check_is_identity t st :
  (∀ ann, ann ∈ annotations st →
          (∃ area, bbox_area ann = Ok area) ∧ is_small t ann = false) →
  _check_and_filter_small_boxes t st = Ok st.
Proof.
  intros Hall. unfold _check_and_filter_small_boxes.
  destruct (annotations st) as [|a0 anns] eqn:Hanns; [done|].
  destruct (collect_small_boxes_total t (a0 :: anns)) as [small Hsmall].
  { intros a Ha. exact (proj1 (Hall a Ha)). }
  rewrite Hsmall. simpl.
  destruct (collect_small_boxes_ids _ _ _ Hsmall) as [Hids _].
  rewrite filter_none in Hids.
  - apply map_eq_nil in Hids. by subst small.
  - intros a Ha. destruct (Hall a Ha) as [_ Hs]. rewrite Hs. intros [].
Qed.

(** X11: whenever the quality check returns, no annotation of the store it
    returns has an area strictly below the threshold (and the area of each
    can be computed). *)
Theorem quality_filter_leaves_no_small_box t st st' :
  _check_and_filter_small_boxes t st = Ok st' →
  ∀ ann, ann ∈ annotations st' →
         ∃ area, bbox_area ann = Ok area ∧ Num.ltb area (NInt t) = false.
Proof.
  intros Hrun ann' Hin.
  destruct (quality_filter_origin _ _ _ _ Hrun Hin)
    as (a & _ & Hs & [area Harea] & _ & Hb & _).
  exists area. unfold is_small in Hs. unfold bbox_area in *.
  rewrite Hb. rewrite Harea in Hs. by split.
Qed.

Lemma quality_filter_leaves_no_small_box_witness :
  ∃ st', _check_and_filter_small_boxes 25 example_store = Ok st'
         ∧ ∀ ann, ann ∈ annotations st' →
                  ∃ area, bbox_area ann = Ok area ∧ Num.ltb area (NInt 25) = false.
Proof.
  eexists. split; [vm_compute; reflexivity|].
  apply (quality_filter_leaves_no_small_box 25 example_store). vm_compute. reflexivity.
Defined.

(** X12: the quality check is idempotent: run on the store it returned,
    with the same threshold, it returns that store unchanged, identifiers
    included. *)
Theorem quality_filter_is_idempotent t st st' :
  _check_and_filter_small_boxes t st = Ok st' →
  _check_and_filter_small_boxes t st' = Ok st'.
Proof.
  intros Hrun. apply quality_check_is_identity. intros ann' Hin.
  destruct (quality_filter_origin _ _ _ _ Hrun Hin)
    as (a & _ & Hs & [area Harea] & _ & Hb & _).
  unfold is_small, bbox_area in *. rewrite Hb. split; [eauto|done].
Qed.

Lemma quality_filter_is_idempotent_witness :
  ∃ st', _check_and_filter_small_boxes 25 example_store = Ok st'
         ∧ st' ≠ example_store
         ∧ _check_and_filter_small_boxes 25 st' = Ok st'.
Proof.
  eexists. split; [vm_compute; reflexivity|]. split; [discriminate|].
  apply (quality_filter_is_idempotent 25 example_store). vm_compute. reflexivity.
Defined.

(** X9: the [area] of every annotation is the product of the width and
    the height of its [bbox], at every stage of the conversion pathway and
    in the store [convert_to_coco] returns, filtered or not. So the loop of
    the quality check that multiplies width by height finds the area of
    every box of a store the converter built: it cannot raise there. *)
Theorem areas_are_recorded_at_every_stage
    W ap ip format_type cm include_unmatched t m :
  Forall areas_recorded (build_stages W ap ip format_type cm include_unmatched m)
  ∧ (∃ small_boxes,
        collect_small_boxes t
          (annotations (build_store W ap ip format_type cm include_unmatched m))
        = Ok small_boxes)
  ∧ (∀ flag st',
        convert_to_coco W ap ip format_type cm include_unmatched t = Ok (flag, st') →
        areas_recorded st').
Proof.
  assert (Hbuild : ∀ m,
    Forall areas_recorded (build_stages W ap ip format_type cm include_unmatched m)
    ∧ areas_recorded (build_store W ap ip format_type cm include_unmatched m)).
  { intros m'. apply (build_store_preserves areas_recorded).
    - by intros a ?%elem_of_nil.
    - intros img b st. apply add_annotation_areas.
    - by intros name size st Hst. }
  split; [apply Hbuild|]. split.
  - apply collect_small_boxes_total. intros a Ha. exists (ann_area a).
    by apply (proj2 (Hbuild m)).
  - intros flag st' Hrun.
    apply convert_to_coco_store in Hrun as [->|[m' Hrun]];
      [by intros a ?%elem_of_nil|].
    intros ann' Hin.
    destruct (quality_filter_origin _ _ _ _ Hrun Hin) as (a & Ha & _ & _ & _ & Hb & Hr).
    unfold bbox_area. rewrite Hb, Hr. by apply (proj2 (Hbuild m')).
Qed.

Lemma areas_are_recorded_at_every_stage_witness :
  ∃ st', convert_to_coco yolo_world "ann" "img" yolo None true 25 = Ok (true, st')
         ∧ map ann_area (annotations st') = [NInt 1600]
         ∧ areas_recorded st'.
Proof.
  eexists. split; [vm_compute; reflexivity|]. split; [vm_compute; reflexivity|].
  apply (proj2 (proj2 (areas_are_recorded_at_every_stage
                         yolo_world "ann" "img" yolo None true 25 (mkMatch [] [] [])))
           true).
  vm_compute. reflexivity.
Defined.

Lemma ensure_category_lookup name st :
  ∃ id, cat2id (ensure_category name st) !! name = Some id.
Proof.
  unfold ensure_category. destruct (cat2id st !! name) as [id|] eqn:Hl; [eauto|].
  simpl. exists (cat_count st). apply lookup_insert_eq.
Qed.

Lemma add_annotation_references img b st :
  category_invariant st ∧ category_references st →
  category_invariant (add_annotation img b st)
  ∧ category_references (add_annotation img b st).
Proof.
  intros [HC HR]. split; [by apply (grows_invariant _ _ _ (add_annotation_grows img b st))|].
  unfold add_annotation.
  set (st1 := ensure_category (raw_category b) st).
  assert (HC1 : category_invariant st1) by (by apply ensure_category_invariant).
  assert (HR1 : category_references st1).
  { intros a Ha. unfold st1 in Ha. rewrite ensure_category_annotations in Ha.
    specialize (HR a Ha). rewrite map_is_fmap in HR |- *.
    destruct (ensure_category_prefix (raw_category b) st) as [k Hk].
    fold st1 in Hk. rewrite Hk, fmap_app, elem_of_app. by left. }
  destruct (Num.mul _ _) as [area|]; [|done].
  intros a Ha. simpl in Ha |- *. apply elem_of_app in Ha as [Ha|Ha]; [by apply HR1|].
  apply list_elem_of_singleton in Ha. subst a. simpl.
  destruct (ensure_category_lookup (raw_category b) st) as [id Hid]. fold st1 in Hid.
  rewrite (lookup_total_correct _ _ _ Hid).
  apply (cat2id_agrees _ HC1) in Hid.
  rewrite map_is_fmap. apply list_elem_of_fmap. by exists (mkCategory id (raw_category b)).
Qed.

(** X8: at every stage of the conversion pathway — after [reset], after
    each file pair, after each image added without annotation, and in the
    store [convert_to_coco] returns, filtered or not — the [category_id] of
    every annotation is the [id] of a category of the list. *)
Theorem category_references_hold_at_every_stage
    W ap ip format_type cm include_unmatched t m :
  Forall category_references
         (build_stages W ap ip format_type cm include_unmatched m)
  ∧ (∀ flag st',
        convert_to_coco W ap ip format_type cm include_unmatched t = Ok (flag, st') →
        category_references st').
Proof.
  assert (Hbuild : ∀ m,
    Forall (λ st, category_invariant st ∧ category_references st)
           (build_stages W ap ip format_type cm include_unmatched m)
    ∧ (category_invariant (build_store W ap ip format_type cm include_unmatched m)
       ∧ category_references (build_store W ap ip format_type cm include_unmatched m))).
  { intros m'. apply (build_store_preserves
             (λ st, category_invariant st ∧ category_references st)).
    - split; [apply reset_invariants|by intros a ?%elem_of_nil].
    - intros img b st. apply add_annotation_references.
    - intros name size st [HC HR]. split; [by apply push_image_categories|done]. }
  split.
  - eapply Forall_impl; [apply Hbuild|]. by intros st [_ ?].
  - intros flag st' Hrun.
    apply convert_to_coco_store in Hrun as [->|[m' Hrun]];
      [by intros a ?%elem_of_nil|].
    destruct (Hbuild m') as [_ [_ HR]].
    intros ann' Hin.
    destruct (quality_filter_origin _ _ _ _ Hrun Hin) as (a & Ha & _ & _ & Hc & _).
    rewrite Hc.
    assert (Hcat : categories st'
                   = categories (build_store W ap ip format_type cm include_unmatched m')).
    { apply quality_filter_cases in Hrun as [->|(small & -> & _)]; [done|].
      by destruct (_remove_small_boxes_fields small t
                     (build_store W ap ip format_type cm include_unmatched m'))
        as (_ & _ & ? & _). }
    rewrite Hcat. by apply HR.
Qed.

Lemma category_references_hold_at_every_stage_witness :
  ∃ st', convert_to_coco yolo_world "ann" "img" yolo None true 25 = Ok (true, st')
         ∧ map ann_category_id (annotations st') = [0]
         ∧ category_references st'.
Proof.
  eexists. split; [vm_compute; reflexivity|]. split; [vm_compute; reflexivity|].
  apply (proj2 (category_references_hold_at_every_stage
                  yolo_world "ann" "img" yolo None true 25 (mkMatch [] [] [])) true).
  vm_compute. reflexivity.
Defined.

Lemma pair_step_images W ap ip format_type cm st ann_file img_file :
  images (pair_step W ap ip format_type cm st (ann_file, img_file))
  = images st
    ++ match image_size W ip img_file with
       | Ok size => [mkImage img_file (img_count st) size.1 size.2]
       | Raise _ => []
       end.
Proof.
  unfold pair_step, _process_file_pair. simpl.
  destruct (image_size W ip img_file) as [[img_w img_h]|e]; simpl;
    [|by rewrite app_nil_r].
  pose proof (parser_grows W ap ann_file (img_count st) img_w img_h format_type cm
                (push_image img_file (img_w, img_h) st)) as Hg.
  apply grows_images in Hg. by destruct format_type.
Qed.

(** The images a list of named files adds to the store, the size of each
    as [Image.open] reports it; the files that do not open add nothing. *)
Lemma opened_images_fold {B} W ip (f : AnnotationConverter → B → AnnotationConverter)
    (name : B → string) l st :
  (∀ st b, images (f st b)
           = images st
             ++ match image_size W ip (name b) with
                | Ok size => [mkImage (name b) (img_count st) size.1 size.2]
                | Raise _ => []
                end) →
  map img_file_name (images (fold_left f l st))
  = map img_file_name (images st) ++ filter (λ n, opens W ip n) (map name l)
  ∧ (Forall (λ img, image_size W ip (img_file_name img)
                    = Ok (img_width img, img_height img)) (images st) →
     Forall (λ img, image_size W ip (img_file_name img)
                    = Ok (img_width img, img_height img)) (images (fold_left f l st))).
Proof.
  intros Hf. revert st; induction l as [|b l IH]; intros st; simpl.
  - by rewrite app_nil_r.
  - destruct (IH (f st b)) as [IH1 IH2]. rewrite IH1, Hf. split.
    + destruct (image_size W ip (name b)) as [size|] eqn:Hs.
      * rewrite filter_cons_True by (unfold opens; by rewrite Hs).
        rewrite map_app. simpl. by rewrite <- app_assoc.
      * rewrite filter_cons_False by (unfold opens; rewrite Hs; intros []).
        by rewrite app_nil_r.
    + intros Hst. apply IH2. rewrite Hf. apply Forall_app. split; [done|].
      destruct (image_size W ip (name b)) as [[w h]|] eqn:Hs; [|constructor].
      constructor; [done|constructor].
Qed.

(** X6: the images of the store [convert_to_coco] builds are, in order,
    the images of the matched pairs that open — one per pair, whether or not
    the annotation file of the pair could be read — followed, when the
    images without annotation are asked for, by the unmatched images that
    open; each with the size [Image.open] reports. An image that does not
    open is left out without an error. *)
Theorem built_store_images W ap ip format_type cm include_unmatched m :
  let st := build_store W ap ip format_type cm include_unmatched m in
  map img_file_name (images st)
  = filter (λ n, opens W ip n) (map snd (matched_pairs m))
    ++ (if include_unmatched
        then filter (λ n, opens W ip n) (unmatched_images m) else [])
  ∧ Forall (λ img, image_size W ip (img_file_name img)
                   = Ok (img_width img, img_height img)) (images st).
Proof.
  intros st. unfold st, build_store.
  destruct (opened_images_fold W ip (pair_step W ap ip format_type cm) snd
              (matched_pairs m) reset) as [H1 H2].
  { intros st0 [a i]. apply pair_step_images. }
  specialize (H2 ltac:(constructor)). simpl in H1.
  destruct include_unmatched; [|by rewrite app_nil_r].
  destruct (opened_images_fold W ip (add_unmatched_image W ip) id
              (unmatched_images m)
              (fold_left (pair_step W ap ip format_type cm) (matched_pairs m) reset))
    as [H3 H4].
  { intros st0 b. unfold add_unmatched_image, id.
    destruct (image_size W ip b) as [[w h]|]; simpl; [done|by rewrite app_nil_r]. }
  rewrite H3, H1. rewrite map_id. split; [done|by apply H4].
Qed.

(** ** The matcher and the annotation files *)

Lemma match_step_Raise W ap format_type image_files anns e :
  fold_left (match_step W ap format_type image_files) anns (Raise e) = Raise e.
Proof. induction anns as [|a anns IH]; [done|]. simpl. exact IH. Qed.

(** One step of the loop of [match_files] on the annotation file [f]. *)
Lemma match_step_annotations W ap format_type image_files acc f acc' :
  match_step W ap format_type image_files (Ok acc) f = Ok acc' →
  (∀ g, g ∈ map fst (matched_pairs acc') ∨ g ∈ unmatched_annotations acc'
        ↔ (g ∈ map fst (matched_pairs acc) ∨ g ∈ unmatched_annotations acc) ∨ g = f)
  ∧ (format_type = yolo ∨ format_type = voc →
     matched_pairs acc'
     = matched_pairs acc
       ++ match find_by_base_name (PyStr.splitext_base f) image_files with
          | Some img => [(f, img)]
          | None => []
          end
     ∧ unmatched_annotations acc'
       = unmatched_annotations acc
         ++ match find_by_base_name (PyStr.splitext_base f) image_files with
            | Some _ => []
            | None => [f]
            end).
Proof.
  intros Hstep.
  assert (Hbase : ∀ acc', match_by_base_name image_files f acc = Ok acc' →
    (∀ g, g ∈ map fst (matched_pairs acc') ∨ g ∈ unmatched_annotations acc'
          ↔ (g ∈ map fst (matched_pairs acc) ∨ g ∈ unmatched_annotations acc) ∨ g = f)
    ∧ matched_pairs acc'
      = matched_pairs acc
        ++ match find_by_base_name (PyStr.splitext_base f) image_files with
           | Some img => [(f, img)]
           | None => []
           end
    ∧ unmatched_annotations acc'
      = unmatched_annotations acc
        ++ match find_by_base_name (PyStr.splitext_base f) image_files with
           | Some _ => []
           | None => [f]
           end).
  { clear. intros acc' H. unfold match_by_base_name in H.
    destruct (find_by_base_name (PyStr.splitext_base f) image_files) as [img|] eqn:Hf.
    - assert (Ht : truthy_name (Some img) = true).
      { unfold find_by_base_name in Hf. apply find_some in Hf as [Hin _].
        apply in_map_iff in Hin as (ext & <- & Hext). simpl.
        destruct (PyStr.splitext_base f); simpl; [|done].
        unfold image_extensions in Hext. simpl in Hext.
        by destruct Hext as [<-|[<-|[<-|[<-|[]]]]]. }
      rewrite Ht in H. inv_bind H. injection H as <-. simpl.
      rewrite app_nil_r. split; [|done]. intros g.
      rewrite map_app, elem_of_app. simpl. rewrite list_elem_of_singleton. tauto.
    - injection H as <-. simpl. rewrite app_nil_r. split; [|done]. intros g.
      rewrite elem_of_app, list_elem_of_singleton. tauto. }
  assert (Hcontent : ∀ img_name g,
    g ∈ map fst (matched_pairs (match_by_content image_files f img_name acc))
    ∨ g ∈ unmatched_annotations (match_by_content image_files f img_name acc)
    ↔ (g ∈ map fst (matched_pairs acc) ∨ g ∈ unmatched_annotations acc) ∨ g = f).
  { clear. intros img_name g. unfold match_by_content.
    destruct img_name as [[img|]|e]; simpl;
      [destruct (_ && _); [destruct (list_remove _ _)|]|..]; simpl;
      rewrite ?map_app, ?elem_of_app; simpl; rewrite ?list_elem_of_singleton; tauto. }
  unfold match_step in Hstep. simpl in Hstep.
  destruct format_type;
    try (injection Hstep as <-; split; [apply Hcontent|by intros [|]]).
  - destruct (Hbase _ Hstep) as (? & ? & ?). by split.
  - destruct (Hbase _ Hstep) as (? & ? & ?). by split.
Qed.

Lemma match_loop_annotations W ap format_type image_files anns acc m :
  fold_left (match_step W ap format_type image_files) anns (Ok acc) = Ok m →
  (∀ g, g ∈ map fst (matched_pairs m) ∨ g ∈ unmatched_annotations m
        ↔ (g ∈ map fst (matched_pairs acc) ∨ g ∈ unmatched_annotations acc) ∨ g ∈ anns)
  ∧ (format_type = yolo ∨ format_type = voc →
     matched_pairs m
     = matched_pairs acc
       ++ omap (λ f, pair f <$> find_by_base_name (PyStr.splitext_base f) image_files)
               anns
     ∧ unmatched_annotations m
       = unmatched_annotations acc
         ++ filter (λ f, find_by_base_name (PyStr.splitext_base f) image_files = None)
                   anns).
Proof.
  revert acc; induction anns as [|f anns IH]; intros acc H; cbn [fold_left] in H.
  - injection H as <-. split.
    + intros g. rewrite elem_of_nil. tauto.
    + intros _. by rewrite !app_nil_r.
  - destruct (match_step W ap format_type image_files (Ok acc) f) as [acc'|e] eqn:Hstep;
      [|by rewrite match_step_Raise in H].
    destruct (match_step_annotations _ _ _ _ _ _ _ Hstep) as [Hs1 Hs2].
    destruct (IH _ H) as [IH1 IH2]. split.
    + intros g. rewrite IH1, Hs1, elem_of_cons. tauto.
    + intros Hfmt. destruct (IH2 Hfmt) as [-> ->]. destruct (Hs2 Hfmt) as [-> ->].
      rewrite <- !app_assoc. simpl.
      destruct (find_by_base_name (PyStr.splitext_base f) image_files) as [img|] eqn:Hf.
      * rewrite filter_cons_False by (by rewrite Hf). done.
      * rewrite filter_cons_True by (by rewrite Hf). done.
Qed.

(** X4: whenever [match_files] returns, every annotation file of the
    format's extension (for [yolo], [classes.txt] apart) is in a pair or
    among the unmatched annotations, and nothing else is. With [yolo] and
    [voc] the split is exact and in the order of the directory: the pairs
    are the files for which an image of the same base name and one of the
    extensions [.jpg], [.jpeg], [.png], [.bmp] (tried in this order) is
    listed, each with that image, and the unmatched annotations are the
    others. *)
Theorem match_files_accounts_for_annotations W ap ip format_type m :
  match_files W ap ip format_type = Ok m →
  let image_files := filter (λ f, is_image_file f) (listdir W ip) in
  let candidates := annotation_files W ap format_type in
  (∀ f, f ∈ candidates
        ↔ f ∈ map fst (matched_pairs m) ∨ f ∈ unmatched_annotations m)
  ∧ (format_type = yolo ∨ format_type = voc →
     matched_pairs m
     = omap (λ f, pair f <$> find_by_base_name (PyStr.splitext_base f) image_files)
            candidates
     ∧ unmatched_annotations m
       = filter (λ f, find_by_base_name (PyStr.splitext_base f) image_files = None)
                candidates)
  ∧ (format_type = yolo →
     ("classes.txt" ∉ map fst (matched_pairs m))
     ∧ ("classes.txt" ∉ unmatched_annotations m)).
Proof.
  intros Hrun image_files candidates. unfold match_files in Hrun.
  fold image_files in Hrun. fold candidates in Hrun.
  destruct (match_loop_annotations _ _ _ _ _ _ _ Hrun) as [H1 H2]. simpl in H1, H2.
  assert (Hall : ∀ f, f ∈ candidates
            ↔ f ∈ map fst (matched_pairs m) ∨ f ∈ unmatched_annotations m).
  { intros f. rewrite H1. rewrite !elem_of_nil. tauto. }
  split; [exact Hall|]. split; [exact H2|].
  intros ->.
  assert (Hc : "classes.txt" ∉ candidates).
  { unfold candidates, annotation_files. rewrite list_elem_of_filter. by intros [? _]. }
  rewrite Hall in Hc. tauto.
Qed.

Lemma match_files_accounts_for_annotations_witness :
  matched_pairs (mkMatch [("a.txt", "a.jpg")] [] ["c.jpg"])
  = omap (λ f, pair f <$> find_by_base_name (PyStr.splitext_base f)
                            (filter (λ f, is_image_file f) (listdir yolo_world "img")))
         (annotation_files yolo_world "ann" yolo).
Proof.
  apply (proj1 (proj2 (match_files_accounts_for_annotations yolo_world "ann" "img" yolo
                  (mkMatch [("a.txt", "a.jpg")] [] ["c.jpg"])
                  ltac:(vm_compute; reflexivity)))).
  by left.
Defined.

Lemma match_by_content_unmatched image_files f img_name acc g :
  g ∈ unmatched_annotations acc →
  g ∈ unmatched_annotations (match_by_content image_files f img_name acc).
Proof.
  intros Hg. unfold match_by_content.
  destruct img_name as [[img|]|e]; simpl;
    [destruct (_ && _); [destruct (list_remove _ _)|]|..]; simpl;
    rewrite ?elem_of_app; auto.
Qed.

Lemma match_by_content_pairs image_files f img_name acc pair :
  pair ∈ matched_pairs (match_by_content image_files f img_name acc) →
  pair ∈ matched_pairs acc ∨ pair.1 = f ∧ ∃ img, img_name = Ok (Some img).
Proof.
  unfold match_by_content.
  destruct img_name as [[img|]|e]; simpl;
    [destruct (_ && _); [destruct (list_remove _ _)|]|..]; simpl;
    rewrite ?elem_of_app, ?list_elem_of_singleton; intros H; auto;
    destruct H as [H| ->]; eauto.
Qed.

Lemma match_by_content_failed image_files f e acc :
  f ∈ unmatched_annotations (match_by_content image_files f (Raise e) acc).
Proof. simpl. rewrite elem_of_app, list_elem_of_singleton. by right. Qed.

(** The image lookup of the three JSON formats starts by reading the file. *)
Lemma json_lookup_reads W ap format_type image_files acc f acc' :
  format_type ≠ yolo → format_type ≠ voc →
  match_step W ap format_type image_files (Ok acc) f = Ok acc' →
  ∃ img_name,
    acc' = match_by_content image_files f img_name acc
    ∧ (∀ e, read_json W ap f = Raise e → img_name = Raise e).
Proof.
  intros Hy Hv Hstep. unfold match_step in Hstep. simpl in Hstep.
  destruct format_type; try done; injection Hstep as <-; eexists; (split; [done|]);
    intros e He; unfold coco_image_name, named_image; by rewrite He.
Qed.

Lemma json_loop_unreadable W ap format_type image_files anns acc m :
  format_type ≠ yolo → format_type ≠ voc →
  fold_left (match_step W ap format_type image_files) anns (Ok acc) = Ok m →
  (∀ pair, pair ∈ matched_pairs acc → ∃ data, read_json W ap pair.1 = Ok data) →
  (∀ pair, pair ∈ matched_pairs m → ∃ data, read_json W ap pair.1 = Ok data)
  ∧ (∀ g, g ∈ unmatched_annotations acc → g ∈ unmatched_annotations m)
  ∧ (∀ f e, f ∈ anns → read_json W ap f = Raise e → f ∈ unmatched_annotations m).
Proof.
  intros Hy Hv. revert acc; induction anns as [|f anns IH]; intros acc H Hacc;
    cbn [fold_left] in H.
  - injection H as <-. split; [done|]. split; [done|]. by intros f e ?%elem_of_nil.
  - destruct (match_step W ap format_type image_files (Ok acc) f) as [acc'|e] eqn:Hstep;
      [|by rewrite match_step_Raise in H].
    destruct (json_lookup_reads _ _ _ _ _ _ _ Hy Hv Hstep) as (img_name & -> & Hread).
    destruct (IH _ H) as (IH1 & IH2 & IH3).
    { intros pair [Hp|[Hf [img Himg]]]%match_by_content_pairs; [by apply Hacc|].
      destruct (read_json W ap pair.1) as [data|e] eqn:Hr; [eauto|].
      rewrite Hf in Hr. rewrite (Hread _ Hr) in Himg. discriminate Himg. }
    split; [done|]. split.
    + intros g Hg. by apply IH2, match_by_content_unmatched.
    + intros g e [->|Hg]%elem_of_cons Hr; [|by eapply IH3].
      apply IH2. rewrite (Hread _ Hr). apply match_by_content_failed.
Qed.

(** X5: with the three JSON formats, once the two directories are listed,
    [match_files] returns whatever the files hold: an annotation file that
    cannot be read or decoded is caught in the loop, listed among the
    unmatched annotations and is in no pair. *)
Theorem unreadable_json_files_are_unmatched W ap ip format_type :
  format_type ≠ yolo → format_type ≠ voc →
  ∃ m, match_files W ap ip format_type = Ok m
       ∧ ∀ f e, f ∈ annotation_files W ap format_type →
                read_json W ap f = Raise e →
                f ∈ unmatched_annotations m ∧ f ∉ map fst (matched_pairs m).
Proof.
  intros Hy Hv.
  assert (Hret : ∃ m, match_files W ap ip format_type = Ok m).
  { unfold match_files.
    generalize (mkMatch [] [] (filter (λ f, is_image_file f) (listdir W ip))).
    generalize (filter (λ f, is_image_file f) (listdir W ip)).
    induction (annotation_files W ap format_type) as [|f anns IH];
      intros image_files acc; simpl; [eauto|].
    destruct format_type; try done; apply IH. }
  destruct Hret as [m Hm]. exists m. split; [done|].
  unfold match_files in Hm.
  destruct (json_loop_unreadable _ _ _ _ _ _ _ Hy Hv Hm) as (H1 & _ & H3).
  { by intros pair ?%elem_of_nil. }
  intros f e Hf Hr. split; [by eapply H3|].
  rewrite map_is_fmap. intros (pair & -> & Hp)%list_elem_of_fmap.
  destruct (H1 _ Hp) as [data Hd]. congruence.
Qed.

Lemma unreadable_json_files_are_unmatched_witness :
  ∃ m, match_files unreadable_world "ann" "img" labelme = Ok m
       ∧ ∀ f e, f ∈ annotation_files unreadable_world "ann" labelme →
                read_json unreadable_world "ann" f = Raise e →
                f ∈ unmatched_annotations m ∧ f ∉ map fst (matched_pairs m).
Proof.
  apply (unreadable_json_files_are_unmatched unreadable_world "ann" "img" labelme);
    discriminate.
Defined.

Lemma match_files_accounts_for_images_witness :
  unmatched_images (mkMatch [("a.json", "x.jpg"); ("b.json", "x.jpg")] ["b.json"] ["y.png"])
  = filter (λ f, f ∉ map snd [("a.json", "x.jpg"); ("b.json", "x.jpg")])
           (filter (λ f, is_image_file f) (listdir shared_image_world "img")).
Proof.
  apply (match_files_accounts_for_images shared_image_world "ann" "img" labelme
           (mkMatch [("a.json", "x.jpg"); ("b.json", "x.jpg")] ["b.json"] ["y.png"])).
  - apply (bool_decide_unpack _). vm_compute. reflexivity.
  - vm_compute. reflexivity.
Defined.

(** ** The loop over the lines of a YOLO file *)

Lemma yolo_lines_records W img img_w img_h cm lines st :
  yolo_lines W img img_w img_h cm lines st
  = match yolo_records W img_w img_h cm lines with
    | Ok boxes => (fold_left (λ st b, add_annotation img b st) boxes st, Ok ())
    | Raise e => ((yolo_lines W img img_w img_h cm lines st).1, Raise e)
    end.
Proof.
  revert st; induction lines as [|line lines IH]; intros st; simpl; [done|].
  destruct (yolo_line W img_w img_h cm line) as [[b|]|e]; simpl; [| |done].
  - rewrite IH. by destruct (yolo_records W img_w img_h cm lines).
  - rewrite IH. by destruct (yolo_records W img_w img_h cm lines).
Qed.

(** ** A YOLO line that raises *)

Lemma to_int_raises f e :
  PyFloat.to_int f = Raise e → e = ValueError ∨ e = OverflowError.
Proof.
  unfold PyFloat.to_int. destruct (Prim2SF f); intros H; try discriminate H;
    injection H as <-; auto.
Qed.

Lemma mul_int_raises f z e : PyFloat.mul_int f z = Raise e → e = OverflowError.
Proof.
  unfold PyFloat.mul_int, PyFloat.of_int. simpl.
  destruct (is_finite _); simpl; intros H; [discriminate H|by injection H as <-].
Qed.

Lemma py_float_raises W s e : py_float W s = Raise e → e = ValueError.
Proof.
  unfold py_float. destruct (float_of_text W s); intros H;
    [discriminate H|by injection H as <-].
Qed.

Lemma py_int_raises W s e : py_int W s = Raise e → e = ValueError.
Proof.
  unfold py_int. destruct (int_of_text W s); intros H;
    [discriminate H|by injection H as <-].
Qed.

Lemma yolo_box_raises W img_w img_h cm parts e :
  yolo_box W img_w img_h cm parts = Raise e → e = ValueError ∨ e = OverflowError.
Proof.
  unfold yolo_box. intros H.
  do 6 (destruct parts as [|? parts]; try (injection H as <-; by left)).
  unfold mbind, result_bind in H.
  repeat match type of H with
         | context [match ?x with _ => _ end] =>
             let Hx := fresh "Hx" in
             destruct x eqn:Hx; simpl in H;
             [|injection H as <-;
               first [apply py_int_raises in Hx; by left
                     |apply py_float_raises in Hx; by left
                     |apply mul_int_raises in Hx; by right
                     |by apply to_int_raises in Hx]]
         end.
  discriminate H.
Qed.

(** The only exception that leaves the loop over the lines. *)
Lemma yolo_line_raises W img_w img_h cm line e :
  yolo_line W img_w img_h cm line = Raise e → e = OverflowError.
Proof.
  unfold yolo_line. destruct (negb _); [done|].
  destruct (yolo_box W img_w img_h cm (PyStr.split line)) as [b|e'] eqn:Hb; [done|].
  apply yolo_box_raises in Hb as [->| ->]; [done|]. by intros [= <-].
Qed.

Lemma yolo_records_app W img_w img_h cm before rest boxes :
  yolo_records W img_w img_h cm before = Ok boxes →
  yolo_records W img_w img_h cm (before ++ rest)
  = (more ← yolo_records W img_w img_h cm rest; Ok (boxes ++ more)).
Proof.
  revert boxes; induction before as [|line before IH]; intros boxes H; simpl in H |- *.
  - injection H as <-. by destruct (yolo_records W img_w img_h cm rest).
  - destruct (yolo_line W img_w img_h cm line) as [[b|]|e]; [| |done].
    + inv_bind H. injection H as <-. rewrite (IH _ Hv).
      by destruct (yolo_records W img_w img_h cm rest).
    + by apply IH.
Qed.

Lemma yolo_lines_app W img img_w img_h cm before rest st :
  (yolo_lines W img img_w img_h cm before st).2 = Ok () →
  yolo_lines W img img_w img_h cm (before ++ rest) st
  = yolo_lines W img img_w img_h cm rest
      (yolo_lines W img img_w img_h cm before st).1.
Proof.
  revert st; induction before as [|line before IH]; intros st H; simpl in H |- *; [done|].
  destruct (yolo_line W img_w img_h cm line) as [[b|]|e]; [by apply IH..|done].
Qed.

(** X13: the body of the loop over the lines of a YOLO file skips a
    malformed line and lets a single exception through, [OverflowError]
    (an infinite coordinate, or an image dimension beyond the range of a
    double). When a line raises it, the lines before it having been read,
    the converter keeps the annotations of those lines and ignores the
    lines after it, while the cropper loses every box of the file. *)
Theorem yolo_file_stops_at_overflow
    W img img_w img_h cm before line after boxes e st :
  yolo_records W img_w img_h cm before = Ok boxes →
  yolo_line W img_w img_h cm line = Raise e →
  e = OverflowError
  ∧ yolo_lines W img img_w img_h cm (before ++ line :: after) st
    = (fold_left (λ st b, add_annotation img b st) boxes st, Raise e)
  ∧ yolo_records W img_w img_h cm (before ++ line :: after) = Raise e.
Proof.
  intros Hbefore Hline. split; [by eapply yolo_line_raises|].
  pose proof (yolo_lines_records W img img_w img_h cm before st) as Hb.
  rewrite Hbefore in Hb. split.
  - rewrite yolo_lines_app by (by rewrite Hb). rewrite Hb. simpl. by rewrite Hline.
  - rewrite (yolo_records_app _ _ _ _ _ _ _ Hbefore). simpl. by rewrite Hline.
Qed.

Lemma yolo_file_stops_at_overflow_witness :
  yolo_lines inf_world 0 100 200 None
    (["0 0.5 0.5 0.2 0.4"] ++ "0 inf 0.5 0.2 0.4" :: ["1 0.5 0.5 0.2 0.4"]) reset
  = (fold_left (λ st b, add_annotation 0 b st)
       [mkRawBox "class_0" (int_box 40 60 20 80)] reset, Raise OverflowError)
  ∧ yolo_records inf_world 100 200 None
      (["0 0.5 0.5 0.2 0.4"] ++ "0 inf 0.5 0.2 0.4" :: ["1 0.5 0.5 0.2 0.4"])
    = Raise OverflowError.
Proof.
  apply (proj2 (yolo_file_stops_at_overflow inf_world 0 100 200 None
                  ["0 0.5 0.5 0.2 0.4"] "0 inf 0.5 0.2 0.4" ["1 0.5 0.5 0.2 0.4"]
                  [mkRawBox "class_0" (int_box 40 60 20 80)] OverflowError reset
                  ltac:(vm_compute; reflexivity) ltac:(vm_compute; reflexivity))).
Defined.

(** ** The expanded box and the image *)

(** X17: with a ratio other than 1.0, the box [_apply_expansion_and_bounds]
    returns for a box of integers never passes the image: it is a box of
    integers whose left and top are not negative and whose right and bottom
    are within the width and the height of the image, whatever the box it
    was given. The coordinates of an hk box can be floats, and there the
    rounding can let the right edge pass the image: the box of left
    2^53 + 2 and width 0.0 comes back, for an image of width 1, with a
    width of -2^53 and so a right edge at 2. *)
Theorem expanded_box_stays_inside_the_image
    x y w h img_w img_h ratio out :
  PrimFloat.eqb ratio PrimFloat.one = false →
  _apply_expansion_and_bounds (int_box x y w h) img_w img_h ratio = Ok out →
  (∃ x' y' w' h',
      out = int_box x' y' w' h'
      ∧ 0 ≤ x' ∧ 0 ≤ y' ∧ x' + w' ≤ img_w ∧ y' + h' ≤ img_h)
  ∧ _apply_expansion_and_bounds
      (mkBBox (NFloat 9007199254740994) (NInt 0) (NFloat 0) (NInt 0)) 1 1 2
    = Ok (mkBBox (NFloat 9007199254740994) (NInt 0)
            (NFloat (-9007199254740992)) (NInt 0))
  ∧ Num.add (NFloat 9007199254740994) (NFloat (-9007199254740992)) = Ok (NFloat 2).
Proof.
  intros Hratio H. split; [|split; vm_compute; reflexivity].
  unfold _apply_expansion_and_bounds, int_box in H. rewrite Hratio in H.
  inv_bind H. inv_bind H. rename v into new_w, v0 into new_h. simpl in H.
  repeat match type of H with
         | context [?a <? ?b] => destruct (Z.ltb_spec a b); simpl in H
         end;
    injection H as <-; eexists _, _, _, _; (split; [reflexivity|lia]).
Qed.

Lemma expanded_box_stays_inside_the_image_witness :
  ∃ x' y' w' h',
    int_box 30 0 40 160 = int_box x' y' w' h'
    ∧ 0 ≤ x' ∧ 0 ≤ y' ∧ x' + w' ≤ 100 ∧ y' + h' ≤ 200.
Proof.
  apply (proj1 (expanded_box_stays_inside_the_image 40 30 20 80 100 200 2
                  (int_box 30 0 40 160)
                  ltac:(vm_compute; reflexivity) ltac:(vm_compute; reflexivity))).
Defined.

(** ** LabelMe rectangles *)

(** X14: a LabelMe shape that gives a box has a label that is true and a
    list of exactly two points, each of two coordinates that [int]
    accepts; the box is normalised: whichever corner comes first, its
    origin is the smaller [x] and the smaller [y], and its width and
    height are the distances [|x1 - x2|] and [|y1 - y2|], never negative. *)
Theorem labelme_box_is_normalised W shape b :
  labelme_box W shape = Ok (Some b) →
  ∃ label p0 p1 x1 y1 x2 y2,
    Json.get "label" JNull shape = Ok label ∧ Json.truthy label = true
    ∧ Json.get "points" (JArr []) shape = Ok (JArr [p0; p1])
    ∧ int_pair W p0 = Ok (x1, y1) ∧ int_pair W p1 = Ok (x2, y2)
    ∧ raw_bbox b
      = int_box (Z.min x1 x2) (Z.min y1 y2) (Z.abs (x1 - x2)) (Z.abs (y1 - y2))
    ∧ 0 ≤ Z.abs (x1 - x2) ∧ 0 ≤ Z.abs (y1 - y2).
Proof.
  unfold labelme_box. intros H.
  inv_bind H. rename v into label, Hv into Hlabel.
  destruct (Json.truthy label) eqn:Htruthy; simpl in H; [|done].
  inv_bind H. rename v into category_name.
  inv_bind H. rename v into points, Hv0 into Hpoints.
  inv_bind H. rename v into n, Hv0 into Hlen.
  destruct (n =? 2)%nat eqn:Hn; simpl in H; [|done].
  apply Nat.eqb_eq in Hn. subst n.
  inv_bind H. rename v into p0, Hv0 into Hp0.
  inv_bind H. destruct v as [x1 y1]. rename Hv0 into Hxy0.
  inv_bind H. rename v into p1, Hv0 into Hp1.
  inv_bind H. destruct v as [x2 y2]. rename Hv0 into Hxy1.
  injection H as <-.
  assert (Hpts : points = JArr [p0; p1]).
  { destruct points as [| | | |s|l|]; try discriminate Hlen.
    - (* a string of two characters has no point *)
      exfalso. simpl in Hp0. destruct (String.get 0 s); [|done].
      injection Hp0 as <-. discriminate Hxy0.
    - simpl in Hlen. injection Hlen as Hlen.
      destruct l as [|a [|c [|]]]; try discriminate Hlen.
      simpl in Hp0, Hp1. by injection Hp0 as ->; injection Hp1 as ->.
    - discriminate Hp0. }
  subst points.
  exists label, p0, p1, x1, y1, x2, y2. simpl.
  repeat split; try done; try lia.
  unfold int_box. f_equal; f_equal; lia.
Qed.

Lemma labelme_box_is_normalised_witness :
  ∃ label p0 p1 x1 y1 x2 y2,
    Json.get "label" JNull
      (JObj [("label", JStr "cat");
             ("points", JArr [JArr [JFloat 30.5; JInt 10]; JArr [JInt 10; JInt 40]])])
    = Ok label ∧ Json.truthy label = true
    ∧ Json.get "points" (JArr [])
        (JObj [("label", JStr "cat");
               ("points", JArr [JArr [JFloat 30.5; JInt 10]; JArr [JInt 10; JInt 40]])])
      = Ok (JArr [p0; p1])
    ∧ int_pair yolo_world p0 = Ok (x1, y1) ∧ int_pair yolo_world p1 = Ok (x2, y2)
    ∧ raw_bbox (mkRawBox "cat" (int_box 10 10 20 30))
      = int_box (Z.min x1 x2) (Z.min y1 y2) (Z.abs (x1 - x2)) (Z.abs (y1 - y2))
    ∧ 0 ≤ Z.abs (x1 - x2) ∧ 0 ≤ Z.abs (y1 - y2).
Proof.
  apply (labelme_box_is_normalised yolo_world
           (JObj [("label", JStr "cat");
                  ("points", JArr [JArr [JFloat 30.5; JInt 10]; JArr [JInt 10; JInt 40]])])
           (mkRawBox "cat" (int_box 10 10 20 30))).
  vm_compute. reflexivity.
Defined.

(** ** Polygon files *)

Lemma round_raises f e :
  PyFloat.round f = Raise e → e = ValueError ∨ e = OverflowError.
Proof.
  unfold PyFloat.round. destruct (Prim2SF f); intros H; try discriminate H;
    injection H as <-; auto.
Qed.

Lemma denormalize_raises c dim e :
  denormalize c dim = Raise e → e = ValueError ∨ e = OverflowError.
Proof.
  unfold denormalize. destruct (PyFloat.mul_int c dim) as [f|e'] eqn:Hm; simpl.
  - apply round_raises.
  - intros [= <-]. right. by eapply mul_int_raises.
Qed.

Lemma polygon_points_raises coords width height e :
  Nat.even (length coords) = true →
  polygon_points coords width height = Raise e →
  e = ValueError ∨ e = OverflowError.
Proof.
  induction coords as [coords IH] using (induction_ltof1 _ (@length _)).
  unfold ltof in IH. intros Heven H.
  destruct coords as [|cx [|cy rest]]; simpl in H; [done|done|].
  destruct (denormalize cx width) as [x|e1] eqn:Hx; simpl in H;
    [|injection H as <-; by eapply denormalize_raises].
  destruct (denormalize cy height) as [y|e2] eqn:Hy; simpl in H;
    [|injection H as <-; by eapply denormalize_raises].
  destruct (polygon_points rest width height) as [pts|e3] eqn:Hrest; simpl in H;
    [done|]. injection H as <-.
  apply (IH rest); [simpl; lia|done|done].
Qed.

(** The errors that leave [_parse_polygon_line], and with it the loop of
    [_txt_to_mask]: the rounding of a coordinate that is not finite. *)
Lemma mask_line_raises W line width height max_cls e :
  mask_line W line width height max_cls = Raise e →
  e = ValueError ∨ e = OverflowError.
Proof.
  unfold mask_line.
  destruct (_parse_polygon_line W line width height) as [parsed|e'] eqn:Hp; simpl.
  { destruct parsed as [[cls pts]|]; [|done]. by destruct (_ || _). }
  intros [= <-]. unfold _parse_polygon_line in Hp. cbv zeta in Hp.
  destruct (length (PyStr.split line) <? 7)%nat eqn:Hlen; [done|].
  destruct (Nat.even (length (PyStr.split line))) eqn:Heven; [done|]. simpl in Hp.
  destruct (PyStr.split line) as [|p0 rest]; [done|].
  destruct (py_int W p0) as [cls|]; simpl in Hp; [|done].
  destruct (py_floats W rest) as [coords|] eqn:Hcoords; simpl in Hp; [|done].
  destruct (polygon_points coords width height) as [pts|e''] eqn:Hpts; simpl in Hp.
  { by destruct (length pts <? 3)%nat. }
  injection Hp as <-. eapply polygon_points_raises; [|exact Hpts].
  apply py_floats_Ok in Hcoords as [-> _].
  change (length (p0 :: rest)) with (S (length rest)) in Heven.
  rewrite Nat.even_succ in Heven. by rewrite <- Nat.negb_odd, Heven.
Qed.

Lemma mask_polygons_spec W lines width height max_cls :
  match mask_polygons W lines width height max_cls with
  | Some polys =>
      (∀ line, line ∈ lines → ∃ v, mask_line W line width height max_cls = Ok v)
      ∧ polys = omap (λ line, match mask_line W line width height max_cls with
                              | Ok (Filled gray pts) => Some (gray, pts)
                              | _ => None
                              end) lines
  | None => ∃ line e, line ∈ lines ∧ mask_line W line width height max_cls = Raise e
  end.
Proof.
  induction lines as [|line lines IH]; simpl.
  - split; [by intros line ?%elem_of_nil|done].
  - destruct (mask_line W line width height max_cls) as [v|e] eqn:Hline.
    + destruct (mask_polygons W lines width height max_cls) as [polys|].
      * destruct IH as [IH1 ->]. split.
        -- intros l [->|Hl]%elem_of_cons; [eauto|by apply IH1].
        -- by destruct v.
      * destruct IH as (l & e & Hl & He). exists l, e. split; [by right|done].
    + exists line, e. split; [by left|done].
Qed.

(** X19: the polygons of a file are painted all or not at all. When the
    file is read and no line raises, the polygons painted are those of the
    accepted lines, in the order of the file, the rejected lines being
    skipped. A single line that raises — the rounding of a coordinate that
    is not a finite number, [ValueError] or [OverflowError] — leaves the
    file without a mask, the valid polygons before it included. *)
Theorem mask_is_all_or_nothing W dir name width height max_cls :
  match _txt_to_mask W dir name width height max_cls with
  | Some polys =>
      ∃ lines, read_lines W dir name = Ok lines
        ∧ (∀ line, line ∈ lines → ∃ v, mask_line W line width height max_cls = Ok v)
        ∧ polys = omap (λ line, match mask_line W line width height max_cls with
                                | Ok (Filled gray pts) => Some (gray, pts)
                                | _ => None
                                end) lines
  | None =>
      (∃ e, read_lines W dir name = Raise e)
      ∨ ∃ lines line e,
          read_lines W dir name = Ok lines ∧ line ∈ lines
          ∧ mask_line W line width height max_cls = Raise e
          ∧ (e = ValueError ∨ e = OverflowError)
  end.
Proof.
  unfold _txt_to_mask. destruct (read_lines W dir name) as [lines|e]; [|left; eauto].
  pose proof (mask_polygons_spec W lines width height max_cls) as H.
  destruct (mask_polygons W lines width height max_cls) as [polys|].
  - exists lines. by destruct H.
  - right. destruct H as (line & e & Hl & He). exists lines, line, e.
    repeat split; try done. by eapply mask_line_raises.
Qed.

(** ** The class names of a YOLO data set *)

Lemma enumerate_from_lookup first classes k :
  enumerate_from first classes !! k
  = if decide (first ≤ k) then classes !! Z.to_nat (k - first) else None.
Proof.
  revert first; induction classes as [|name classes IH]; intros first; simpl.
  - rewrite lookup_empty. by destruct (decide (first ≤ k)).
  - destruct (decide (k = first)) as [->|Hne].
    + rewrite lookup_insert_eq. rewrite decide_True by lia.
      by replace (first - first) with 0 by lia.
    + rewrite lookup_insert_ne by done. rewrite IH.
      destruct (decide (first ≤ k)).
      * rewrite decide_True by lia.
        replace (Z.to_nat (k - first)) with (S (Z.to_nat (k - (first + 1)))) by lia.
        done.
      * by rewrite decide_False by lia.
Qed.

(** X20: the mapping [_load_classes_file] returns numbers the names of the
    file from 0 in the order of the lines, the blank lines not counted and
    the white space around a name removed: the name of class [i] is the
    [i]-th non-blank line, stripped, and never empty; a class id beyond the
    file, or negative, has no name and gets the default [class_<id>]. The
    file is dropped when it cannot be read, or when the user answers [n]. *)
Theorem loaded_classes_are_numbered_by_line W dir name confirm m :
  _load_classes_file W dir name confirm = Some m →
  ∃ lines,
    read_lines W dir name = Ok lines
    ∧ strip (PyStr.lower confirm) ≠ "n"
    ∧ (∀ i : nat, m !! Z.of_nat i = class_names lines !! i)
    ∧ (∀ k, k < 0 → m !! k = None)
    ∧ (∀ k cname, m !! k = Some cname →
         cname ≠ "" ∧ yolo_category (Some m) k = cname)
    ∧ (∀ k, m !! k = None → yolo_category (Some m) k = "class_" +:+ pretty k).
Proof.
  unfold _load_classes_file. intros H.
  destruct (read_lines W dir name) as [lines|]; [|done].
  destruct (String.eqb_spec (strip (PyStr.lower confirm)) "n") as [|Hn]; [done|].
  injection H as <-. exists lines. split; [done|]. split; [done|].
  split; [|split; [|split]].
  - intros i. rewrite enumerate_from_lookup. rewrite decide_True by lia.
    by replace (Z.to_nat (Z.of_nat i - 0)) with i by lia.
  - intros k Hk. rewrite enumerate_from_lookup. by rewrite decide_False by lia.
  - intros k cname Hk. split; [|unfold yolo_category; by rewrite Hk].
    rewrite enumerate_from_lookup in Hk.
    destruct (decide (0 ≤ k)); [|done].
    apply list_elem_of_lookup_2 in Hk. unfold class_names in Hk.
    rewrite map_is_fmap in Hk. apply list_elem_of_fmap in Hk as (line & -> & Hline).
    apply list_elem_of_filter in Hline as [Hline _].
    intros Hs. rewrite Hs in Hline. by apply Hline.
  - intros k Hk. unfold yolo_category. by rewrite Hk.
Qed.

Lemma loaded_classes_are_numbered_by_line_witness :
  ∃ lines,
    read_lines classes_world "ann" "classes.txt" = Ok lines
    ∧ strip (PyStr.lower "") ≠ "n"
    ∧ (∀ i : nat, enumerate_from 0 ["person"; "car"] !! Z.of_nat i
                  = class_names lines !! i)
    ∧ (∀ k, k < 0 → enumerate_from 0 ["person"; "car"] !! k = None)
    ∧ (∀ k cname, enumerate_from 0 ["person"; "car"] !! k = Some cname →
         cname ≠ ""
         ∧ yolo_category (Some (enumerate_from 0 ["person"; "car"])) k = cname)
    ∧ (∀ k, enumerate_from 0 ["person"; "car"] !! k = None →
         yolo_category (Some (enumerate_from 0 ["person"; "car"])) k
         = "class_" +:+ pretty k).
Proof.
  apply (loaded_classes_are_numbered_by_line classes_world "ann" "classes.txt" ""
           (enumerate_from 0 ["person"; "car"])).
  vm_compute. reflexivity.
Defined.

(** ** FormatDetector *)

Lemma endswith_last s suffix :
  suffix ≠ "" → PyStr.endswith s suffix = true →
  String.get (String.length s - 1) s
  = String.get (String.length suffix - 1) suffix.
Proof.
  intros Hne. unfold PyStr.endswith. intros H.
  apply andb_true_iff in H as [Hle Heq].
  apply Nat.leb_le in Hle. apply String.eqb_eq in Heq.
  assert (0 < String.length suffix)%nat by (destruct suffix; [done|simpl; lia]).
  rewrite <- Heq at 2.
  rewrite substring_correct1 by lia. f_equal. lia.
Qed.

Lemma endswith_exclusive s suffix1 suffix2 :
  suffix1 ≠ "" → suffix2 ≠ "" →
  String.get (String.length suffix1 - 1) suffix1
  ≠ String.get (String.length suffix2 - 1) suffix2 →
  PyStr.endswith s suffix1 = true → PyStr.endswith s suffix2 = false.
Proof.
  intros H1 H2 Hne He1. destruct (PyStr.endswith s suffix2) eqn:He2; [|done].
  exfalso. apply Hne.
  by rewrite <- (endswith_last s suffix1), <- (endswith_last s suffix2).
Qed.

(** One sampled file adds one to the score of the format it speaks for. *)
Lemma sample_step_score W P dir s f format_type :
  score_of format_type (sample_step W P dir s f)
  = (score_of format_type s
     + if sample_evidence W P dir format_type f then 1 else 0)%nat.
Proof.
  unfold sample_step, sample_evidence.
  destruct (is_yolo_txt f) eqn:Htxt.
  { assert (Ht : PyStr.endswith f ".txt" = true).
    { unfold is_yolo_txt in Htxt. by apply andb_true_iff in Htxt as [? _]. }
    rewrite (endswith_exclusive f ".txt" ".xml") by done.
    rewrite (endswith_exclusive f ".txt" ".json") by done.
    destruct (yolo_sample W P dir f), format_type; simpl; lia. }
  destruct (PyStr.endswith f ".xml") eqn:Hxml.
  { rewrite (endswith_exclusive f ".xml" ".json") by done.
    destruct (voc_sample P dir f), format_type; simpl; lia. }
  destruct (PyStr.endswith f ".json") eqn:Hjson.
  { destruct (json_sample W dir f), format_type; simpl; lia. }
  destruct format_type; simpl; lia.
Qed.

Lemma sample_fold_score W P dir l s format_type :
  (0 <? score_of format_type (fold_left (sample_step W P dir) l s))%nat
  = (0 <? score_of format_type s)%nat || existsb (sample_evidence W P dir format_type) l.
Proof.
  revert s; induction l as [|f l IH]; intros s; simpl; [by rewrite orb_false_r|].
  rewrite IH, sample_step_score.
  destruct (sample_evidence W P dir format_type f); simpl.
  - replace (0 <? score_of format_type s + 1)%nat with true
      by (symmetry; apply Nat.ltb_lt; lia).
    by rewrite orb_true_r.
  - by rewrite Nat.add_0_r.
Qed.

Lemma count_positive (test : string → bool) (l : list string) :
  (0 <? length (filter (λ f, test f) l))%nat = existsb test l.
Proof.
  induction l as [|f l IH]; simpl; [done|].
  destruct (test f) eqn:Hf.
  - by rewrite filter_cons_True by (by rewrite Hf).
  - by rewrite filter_cons_False by (rewrite Hf; intros []).
Qed.

Lemma sample_files_elem files f : f ∈ sample_files files → f ∈ files.
Proof.
  unfold sample_files. intros [_ Hf]%list_elem_of_filter.
  apply list_elem_of_lookup in Hf as [i Hi].
  apply lookup_take_Some in Hi as [Hi _]. by eapply list_elem_of_lookup_2.
Qed.

Lemma existsb_elem (test : string → bool) l :
  existsb test l = true ↔ ∃ f, f ∈ l ∧ test f = true.
Proof.
  rewrite existsb_exists. split; intros (f & Hf & Ht); exists f;
    (split; [by apply list_elem_of_In|done]).
Qed.

(** A sampled file that speaks for a format is an annotation file of that
    format for the matcher. *)
Lemma sample_evidence_candidate W P dir format_type f :
  f ∈ listdir W dir → sample_evidence W P dir format_type f = true →
  f ∈ annotation_files W dir format_type.
Proof.
  intros Hf He. unfold annotation_files.
  destruct format_type; simpl in He; apply andb_true_iff in He as [He _];
    apply list_elem_of_filter; (split; [unfold is_yolo_txt in He; by rewrite He|done]).
Qed.

Lemma detect_format_decision_correct W P input_path :
  detect_format W P input_path = detect_format_decision W P input_path.
Proof.
  unfold detect_format, detect_format_decision.
  destruct (negb (path_exists P input_path)); [done|]. cbv zeta.
  set (files := listdir W input_path).
  pose proof (λ ft, sample_fold_score W P input_path (sample_files files)
                      (mkScores 0 0 0 0 0) ft) as Hscore.
  pose proof (Hscore labelme) as Hl. pose proof (Hscore hk) as Hh.
  pose proof (Hscore yolo) as Hy. pose proof (Hscore voc) as Hv.
  pose proof (Hscore coco_single) as Hc. simpl in Hl, Hh, Hy, Hv, Hc.
  assert (Hxml : existsb (sample_evidence W P input_path voc) (sample_files files) = true →
                 (0 <? length (filter (λ f, PyStr.endswith f ".xml") files))%nat = true).
  { intros (f & Hf & He)%existsb_elem. rewrite count_positive. apply existsb_elem.
    exists f. split; [by apply sample_files_elem|].
    simpl in He. by apply andb_true_iff in He as [? _]. }
  assert (Hjson : existsb (sample_evidence W P input_path coco_single)
                          (sample_files files) = true →
                  (0 <? length (filter (λ f, PyStr.endswith f ".json") files))%nat = true).
  { intros (f & Hf & He)%existsb_elem. rewrite count_positive. apply existsb_elem.
    exists f. split; [by apply sample_files_elem|].
    simpl in He. by apply andb_true_iff in He as [? _]. }
  destruct files as [|f0 files'] eqn:Hfiles; [done|]. rewrite <- Hfiles in *.
  rewrite Hl, Hh, Hy, Hv, Hc. rewrite count_positive.
  destruct (existsb (sample_evidence W P input_path labelme) _); [done|].
  destruct (existsb (sample_evidence W P input_path hk) _); [done|].
  destruct (existsb (sample_evidence W P input_path yolo) _ || _); [done|].
  destruct (existsb (sample_evidence W P input_path voc) _); [by rewrite Hxml|].
  destruct (existsb (sample_evidence W P input_path coco_single) _); [by rewrite Hjson|].
  done.
Qed.

(** X1: [detect_format] is a decision list. Of the first five entries of
    the directory, the hidden ones apart, it looks for a file with the
    extension and the content of a format, and answers the first format
    found in the order LabelMe, hk, YOLO, VOC, single-image COCO, whatever
    the number of files that speak for each; a [classes.txt] next to another
    [.txt] file anywhere in the directory also makes it YOLO. Without
    either, and for a path that does not exist or an empty directory, the
    answer is [None]. *)
Theorem detect_format_is_a_decision_list W P input_path :
  detect_format W P input_path = detect_format_decision W P input_path.
Proof. apply detect_format_decision_correct. Qed.

(** X2: a format [detect_format] answers is one the matcher can work on:
    the directory has at least one annotation file with the extension of
    that format. *)
Theorem detected_format_has_annotation_files W P input_path format_type :
  detect_format W P input_path = Some format_type →
  annotation_files W input_path format_type ≠ [].
Proof.
  rewrite detect_format_decision_correct. unfold detect_format_decision.
  destruct (negb (path_exists P input_path)); [done|]. cbv zeta.
  set (files := listdir W input_path).
  assert (Hseen : ∀ ft, existsb (sample_evidence W P input_path ft) (sample_files files)
                        = true → annotation_files W input_path ft ≠ []).
  { intros ft (f & Hf & He)%existsb_elem.
    apply sample_files_elem in Hf.
    pose proof (sample_evidence_candidate W P input_path ft f Hf He) as Hin.
    intros Hnil. rewrite Hnil in Hin. by apply elem_of_nil in Hin. }
  destruct (existsb (sample_evidence W P input_path labelme) _) eqn:Hl;
    [intros [= <-]; by apply Hseen|].
  destruct (existsb (sample_evidence W P input_path hk) _) eqn:Hh;
    [intros [= <-]; by apply Hseen|].
  destruct (existsb (sample_evidence W P input_path yolo) _) eqn:Hy;
    [intros [= <-]; by apply Hseen|]. simpl.
  destruct (PyStr.mem "classes.txt" files && existsb is_yolo_txt files) eqn:Hc.
  { intros [= <-]. apply andb_true_iff in Hc as [_ (f & Hf & Ht)%existsb_elem].
    intros Hnil.
    assert (Hin : f ∈ annotation_files W input_path yolo).
    { unfold annotation_files. apply list_elem_of_filter. split; [|done].
      unfold is_yolo_txt in Ht. by rewrite Ht. }
    rewrite Hnil in Hin. by apply elem_of_nil in Hin. }
  destruct (existsb (sample_evidence W P input_path voc) _) eqn:Hv;
    [intros [= <-]; by apply Hseen|].
  destruct (existsb (sample_evidence W P input_path coco_single) _) eqn:Hj;
    [intros [= <-]; by apply Hseen|].
  done.
Qed.

Lemma detected_format_has_annotation_files_witness :
  annotation_files yolo_world "ann" yolo ≠ [].
Proof.
  apply (detected_format_has_annotation_files yolo_world example_probe "ann" yolo).
  vm_compute. reflexivity.
Defined.


(** ** The expansion ratio *)

(** X21: the ratio [get_crop_parameters] returns is never zero or below:
    it is 1.0 for an empty answer, and otherwise the first answer that
    reads as a float and is not [<= 0]; every answer before it was refused,
    as not a number or as not positive. *)
Theorem crop_ratio_is_not_below_zero W inputs ratio rest :
  get_crop_parameters W inputs = Some (ratio, rest) →
  PrimFloat.leb ratio PrimFloat.zero = false
  ∧ ∃ refused line,
      inputs = refused ++ line :: rest
      ∧ (strip line = "" ∧ ratio = PrimFloat.one
         ∨ strip line ≠ "" ∧ float_of_text W (strip line) = Some ratio)
      ∧ ∀ l, l ∈ refused →
          strip l ≠ ""
          ∧ (float_of_text W (strip l) = None
             ∨ ∃ r, float_of_text W (strip l) = Some r
                    ∧ PrimFloat.leb r PrimFloat.zero = true).
Proof.
  induction inputs as [|line inputs IH]; simpl; [done|]. intros H.
  assert (Hloop : get_crop_parameters W inputs = Some (ratio, rest) →
                  strip line ≠ ""
                  ∧ (float_of_text W (strip line) = None
                     ∨ ∃ r, float_of_text W (strip line) = Some r
                            ∧ PrimFloat.leb r PrimFloat.zero = true) →
    PrimFloat.leb ratio PrimFloat.zero = false
    ∧ ∃ refused line0,
        line :: inputs = refused ++ line0 :: rest
        ∧ (strip line0 = "" ∧ ratio = PrimFloat.one
           ∨ strip line0 ≠ "" ∧ float_of_text W (strip line0) = Some ratio)
        ∧ ∀ l, l ∈ refused →
            strip l ≠ ""
            ∧ (float_of_text W (strip l) = None
               ∨ ∃ r, float_of_text W (strip l) = Some r
                      ∧ PrimFloat.leb r PrimFloat.zero = true)).
  { intros Hrest Hline. destruct (IH Hrest) as (Hr & refused & line0 & -> & Hl0 & Hall).
    split; [done|]. exists (line :: refused), line0. split; [done|]. split; [done|].
    intros l [->|Hl]%elem_of_cons; [done|by apply Hall]. }
  destruct (String.eqb_spec (strip line) "") as [Hempty|Hne].
  { injection H as <- <-. split; [reflexivity|].
    exists [], line. split; [done|]. split; [by left|].
    by intros l ?%elem_of_nil. }
  destruct (float_of_text W (strip line)) as [r|] eqn:Hf; [|apply Hloop; auto].
  destruct (PrimFloat.leb r PrimFloat.zero) eqn:Hr; [apply Hloop; eauto|].
  injection H as <- <-. split; [done|].
  exists [], line. split; [done|]. split; [by right|]. by intros l ?%elem_of_nil.
Qed.

Lemma crop_ratio_is_not_below_zero_witness :
  PrimFloat.leb 1.5 PrimFloat.zero = false
  ∧ ∃ refused line,
      ["abc"; "-2"; " 1.5 "; "7"] = refused ++ line :: ["7"]
      ∧ (strip line = "" ∧ 1.5%float = PrimFloat.one
         ∨ strip line ≠ "" ∧ float_of_text yolo_world (strip line) = Some 1.5%float)
      ∧ ∀ l, l ∈ refused →
          strip l ≠ ""
          ∧ (float_of_text yolo_world (strip l) = None
             ∨ ∃ r, float_of_text yolo_world (strip l) = Some r
                    ∧ PrimFloat.leb r PrimFloat.zero = true).
Proof.
  apply (crop_ratio_is_not_below_zero yolo_world ["abc"; "-2"; " 1.5 "; "7"] 1.5 ["7"]).
  vm_compute. reflexivity.
Defined.

Lemma mul_nan f ratio :
  Prim2SF ratio = S754_nan → Prim2SF (PrimFloat.mul f ratio) = S754_nan.
Proof.
  intros Hnan. rewrite FloatAxioms.mul_spec, Hnan. unfold SF64mul, SFmul.
  by destruct (Prim2SF f).
Qed.

(** X22: an answer that reads as not-a-number passes the test on the
    ratio, since it is not [<= 0]; with that ratio
    [_apply_expansion_and_bounds] raises [ValueError] for every box, of
    integers or of floats (of a width within the range of a double), so
    that no crop of the run is saved. *)
Theorem nan_ratio_is_accepted_and_fails_every_crop W line rest ratio :
  strip line ≠ "" →
  float_of_text W (strip line) = Some ratio →
  Prim2SF ratio = S754_nan →
  get_crop_parameters W (line :: rest) = Some (ratio, rest)
  ∧ ∀ x y w h img_w img_h f,
      Num.to_float w = Ok f →
      _apply_expansion_and_bounds (mkBBox x y w h) img_w img_h ratio
      = Raise ValueError.
Proof.
  intros Hne Hf Hnan. split.
  - simpl. destruct (String.eqb_spec (strip line) ""); [done|]. rewrite Hf.
    rewrite FloatAxioms.leb_spec, Hnan. done.
  - intros x y w h img_w img_h f Hw. unfold _apply_expansion_and_bounds.
    rewrite FloatAxioms.eqb_spec, Hnan. simpl.
    unfold scale_length. rewrite Hw. simpl. unfold PyFloat.to_int.
    by rewrite mul_nan.
Qed.

Lemma nan_ratio_is_accepted_and_fails_every_crop_witness :
  get_crop_parameters nan_world ["nan"; "2"] = Some (PrimFloat.nan, ["2"])
  ∧ ∀ x y w h img_w img_h f,
      Num.to_float w = Ok f →
      _apply_expansion_and_bounds (mkBBox x y w h) img_w img_h PrimFloat.nan
      = Raise ValueError.
Proof.
  apply (nan_ratio_is_accepted_and_fails_every_crop nan_world "nan" ["2"] PrimFloat.nan);
    [discriminate|vm_compute; reflexivity..].
Defined.

(** ** The identifiers of the converted store *)

Lemma ids_from_length first n : length (ids_from first n) = n.
Proof. revert first; induction n as [|n IH]; intros first; simpl; [done|by rewrite IH]. Qed.

Lemma built_store_dense W ap ip format_type cm include_unmatched m :
  dense_identifiers (build_store W ap ip format_type cm include_unmatched m).
Proof.
  apply (build_stages_invariant dense_identifiers).
  - apply reset_invariants.
  - intros st0 a i. apply _process_file_pair_spec.
  - intros st0 i. apply add_unmatched_image_spec.
Qed.

(** The check leaves a store as it is exactly when none of its annotations
    is small, and otherwise removes at least one annotation. *)
Lemma quality_filter_decides t st st' :
  _check_and_filter_small_boxes t st = Ok st' →
  (st' = st ∧ ∀ ann, ann ∈ annotations st → is_small t ann = false)
  ∨ (∃ small,
        st' = _remove_small_boxes small t st
        ∧ map sb_id small = map ann_id (filter (λ a, is_small t a) (annotations st))
        ∧ (∃ ann, ann ∈ annotations st ∧ is_small t ann = true)
        ∧ (length (annotations st') < length (annotations st))%nat).
Proof.
  unfold _check_and_filter_small_boxes. intros H.
  destruct (annotations st) as [|a0 anns] eqn:Hanns.
  { injection H as <-. left. split; [done|]. by intros ann ?%elem_of_nil. }
  inv_bind H. destruct (collect_small_boxes_ids _ _ _ Hv) as [Hids _].
  destruct v as [|sb small]; injection H as <-.
  - left. split; [done|]. intros ann Hin.
    symmetry in Hids. apply map_eq_nil in Hids.
    destruct (is_small t ann) eqn:Hs; [|done].
    assert (ann ∈ filter (λ a, is_small t a) (a0 :: anns)) as Hf.
    { apply list_elem_of_filter. split; [by rewrite Hs|done]. }
    rewrite Hids in Hf. by apply elem_of_nil in Hf.
  - right. exists (sb :: small). rewrite <- Hanns in Hids |- *.
    split; [done|]. split; [done|].
    assert (Hex : ∃ ann, ann ∈ annotations st ∧ is_small t ann = true).
    { destruct (filter (λ a, is_small t a) (annotations st)) as [|a l] eqn:Hf;
        [discriminate Hids|].
      assert (Ha : a ∈ filter (λ a, is_small t a) (annotations st))
        by (rewrite Hf; by left).
      apply list_elem_of_filter in Ha as [Hs Ha]. exists a. split; [done|].
      by destruct (is_small t a). }
    split; [done|]. destruct Hex as (a & Ha & Hs).
    destruct (_remove_small_boxes_spec (sb :: small) t st Hids) as (_ & M & _ & Hout & _).
    rewrite Hout.
    pose proof (number_annotations_ids 1 M (kept_annotations t st)) as Hn.
    apply (f_equal length) in Hn. rewrite length_map, ids_from_length in Hn.
    rewrite Hn. eapply Nat.le_lt_trans; [apply length_filter|].
    unfold kept_annotations.
    apply (length_filter_lt _ _ a); [done|]. intros Hid. apply Hid.
    rewrite map_is_fmap. apply list_elem_of_fmap_2.
    apply list_elem_of_filter. split; [by rewrite Hs|done].
Qed.

(** X10: in the store [convert_to_coco] returns, the identifiers of the
    images and those of the annotations are consecutive integers in the
    order of the lists, hence distinct. They start at 0 exactly when the
    quality check removed nothing — no pair was matched, or no annotation
    of the store that was built is below the threshold, and the store is
    returned as it was built — and at 1 exactly when it removed a box: an
    annotation of the built store is below the threshold and the store
    returned has fewer annotations. *)
Theorem converted_identifiers_are_consecutive
    W ap ip format_type cm include_unmatched t flag st' :
  convert_to_coco W ap ip format_type cm include_unmatched t = Ok (flag, st') →
  ∃ m first,
    match_files W ap ip format_type = Ok m
    ∧ map img_id (images st') = ids_from first (length (images st'))
    ∧ map ann_id (annotations st') = ids_from first (length (annotations st'))
    ∧ NoDup (map img_id (images st')) ∧ NoDup (map ann_id (annotations st'))
    ∧ let st := build_store W ap ip format_type cm include_unmatched m in
      (first = 0
       ∧ (flag = false ∧ matched_pairs m = [] ∧ st' = reset
          ∨ flag = true ∧ st' = st
            ∧ ∀ ann, ann ∈ annotations st → is_small t ann = false)
       ∨ first = 1 ∧ flag = true
         ∧ (∃ ann, ann ∈ annotations st ∧ is_small t ann = true)
         ∧ (length (annotations st') < length (annotations st))%nat).
Proof.
  intros Hrun. unfold convert_to_coco in Hrun. inv_bind Hrun. rename v into m, Hv into Hm.
  exists m.
  assert (Hids : ∃ first,
    map img_id (images st') = ids_from first (length (images st'))
    ∧ map ann_id (annotations st') = ids_from first (length (annotations st'))
    ∧ let st := build_store W ap ip format_type cm include_unmatched m in
      (first = 0
       ∧ (flag = false ∧ matched_pairs m = [] ∧ st' = reset
          ∨ flag = true ∧ st' = st
            ∧ ∀ ann, ann ∈ annotations st → is_small t ann = false)
       ∨ first = 1 ∧ flag = true
         ∧ (∃ ann, ann ∈ annotations st ∧ is_small t ann = true)
         ∧ (length (annotations st') < length (annotations st))%nat)).
  { destruct (matched_pairs m) as [|p ps] eqn:Hp.
    { injection Hrun as <- <-. exists 0. split; [done|]. split; [done|]. left. by auto. }
    inv_bind Hrun. injection Hrun as <- <-. rename Hv into Hrun.
    pose proof (built_store_dense W ap ip format_type cm include_unmatched m)
      as [Hi _ Ha _].
    destruct (quality_filter_decides _ _ _ Hrun)
      as [[-> Hnone]|(small & -> & Hsmall & Hex & Hlt)].
    - exists 0. split; [done|]. split; [done|]. left. by auto.
    - exists 1.
      destruct (_remove_small_boxes_spec small t _ Hsmall) as (Himgs & M & _ & Hanns & _).
      pose proof (number_images_ids 1
                    (surviving_images t
                       (build_store W ap ip format_type cm include_unmatched m))) as H1.
      pose proof (number_annotations_ids 1 M
                    (kept_annotations t
                       (build_store W ap ip format_type cm include_unmatched m))) as H2.
      rewrite <- Himgs in H1. rewrite <- Hanns in H2.
      assert (Hl1 := f_equal length H1). assert (Hl2 := f_equal length H2).
      rewrite length_map, ids_from_length in Hl1, Hl2.
      split; [by rewrite Hl1|]. split; [by rewrite Hl2|]. right. by auto. }
  destruct Hids as (first & Hi & Ha & Hcase). exists first.
  split; [done|]. split; [done|]. split; [done|].
  split; [rewrite Hi; apply ids_from_NoDup|].
  split; [rewrite Ha; apply ids_from_NoDup|]. done.
Qed.

Lemma converted_identifiers_are_consecutive_witness :
  ∃ m first,
    match_files yolo_world "ann" "img" yolo = Ok m
    ∧ map img_id [mkImage "a.jpg" 1 100 200] = ids_from first 1
    ∧ map ann_id [mkAnnotation 1 1 0 (int_box 40 60 20 80) (NInt 1600)]
      = ids_from first 1
    ∧ NoDup (map img_id [mkImage "a.jpg" 1 100 200])
    ∧ NoDup (map ann_id [mkAnnotation 1 1 0 (int_box 40 60 20 80) (NInt 1600)])
    ∧ let st := build_store yolo_world "ann" "img" yolo None true m in
      (first = 0
       ∧ (true = false ∧ matched_pairs m = []
          ∧ mkConverter [mkCategory 0 "class_0"; mkCategory 1 "class_1"]
              [mkImage "a.jpg" 1 100 200]
              [mkAnnotation 1 1 0 (int_box 40 60 20 80) (NInt 1600)]
              (<["class_1" := 1]> (<["class_0" := 0]> ∅)) ∅ 2 2 2 = reset
          ∨ true = true
            ∧ mkConverter [mkCategory 0 "class_0"; mkCategory 1 "class_1"]
                [mkImage "a.jpg" 1 100 200]
                [mkAnnotation 1 1 0 (int_box 40 60 20 80) (NInt 1600)]
                (<["class_1" := 1]> (<["class_0" := 0]> ∅)) ∅ 2 2 2 = st
            ∧ ∀ ann, ann ∈ annotations st → is_small 25 ann = false)
       ∨ first = 1 ∧ true = true
         ∧ (∃ ann, ann ∈ annotations st ∧ is_small 25 ann = true)
         ∧ (length [mkAnnotation 1 1 0 (int_box 40 60 20 80) (NInt 1600)]
            < length (annotations st))%nat).
Proof.
  apply (converted_identifiers_are_consecutive yolo_world "ann" "img" yolo None true 25
           true
           (mkConverter [mkCategory 0 "class_0"; mkCategory 1 "class_1"]
              [mkImage "a.jpg" 1 100 200]
              [mkAnnotation 1 1 0 (int_box 40 60 20 80) (NInt 1600)]
              (<["class_1" := 1]> (<["class_0" := 0]> ∅)) ∅ 2 2 2)).
  vm_compute. reflexivity.
Defined.

(** ** The counters of the cropper *)

Lemma counted_bump (m : gmap string Z) category :
  map_fold (λ _ n total, n + total) 0
           (<[category := default 0 (m !! category) + 1]> m)
  = map_fold (λ (_ : string) n total, n + total) 0 m + 1.
Proof.
  destruct (m !! category) as [n|] eqn:Hl; simpl.
  - rewrite <- insert_delete_eq.
    rewrite map_fold_insert_L; [|intros; lia|apply lookup_delete_eq].
    rewrite (map_fold_delete_L _ _ category n m); [lia|intros; lia|done].
  - rewrite map_fold_insert_L; [lia|intros; lia|done].
Qed.

Lemma crop_step_counters {Files}
    (save_crop : Files → string → nat → RawBox → float → Files * result unit)
    img_file ratio acc entry :
  counters_agree acc.2 →
  let acc' := crop_step save_crop img_file ratio acc entry in
  counters_agree acc'.2 ∧ crop_count acc.2 ≤ crop_count acc'.2 ≤ crop_count acc.2 + 1.
Proof.
  destruct acc as [files c], entry as [i ann]. simpl. intros [Hsum Hpos].
  destruct (save_crop files img_file i ann ratio) as [files' [[]|e]]; simpl.
  - split; [|lia]. split; simpl.
    + unfold counted. simpl. rewrite counted_bump. unfold counted in Hsum. lia.
    + intros category n.
      destruct (decide (category = raw_category ann)) as [->|Hne].
      * rewrite lookup_insert_eq. intros [= <-].
        destruct (category_counts c !! raw_category ann) as [k|] eqn:Hk; simpl; [|lia].
        specialize (Hpos _ _ Hk). lia.
      * rewrite lookup_insert_ne by done. apply Hpos.
  - split; [by split|lia].
Qed.

Lemma crop_fold_counters {Files}
    (save_crop : Files → string → nat → RawBox → float → Files * result unit)
    img_file ratio entries acc :
  counters_agree acc.2 →
  let acc' := fold_left (crop_step save_crop img_file ratio) entries acc in
  counters_agree acc'.2
  ∧ crop_count acc.2 ≤ crop_count acc'.2 ≤ crop_count acc.2 + Z.of_nat (length entries).
Proof.
  revert acc; induction entries as [|entry entries IH]; intros acc Hacc; simpl.
  - split; [done|lia].
  - destruct (crop_step_counters save_crop img_file ratio acc entry Hacc) as [H1 H2].
    destruct (IH _ H1) as [H3 H4]. split; [done|lia].
Qed.

Lemma enumerate_length {A} (l : list A) : length (enumerate l) = length l.
Proof. unfold enumerate. apply length_imap. Qed.

Lemma _process_image_crop_counters {Files}
    (save_crop : Files → string → nat → RawBox → float → Files * result unit)
    W ap ip ann_file img_file format_type cm ratio acc :
  counters_agree acc.2 →
  let acc' := (_process_image_crop save_crop W ap ip ann_file img_file format_type cm
                 ratio acc).1 in
  counters_agree acc'.2
  ∧ crop_count acc.2 ≤ crop_count acc'.2
    ≤ crop_count acc.2
      + parsed_box_count W ap ip format_type cm [(ann_file, img_file)].
Proof.
  intros Hacc. unfold _process_image_crop, parsed_box_count. simpl.
  destruct (image_size W ip img_file) as [[img_w img_h]|]; simpl; [|split; [done|lia]].
  destruct (parse_annotations W ap ann_file format_type img_w img_h cm) as [anns|];
    simpl; [|split; [done|lia]].
  destruct (crop_fold_counters save_crop img_file ratio (enumerate anns) acc Hacc)
    as [H1 H2].
  rewrite enumerate_length in H2. split; [done|lia].
Qed.

Lemma parsed_box_count_cons W ap ip format_type cm pair pairs :
  parsed_box_count W ap ip format_type cm (pair :: pairs)
  = parsed_box_count W ap ip format_type cm [pair]
    + parsed_box_count W ap ip format_type cm pairs.
Proof.
  unfold parsed_box_count. simpl.
  destruct (image_size W ip pair.2) as [[img_w img_h]|]; [|lia].
  destruct (parse_annotations W ap pair.1 format_type img_w img_h cm); lia.
Qed.

(** X18: whatever crops fail, the counters of the cropper agree when
    [crop_images] ends: [crop_count] is the sum of the counts of the
    categories, every category that is counted has at least one crop, and
    the total is at most the number of boxes parsed from the matched pairs
    — a box counts only once its crop is saved. *)
Theorem crop_counters_agree {Files}
    (save_crop : Files → string → nat → RawBox → float → Files * result unit)
    W ap ip format_type cm ratio files flag files' c :
  crop_images save_crop W ap ip format_type cm ratio files = Ok (flag, (files', c)) →
  counters_agree c
  ∧ ∃ m, match_files W ap ip format_type = Ok m
         ∧ 0 ≤ crop_count c
             ≤ parsed_box_count W ap ip format_type cm (matched_pairs m).
Proof.
  unfold crop_images. intros Hrun. inv_bind Hrun. rename v into m, Hv into Hm.
  assert (Hloop : ∀ pairs acc,
    counters_agree acc.2 →
    let acc' := fold_left (λ acc pair,
                  (_process_image_crop save_crop W ap ip pair.1 pair.2 format_type cm
                     ratio acc).1) pairs acc in
    counters_agree acc'.2
    ∧ crop_count acc.2 ≤ crop_count acc'.2
      ≤ crop_count acc.2 + parsed_box_count W ap ip format_type cm pairs).
  { induction pairs as [|[a i] pairs IH]; intros acc Hacc.
    - simpl. split; [done|lia].
    - cbn [fold_left]. rewrite parsed_box_count_cons.
      destruct (_process_image_crop_counters save_crop W ap ip a i format_type cm
                  ratio acc Hacc) as [H1 H2].
      destruct (IH _ H1) as [H3 H4]. split; [done|]. simpl in H2, H4 |- *. lia. }
  assert (H0 : counters_agree (mkCropper 0 ∅)).
  { split; [done|]. intros category n. simpl. by rewrite lookup_empty. }
  destruct (matched_pairs m) as [|p ps] eqn:Hp.
  - injection Hrun as <- <- <-. split; [done|]. exists m. rewrite Hp. simpl.
    split; [done|lia].
  - destruct (Hloop (p :: ps) (files, mkCropper 0 ∅) H0) as [H1 H2].
    injection Hrun as <- Hfold. simpl in H1, H2. rewrite Hfold in H1, H2.
    split; [done|]. exists m. rewrite Hp. split; [done|]. simpl in H2 |- *. lia.
Qed.

Lemma crop_counters_agree_witness :
  counters_agree (mkCropper 1 (<["class_0" := 1]> ∅))
  ∧ ∃ m, match_files yolo_world "ann" "img" yolo = Ok m
         ∧ 0 ≤ 1 ≤ parsed_box_count yolo_world "ann" "img" yolo None (matched_pairs m).
Proof.
  apply (crop_counters_agree example_darkroom yolo_world "ann" "img" yolo None 1 []
           true ["class_0/a.jpg"] (mkCropper 1 (<["class_0" := 1]> ∅))).
  vm_compute. reflexivity.
Defined.

(** ** hk: a child that cannot be read *)

Lemma collect_tags_raises (f : json → result json) l c e :
  c ∈ l → f c = Raise e → ∃ e', collect_tags (map f l) = Raise e'.
Proof.
  induction l as [|x l IH]; intros Hc He; [by apply elem_of_nil in Hc|]. simpl.
  destruct (f x) as [tag|e0] eqn:Hx; [|eauto].
  apply elem_of_cons in Hc as [->|Hc]; [congruence|].
  destruct (IH Hc He) as [e' ->]. eauto.
Qed.

(** X15: [find_deepest_tag] visits every child of a node, also after a
    child has given a tag: a single child on which it raises — a child
    that is not an object, for one — makes it raise on the node, so that
    the entry is skipped by the converter and by the cropper alike,
    whatever tags its other children carry. *)
Theorem hk_entry_with_an_unreadable_child_is_skipped W kv l c e img st :
  Json.lookup "children" kv = Some (JArr l) →
  c ∈ l →
  find_deepest_tag c = Raise e →
  (∃ e', _get_deepest_category_name (JObj kv) = Raise e')
  ∧ collect_boxes (hk_box W) [JObj kv] = []
  ∧ add_entries img (hk_box W) [JObj kv] st = st.
Proof.
  intros Hchildren Hc He.
  assert (Hraise : ∃ e', _get_deepest_category_name (JObj kv) = Raise e').
  { unfold _get_deepest_category_name. rewrite find_deepest_tag_unfold.
    unfold find_deepest_tag_body. simpl. rewrite Hchildren. simpl.
    destruct l as [|x l']; [by apply elem_of_nil in Hc|]. simpl negb. cbv iota.
    destruct (collect_tags_raises find_deepest_tag (x :: l') c e Hc He) as [e' ->].
    eauto. }
  split; [done|]. destruct Hraise as [e' Hraise].
  assert (Hbox : hk_box W (JObj kv) = Raise e').
  { unfold hk_box. by rewrite Hraise. }
  unfold collect_boxes, add_entries. simpl. by rewrite Hbox.
Qed.

Lemma hk_entry_with_an_unreadable_child_is_skipped_witness :
  (∃ e', _get_deepest_category_name
           (JObj [("tagName", JStr "car"); ("tagInfo", JStr "");
                  ("children", JArr [hk_leaf "sedan"; JStr "coupe"])]) = Raise e')
  ∧ collect_boxes (hk_box yolo_world)
      [JObj [("tagName", JStr "car"); ("tagInfo", JStr "");
             ("children", JArr [hk_leaf "sedan"; JStr "coupe"])]] = []
  ∧ add_entries 0 (hk_box yolo_world)
      [JObj [("tagName", JStr "car"); ("tagInfo", JStr "");
             ("children", JArr [hk_leaf "sedan"; JStr "coupe"])]] reset = reset.
Proof.
  apply (hk_entry_with_an_unreadable_child_is_skipped yolo_world
           [("tagName", JStr "car"); ("tagInfo", JStr "");
            ("children", JArr [hk_leaf "sedan"; JStr "coupe"])]
           [hk_leaf "sedan"; JStr "coupe"] (JStr "coupe") AttributeError 0 reset).
  - reflexivity.
  - apply list_elem_of_further, list_elem_of_here.
  - reflexivity.
Defined.
